(** * 1-Wire protocol engine (extras/onewire/onewire.c): a shallow embedding

    The C functions of [onewire.c] are written as state-passing functions over
    an abstract board (the pin driver, the busy-wait and the critical-section
    primitive, which the C file only calls).  Three boards are used below:
    - [logged], which wraps any board and records every call made to it;
    - [scripted], a line whose sampled levels are read off a list;
    - [sim], a line with a population of 1-Wire slaves attached. *)

From Stdlib Require Import ZArith List Bool Lia Permutation Sorted.
Import ListNotations.
Open Scope Z_scope.

(** ** Machine integers *)

Definition u8 (x : Z) : Z := x mod 256.
Definition u16 (x : Z) : Z := x mod 65536.

(** ** The board: what [onewire.c] calls but does not define *)

Inductive gpio_direction_t := GPIO_INPUT | GPIO_OUTPUT | GPIO_OUT_OPEN_DRAIN.

(** Computations that act on the board state [hw]. *)
Definition M (hw A : Type) : Type := hw -> A * hw.

Definition ret {hw A} (a : A) : M hw A := fun h => (a, h).
Definition bind {hw A B} (m : M hw A) (k : A -> M hw B) : M hw B :=
  fun h => let (a, h') := m h in k a h'.

Declare Scope board_scope.
Delimit Scope board_scope with board.
Notation "x <- m ;; k" := (bind m (fun x => k))
  (at level 61, m at next level, right associativity) : board_scope.
Notation "m ;; k" := (bind m (fun _ => k))
  (at level 61, right associativity) : board_scope.
Open Scope board_scope.

Class Platform (hw : Type) := {
  gpio_enable : Z -> gpio_direction_t -> M hw unit;
  gpio_write : Z -> bool -> M hw unit;
  gpio_read : Z -> M hw bool;
  sdk_os_delay_us : Z -> M hw unit;
  taskENTER_CRITICAL : M hw unit;
  taskEXIT_CRITICAL : M hw unit;
  (* the one [printf] of the file; its arguments are the two 32-bit halves *)
  printf : Z -> Z -> M hw unit
}.

(** ** Bit and byte transport, bus reset *)

Section Transport.
Context {hw : Type} `{Platform hw}.

Definition noInterrupts : M hw unit := taskENTER_CRITICAL.
Definition interrupts : M hw unit := taskEXIT_CRITICAL.

(** The idle wait of [onewire_reset]:
    [do { if (--retries == 0) return 0; sdk_os_delay_us(2); } while (!gpio_read(pin));]
    [n] is the value [--retries] has just produced.  The result is [false] when
    the function leaves through [return 0] and [true] when the loop is left
    because the line was read high. *)
Fixpoint reset_wait_idle (n : nat) (pin : Z) : M hw bool :=
  match n with
  | O => ret false
  | S n' =>
      sdk_os_delay_us 2 ;;
      lvl <- gpio_read pin ;;
      if negb lvl then reset_wait_idle n' pin else ret true
  end.

Definition onewire_reset (pin : Z) : M hw Z :=
  let retries := 125 in
  gpio_enable pin GPIO_OUT_OPEN_DRAIN ;;
  gpio_write pin true ;;
  idle <- reset_wait_idle (Z.to_nat (u8 (retries - 1))) pin ;;
  if negb idle then ret 0 else
  gpio_write pin false ;;
  sdk_os_delay_us 480 ;;
  noInterrupts ;;
  gpio_write pin true ;;
  sdk_os_delay_us 70 ;;
  lvl <- gpio_read pin ;;
  let r := Z.b2z (negb lvl) in
  interrupts ;;
  sdk_os_delay_us 410 ;;
  ret r.

Definition onewire_write_bit (pin v : Z) : M hw unit :=
  if negb (Z.land v 1 =? 0) then
    noInterrupts ;;
    gpio_write pin false ;;
    sdk_os_delay_us 10 ;;
    gpio_write pin true ;;
    interrupts ;;
    sdk_os_delay_us 55
  else
    noInterrupts ;;
    gpio_write pin false ;;
    sdk_os_delay_us 65 ;;
    gpio_write pin true ;;
    interrupts ;;
    sdk_os_delay_us 5.

Definition onewire_read_bit (pin : Z) : M hw Z :=
  noInterrupts ;;
  gpio_write pin false ;;
  sdk_os_delay_us 3 ;;
  gpio_write pin true ;;
  sdk_os_delay_us 10 ;;
  lvl <- gpio_read pin ;;
  let r := Z.b2z lvl in
  interrupts ;;
  sdk_os_delay_us 53 ;;
  ret r.

(** The values [bitMask] takes in [for (bitMask = 0x01; bitMask; bitMask <<= 1)]
    on a [uint8_t]: the loop stops when the shift has pushed the bit out. *)
Fixpoint bit_masks (n : nat) (bitMask : Z) : list Z :=
  match n with
  | O => []
  | S n' => if bitMask =? 0 then [] else bitMask :: bit_masks n' (u8 (Z.shiftl bitMask 1))
  end.

Fixpoint onewire_write_loop (masks : list Z) (pin v : Z) : M hw unit :=
  match masks with
  | [] => ret tt
  | bitMask :: rest =>
      onewire_write_bit pin (if negb (Z.land bitMask v =? 0) then 1 else 0) ;;
      onewire_write_loop rest pin v
  end.

Definition onewire_write (pin v : Z) : M hw unit :=
  onewire_write_loop (bit_masks 9 1) pin v.

Fixpoint onewire_read_loop (masks : list Z) (pin r : Z) : M hw Z :=
  match masks with
  | [] => ret r
  | bitMask :: rest =>
      b <- onewire_read_bit pin ;;
      onewire_read_loop rest pin (if negb (b =? 0) then Z.lor r bitMask else r)
  end.

Definition onewire_read (pin : Z) : M hw Z :=
  onewire_read_loop (bit_masks 9 1) pin 0.

End Transport.

(** ** A board that records the calls made to it *)

Inductive event :=
| EvEnable (pin : Z) (d : gpio_direction_t)
| EvWrite (pin : Z) (level : bool)
| EvRead (pin : Z) (level : bool)
| EvDelay (us : Z)
| EvEnterCritical
| EvExitCritical
| EvPrintf (hi lo : Z).

Record logged (hw : Type) := Logged { inner : hw; trace : list event }.
Arguments Logged {hw}.
Arguments inner {hw}.
Arguments trace {hw}.

Definition emit {hw A} (m : M hw A) (ev : A -> event) : M (logged hw) A :=
  fun s => let (a, h) := m (inner s) in (a, Logged h (trace s ++ [ev a])).

#[export] Instance logged_platform (hw : Type) `{Platform hw} : Platform (logged hw) := {
  gpio_enable pin d := emit (gpio_enable pin d) (fun _ => EvEnable pin d);
  gpio_write pin v := emit (gpio_write pin v) (fun _ => EvWrite pin v);
  gpio_read pin := emit (gpio_read pin) (fun v => EvRead pin v);
  sdk_os_delay_us n := emit (sdk_os_delay_us n) (fun _ => EvDelay n);
  taskENTER_CRITICAL := emit taskENTER_CRITICAL (fun _ => EvEnterCritical);
  taskEXIT_CRITICAL := emit taskEXIT_CRITICAL (fun _ => EvExitCritical);
  printf hi lo := emit (printf hi lo) (fun _ => EvPrintf hi lo)
}.

(** The microseconds a trace spends in [sdk_os_delay_us]. *)
Fixpoint delay_total (t : list event) : Z :=
  match t with
  | [] => 0
  | EvDelay n :: t' => n + delay_total t'
  | _ :: t' => delay_total t'
  end.

(** The critical-section calls of a trace, in order. *)
Definition is_critical (e : event) : bool :=
  match e with EvEnterCritical | EvExitCritical => true | _ => false end.

Definition critical_calls (t : list event) : list event := filter is_critical t.

(** Nesting depth of the critical section after a trace that started at depth
    [d]; [None] when the trace leaves a section it had not entered. *)
Fixpoint critical_depth (d : nat) (t : list event) : option nat :=
  match t with
  | [] => Some d
  | EvEnterCritical :: t' => critical_depth (S d) t'
  | EvExitCritical :: t' =>
      match d with O => None | S d' => critical_depth d' t' end
  | _ :: t' => critical_depth d t'
  end.

(** ** A line whose sampled levels are scripted *)

Definition scripted := list bool.

#[export] Instance scripted_platform : Platform scripted := {
  gpio_enable _ _ := ret tt;
  gpio_write _ _ := ret tt;
  gpio_read _ := fun s => match s with [] => (true, []) | v :: s' => (v, s') end;
  sdk_os_delay_us _ := ret tt;
  taskENTER_CRITICAL := ret tt;
  taskEXIT_CRITICAL := ret tt;
  printf _ _ := ret tt
}.

(** ** Device search *)

Definition u32 (x : Z) : Z := x mod 2 ^ 32.
Definition u64 (x : Z) : Z := x mod 2 ^ 64.

(** C arrays of [uint8_t] as lists: [a[i]] and [a[i] = v].  An index outside
    the array, which [onewire.c] never forms, reads 0 and writes nothing. *)
Definition aget (a : list Z) (i : Z) : Z := nth (Z.to_nat i) a 0.

Fixpoint list_set (a : list Z) (i : nat) (v : Z) : list Z :=
  match a, i with
  | [], _ => []
  | _ :: a', O => v :: a'
  | x :: a', S i' => x :: list_set a' i' v
  end.

Definition aset (a : list Z) (i : Z) (v : Z) : list Z := list_set a (Z.to_nat i) v.

(** Modelled from the spec: [onewire_search_t] is declared in [onewire.h],
    which is not among the sources.  The three fields are the ones
    [onewire.c] uses: the 8-byte working ROM buffer, the index of the last
    discrepancy and the flag set once the last device has been returned. *)
Record onewire_search_t := Search {
  rom_no : list Z;
  last_discrepancy : Z;
  last_device_found : bool
}.

Definition set_rom_no (search : onewire_search_t) (r : list Z) : onewire_search_t :=
  Search r (last_discrepancy search) (last_device_found search).
Definition set_last_discrepancy (search : onewire_search_t) (d : Z) : onewire_search_t :=
  Search (rom_no search) d (last_device_found search).
Definition set_last_device_found (search : onewire_search_t) (b : bool) : onewire_search_t :=
  Search (rom_no search) (last_discrepancy search) b.

(** [memset(search, 0, sizeof( *search))] *)
Definition onewire_search_start : onewire_search_t :=
  Search (repeat 0 8) 0 false.

Definition onewire_search_prefix (search : onewire_search_t) (family_code : Z)
  : onewire_search_t :=
  let search := set_rom_no search (aset (rom_no search) 0 family_code) in
  let search :=
    fold_left (fun search i => set_rom_no search (aset (rom_no search) i 0))
              [1; 2; 3; 4; 5; 6; 7] search in
  let search := set_last_discrepancy search 64 in
  set_last_device_found search false.

(** The locals of [onewire_search_next] that live across loop iterations. *)
Record search_locals := Locals {
  id_bit_number : Z;
  last_zero : Z;
  rom_byte_number : Z;
  rom_byte_mask : Z
}.

Section Search.
Context {hw : Type} `{Platform hw}.
(* [ONEWIRE_NONE] is a macro of [onewire.h]; its value is not in the sources. *)
Variable ONEWIRE_NONE : Z.

(** One pass through the body of the [do ... while] loop.  The flag is [true]
    when the body ends in [break]. *)
Definition search_step (pin : Z) (l : search_locals) (search : onewire_search_t)
  : M hw (bool * search_locals * onewire_search_t) :=
  id_bit <- onewire_read_bit pin ;;
  cmp_id_bit <- onewire_read_bit pin ;;
  if (id_bit =? 1) && (cmp_id_bit =? 1) then ret (true, l, search)
  else
    let '(search_direction, last_zero) :=
      if negb (id_bit =? cmp_id_bit) then (id_bit, last_zero l)
      else
        let search_direction :=
          if id_bit_number l <? last_discrepancy search
          then Z.b2z (Z.land (aget (rom_no search) (rom_byte_number l)) (rom_byte_mask l) >? 0)
          else Z.b2z (id_bit_number l =? last_discrepancy search) in
        (search_direction,
         if search_direction =? 0 then id_bit_number l else last_zero l) in
    let byte := aget (rom_no search) (rom_byte_number l) in
    let search :=
      if search_direction =? 1
      then set_rom_no search
             (aset (rom_no search) (rom_byte_number l) (u8 (Z.lor byte (rom_byte_mask l))))
      else set_rom_no search
             (aset (rom_no search) (rom_byte_number l)
                   (u8 (Z.land byte (Z.lnot (rom_byte_mask l))))) in
    onewire_write_bit pin search_direction ;;
    let id_bit_number := u8 (id_bit_number l + 1) in
    let rom_byte_mask := u8 (Z.shiftl (rom_byte_mask l) 1) in
    let '(rom_byte_number, rom_byte_mask) :=
      if rom_byte_mask =? 0 then (rom_byte_number l + 1, 1)
      else (rom_byte_number l, rom_byte_mask) in
    ret (false, Locals id_bit_number last_zero rom_byte_number rom_byte_mask, search).

(** The [do ... while (rom_byte_number < 8)] loop; [None] only when [fuel]
    runs out before the loop is left. *)
Fixpoint search_loop (fuel : nat) (pin : Z) (l : search_locals)
  (search : onewire_search_t) (h : hw)
  : option (bool * search_locals * onewire_search_t * hw) :=
  match fuel with
  | O => None
  | S fuel' =>
      let '(brk, l', search', h') := search_step pin l search h in
      if brk then Some (true, l', search', h')
      else if rom_byte_number l' <? 8 then search_loop fuel' pin l' search' h'
      else Some (false, l', search', h')
  end.

(** The loop as [onewire_search_next] enters it. *)
Definition search_walk (pin : Z) (search : onewire_search_t) (h : hw)
  : option (bool * search_locals * onewire_search_t * hw) :=
  search_loop 64 pin (Locals 1 0 0 1) search h.

(** [addr] as assembled by the final [for] loop, byte 7 first. *)
Definition search_addr (search : onewire_search_t) : Z :=
  fold_left (fun addr rom_byte_number =>
               Z.lor (u64 (Z.shiftl addr 8)) (aget (rom_no search) rom_byte_number))
            [7; 6; 5; 4; 3; 2; 1; 0] 0.

(** From [if (!search_result || !search->rom_no[0])] to the end. *)
Definition search_finish (search : onewire_search_t) (search_result : Z)
  : M hw (Z * onewire_search_t) :=
  if (search_result =? 0) || (aget (rom_no search) 0 =? 0) then
    let search := set_last_discrepancy search 0 in
    let search := set_last_device_found search false in
    ret (ONEWIRE_NONE, search)
  else
    let addr := search_addr search in
    printf (u32 (Z.shiftr addr 32)) (u32 addr) ;;
    ret (addr, search).

Definition onewire_search_next (search : onewire_search_t) (pin : Z) (h : hw)
  : option (Z * onewire_search_t * hw) :=
  let search_result := 0 in
  if negb (last_device_found search) then
    let (presence, h) := onewire_reset pin h in
    if presence =? 0 then
      let search := set_last_discrepancy search 0 in
      let search := set_last_device_found search false in
      Some (ONEWIRE_NONE, search, h)
    else
      let (_, h) := onewire_write pin 240 h in
      match search_walk pin search h with
      | None => None
      | Some (_, l, search, h) =>
          let '(search, search_result) :=
            if negb (id_bit_number l <? 65) then
              let search := set_last_discrepancy search (last_zero l) in
              let search :=
                if last_discrepancy search =? 0
                then set_last_device_found search true else search in
              (search, 1)
            else (search, search_result) in
          Some (search_finish search search_result h)
      end
  else Some (search_finish search search_result h).

End Search.

(** ** Integrity codecs *)

(** [*addr++] and [input[i]]: a read past the end of the buffer has no value. *)
Definition load (buf : list Z) (i : nat) : option Z := nth_error buf i.

Definition dscrc_table : list Z :=
  [ 0; 94; 188; 226; 97; 63; 221; 131; 194; 156; 126; 32; 163; 253; 31; 65;
    157; 195; 33; 127; 252; 162; 64; 30; 95; 1; 227; 189; 62; 96; 130; 220;
    35; 125; 159; 193; 66; 28; 254; 160; 225; 191; 93; 3; 128; 222; 60; 98;
    190; 224; 2; 92; 223; 129; 99; 61; 124; 34; 192; 158; 29; 67; 161; 255;
    70; 24; 250; 164; 39; 121; 155; 197; 132; 218; 56; 102; 229; 187; 89; 7;
    219; 133; 103; 57; 186; 228; 6; 88; 25; 71; 165; 251; 120; 38; 196; 154;
    101; 59; 217; 135; 4; 90; 184; 230; 167; 249; 27; 69; 198; 152; 122; 36;
    248; 166; 68; 26; 153; 199; 37; 123; 58; 100; 134; 216; 91; 5; 231; 185;
    140; 210; 48; 110; 237; 179; 81; 15; 78; 16; 242; 172; 47; 113; 147; 205;
    17; 79; 173; 243; 112; 46; 204; 146; 211; 141; 111; 49; 178; 236; 14; 80;
    175; 241; 19; 77; 206; 144; 114; 44; 109; 51; 209; 143; 12; 82; 176; 238;
    50; 108; 142; 208; 83; 13; 239; 177; 240; 174; 76; 18; 145; 207; 45; 115;
    202; 148; 118; 40; 171; 245; 23; 73; 8; 86; 180; 234; 105; 55; 213; 139;
    87; 9; 235; 181; 54; 104; 138; 212; 149; 203; 41; 119; 244; 170; 72; 22;
    233; 183; 85; 11; 136; 214; 52; 106; 43; 117; 151; 201; 74; 20; 246; 168;
    116; 42; 200; 150; 21; 75; 169; 247; 182; 232; 10; 84; 215; 137; 107; 53 ].

(** [onewire_crc8] as compiled with [ONEWIRE_CRC8_TABLE] set. *)
Module Crc8Table.

Definition pgm_read_byte (i : Z) : Z := nth (Z.to_nat i) dscrc_table 0.

(** [while (len--) crc = pgm_read_byte(dscrc_table + (crc ^ *addr++));] *)
Fixpoint crc8_loop (len : nat) (addr : list Z) (crc : Z) : option Z :=
  match len with
  | O => Some crc
  | S len' =>
      match addr with
      | [] => None
      | b :: addr' => crc8_loop len' addr' (pgm_read_byte (Z.lxor crc b))
      end
  end.

Definition onewire_crc8 (addr : list Z) (len : Z) : option Z :=
  crc8_loop (Z.to_nat len) addr 0.

End Crc8Table.

(** [onewire_crc8] as compiled with [ONEWIRE_CRC8_TABLE] clear. *)
Module Crc8Bitwise.

(** [for (i = 8; i; i--) { ... }] *)
Fixpoint crc8_bits (i : nat) (crc inbyte : Z) : Z :=
  match i with
  | O => crc
  | S i' =>
      let mix := Z.land (Z.lxor crc inbyte) 1 in
      let crc := Z.shiftr crc 1 in
      let crc := if negb (mix =? 0) then u8 (Z.lxor crc 140) else crc in
      let inbyte := Z.shiftr inbyte 1 in
      crc8_bits i' crc inbyte
  end.

Fixpoint crc8_loop (len : nat) (addr : list Z) (crc : Z) : option Z :=
  match len with
  | O => Some crc
  | S len' =>
      match addr with
      | [] => None
      | inbyte :: addr' => crc8_loop len' addr' (crc8_bits 8 crc inbyte)
      end
  end.

Definition onewire_crc8 (addr : list Z) (len : Z) : option Z :=
  crc8_loop (Z.to_nat len) addr 0.

End Crc8Bitwise.

Definition oddparity : list Z := [0; 1; 1; 0; 1; 0; 0; 1; 1; 0; 0; 1; 0; 1; 1; 0].

(** One pass through the body of the [for] loop of [onewire_crc16]. *)
Definition crc16_step (crc byte : Z) : Z :=
  let cdata := byte in
  let cdata := Z.land (Z.lxor cdata crc) 255 in
  let crc := Z.shiftr crc 8 in
  let crc :=
    if negb (Z.lxor (aget oddparity (Z.land cdata 15)) (aget oddparity (Z.shiftr cdata 4)) =? 0)
    then Z.lxor crc 49153 else crc in
  let cdata := u16 (Z.shiftl cdata 6) in
  let crc := Z.lxor crc cdata in
  let cdata := u16 (Z.shiftl cdata 1) in
  let crc := Z.lxor crc cdata in
  crc.

(** [for (i = 0; i < len; i++)], with [n] the passes still to run. *)
Fixpoint crc16_loop (n : nat) (i : nat) (input : list Z) (crc : Z) : option Z :=
  match n with
  | O => Some crc
  | S n' =>
      match load input i with
      | None => None
      | Some byte => crc16_loop n' (S i) input (crc16_step crc byte)
      end
  end.

Definition onewire_crc16 (input : list Z) (len : Z) (crc : Z) : option Z :=
  crc16_loop (Z.to_nat len) 0 input crc.

Definition onewire_check_crc16 (input : list Z) (len : Z) (inverted_crc : list Z) (crc : Z)
  : option bool :=
  match onewire_crc16 input len crc with
  | None => None
  | Some c =>
      let crc := u16 (Z.lnot c) in
      match load inverted_crc 0 with
      | None => None
      | Some b0 =>
          if Z.land crc 255 =? b0 then
            match load inverted_crc 1 with
            | None => None
            | Some b1 => Some (Z.shiftr crc 8 =? b1)
            end
          else Some false
      end
  end.

(** ** Expected traces of the transport functions *)

Definition write_bit_trace (pin v : Z) : list event :=
  if negb (Z.land v 1 =? 0)
  then [EvEnterCritical; EvWrite pin false; EvDelay 10; EvWrite pin true;
        EvExitCritical; EvDelay 55]
  else [EvEnterCritical; EvWrite pin false; EvDelay 65; EvWrite pin true;
        EvExitCritical; EvDelay 5].

Definition read_bit_trace (pin : Z) (lvl : bool) : list event :=
  [EvEnterCritical; EvWrite pin false; EvDelay 3; EvWrite pin true; EvDelay 10;
   EvRead pin lvl; EvExitCritical; EvDelay 53].

Definition poll_trace (pin : Z) (lvl : bool) : list event :=
  [EvDelay 2; EvRead pin lvl].

Definition reset_pulse_trace (pin : Z) (lvl : bool) : list event :=
  [EvWrite pin false; EvDelay 480; EvEnterCritical; EvWrite pin true; EvDelay 70;
   EvRead pin lvl; EvExitCritical; EvDelay 410].

Definition reset_setup_trace (pin : Z) : list event :=
  [EvEnable pin GPIO_OUT_OPEN_DRAIN; EvWrite pin true].

(** ** Exhaustive checks over bytes *)

Definition bytes256 : list Z := map Z.of_nat (seq 0 256).

Definition is_byte (b : Z) : Prop := 0 <= b < 256.

(** One byte of CRC-8: the table and the bit loop agree and stay in a byte. *)
Definition crc8_agree_at (crc b : Z) : bool :=
  let t := Crc8Table.pgm_read_byte (Z.lxor crc b) in
  (t =? Crc8Bitwise.crc8_bits 8 crc b) && (0 <=? t) && (t <? 256).

(** ** Invariants of the search loop *)

(** The loop counters at the start of pass [k] (counted from 0). *)
Definition counters_at (k : nat) (l : search_locals) : Prop :=
  id_bit_number l = Z.of_nat k + 1
  /\ rom_byte_number l = Z.of_nat k / 8
  /\ rom_byte_mask l = 2 ^ (Z.of_nat k mod 8).

(** A sequence of calls on one search state. *)
Inductive search_op :=
| OpStart
| OpPrefix (family_code : Z)
| OpNext (pin : Z).

Section SearchOps.
Context {hw : Type} `{Platform hw}.
Variable ONEWIRE_NONE : Z.

Definition run_op (op : search_op) (search : onewire_search_t) (h : hw)
  : option (onewire_search_t * hw) :=
  match op with
  | OpStart => Some (onewire_search_start, h)
  | OpPrefix family_code => Some (onewire_search_prefix search family_code, h)
  | OpNext pin =>
      match onewire_search_next ONEWIRE_NONE search pin h with
      | Some (_, search', h') => Some (search', h')
      | None => None
      end
  end.

Fixpoint run_ops (ops : list search_op) (search : onewire_search_t) (h : hw)
  : option (onewire_search_t * hw) :=
  match ops with
  | [] => Some (search, h)
  | op :: ops' =>
      match run_op op search h with
      | Some (search', h') => run_ops ops' search' h'
      | None => None
      end
  end.

End SearchOps.

(** The value the counterexamples and witnesses below take for the macro
    [ONEWIRE_NONE]. *)
Definition none_value : Z := 18446744073709551615.

(** ** A line with 1-Wire slaves attached

    The board below is one open-drain line with a pull-up and any number of
    slaves on it.  Each slave follows the 1-Wire signalling: a low pulse of
    480 microseconds or more resets it and is answered with a presence pulse;
    any shorter low pulse opens a time slot, in which the slave either samples
    the line (to receive a bit) or holds it low (to send a 0).  Each slave has
    its own timing, anywhere within the windows of the data sheets. *)

Record slave_timing := Timing {
  t_sample : Z;   (* samples a slot this long after its falling edge *)
  t_rdv : Z;      (* holds a 0 this long after the falling edge *)
  t_pdhigh : Z;   (* waits this long after a reset pulse ... *)
  t_pdlow : Z     (* ... and then holds the line low this long *)
}.

Definition timing_ok (tm : slave_timing) : Prop :=
  15 <= t_sample tm <= 60 /\ 15 <= t_rdv tm <= 60
  /\ 15 <= t_pdhigh tm <= 60 /\ 60 <= t_pdlow tm <= 240.

Inductive slave_state :=
| Waiting                          (* deaf until the next reset pulse *)
| RomCommand (n : nat) (acc : Z)   (* has taken [n] bits of the ROM command *)
| SearchBit (i : nat)              (* Search ROM: sends address bit [i] next *)
| SearchCmp (i : nat)              (* sends the complement of bit [i] next *)
| SearchDir (i : nat).             (* takes the master's choice for bit [i] next *)

(** What a slave with address [rom] puts on the line in its next slot
    ([false]: it holds the line low). *)
Definition out_bit (rom : Z) (st : slave_state) : bool :=
  match st with
  | SearchBit i => Z.testbit rom (Z.of_nat i)
  | SearchCmp i => negb (Z.testbit rom (Z.of_nat i))
  | _ => true
  end.

(** The slave's state after a slot in which it sampled [b]. *)
Definition slot_state (rom : Z) (b : bool) (st : slave_state) : slave_state :=
  match st with
  | Waiting => Waiting
  | RomCommand n acc =>
      let acc := if b then Z.lor acc (Z.shiftl 1 (Z.of_nat n)) else acc in
      if (n =? 7)%nat then (if acc =? 240 then SearchBit 0 else Waiting)
      else RomCommand (S n) acc
  | SearchBit i => SearchCmp i
  | SearchCmp i => SearchDir i
  | SearchDir i =>
      if Bool.eqb b (Z.testbit rom (Z.of_nat i))
      then (if (i =? 63)%nat then Waiting else SearchBit (S i))
      else Waiting
  end.

Record slave := Slave {
  rom : Z;
  timing : slave_timing;
  sstate : slave_state;
  low_from : Z;     (* the slave holds the line low from this time ... *)
  low_until : Z     (* ... up to this time *)
}.

Record sim := Sim {
  now : Z;              (* microseconds elapsed *)
  master_low : bool;    (* the master drives the line low *)
  fall_at : Z;          (* when it last started to *)
  slaves : list slave
}.

Definition on_fall (t : Z) (d : slave) : slave :=
  if out_bit (rom d) (sstate d) then d
  else Slave (rom d) (timing d) (sstate d) t (t + t_rdv (timing d)).

Definition on_rise (t dur : Z) (d : slave) : slave :=
  if 480 <=? dur then
    Slave (rom d) (timing d) (RomCommand 0 0)
          (t + t_pdhigh (timing d))
          (t + t_pdhigh (timing d) + t_pdlow (timing d))
  else
    Slave (rom d) (timing d)
          (slot_state (rom d) (dur <? t_sample (timing d)) (sstate d))
          (low_from d) (low_until d).

Definition holds_low (t : Z) (d : slave) : bool :=
  (low_from d <=? t) && (t <? low_until d).

Definition sim_write (lvl : bool) (s : sim) : sim :=
  if lvl then
    if master_low s
    then Sim (now s) false (fall_at s)
             (map (on_rise (now s) (now s - fall_at s)) (slaves s))
    else s
  else
    if master_low s then s
    else Sim (now s) true (now s) (map (on_fall (now s)) (slaves s)).

Definition sim_read (s : sim) : bool :=
  negb (master_low s) && forallb (fun d => negb (holds_low (now s) d)) (slaves s).

Definition sim_delay (us : Z) (s : sim) : sim :=
  Sim (now s + us) (master_low s) (fall_at s) (slaves s).

#[export] Instance sim_platform : Platform sim := {
  gpio_enable _ _ := ret tt;
  gpio_write _ lvl := fun s => (tt, sim_write lvl s);
  gpio_read _ := fun s => (sim_read s, s);
  sdk_os_delay_us us := fun s => (tt, sim_delay us s);
  taskENTER_CRITICAL := ret tt;
  taskEXIT_CRITICAL := ret tt;
  printf _ _ := ret tt
}.

(** The line between two calls: released, and no slave holding it. *)
Definition bus_idle (s : sim) : Prop :=
  master_low s = false
  /\ Forall (fun d => timing_ok (timing d) /\ low_until d <= now s) (slaves s).

(** A slave with data-sheet timing that has let go of the line by time [t]. *)
Definition slave_idle (t : Z) (d : slave) : Prop :=
  timing_ok (timing d) /\ low_until d <= t.

(** The addresses and protocol states on the line. *)
Definition bus_view (s : sim) : list (Z * slave_state) :=
  map (fun d => (rom d, sstate d)) (slaves s).

Definition view_slot (b : bool) (v : Z * slave_state) : Z * slave_state :=
  (fst v, slot_state (fst v) b (snd v)).

Definition view_out (v : Z * slave_state) : bool := out_bit (fst v) (snd v).

Definition view_reset (v : Z * slave_state) : Z * slave_state :=
  (fst v, RomCommand 0 0).

(** A line with slaves of the given addresses, all with the same timing,
    nothing having happened yet. *)
Definition attach (tm : slave_timing) (roms : list Z) : sim :=
  Sim 0 false 0 (map (fun r => Slave r tm Waiting 0 0) roms).

Definition typical_timing : slave_timing := Timing 30 30 30 120.

(** [n] calls of [onewire_search_next] in a row, with what they returned. *)
Fixpoint search_all {hw : Type} `{Platform hw} (ONEWIRE_NONE : Z) (n : nat)
  (search : onewire_search_t) (pin : Z) (h : hw)
  : option (list Z * onewire_search_t * hw) :=
  match n with
  | O => Some ([], search, h)
  | S n' =>
      match onewire_search_next ONEWIRE_NONE search pin h with
      | None => None
      | Some (addr, search', h') =>
          match search_all ONEWIRE_NONE n' search' pin h' with
          | None => None
          | Some (addrs, search'', h'') => Some (addr :: addrs, search'', h'')
          end
      end
  end.

(** ** The order in which the search finds the addresses

    Addresses are read here as lists of bits, bit 0 first.  [zeros A] and
    [ones A] are the tails of the members of [A] that start with a 0 and with
    a 1. *)

Definition zeros (A : list (list bool)) : list (list bool) :=
  flat_map (fun a => match a with false :: t => [t] | _ => [] end) A.

Definition ones (A : list (list bool)) : list (list bool) :=
  flat_map (fun a => match a with true :: t => [t] | _ => [] end) A.

Definition nonempty {X : Type} (l : list X) : bool :=
  match l with [] => false | _ => true end.

(** The bit walk on lists of bits: [j] is [id_bit_number], [ld] is
    [last_discrepancy], [prev] the bits of the ROM buffer from position [j]
    on, [A] the slaves still taking part and [lz] is [last_zero]. *)
Definition walk_dir (j ld : Z) (prev : list bool) (A : list (list bool)) : bool :=
  if nonempty (zeros A)
  then (if nonempty (ones A)
        then (if j <? ld then hd false prev else j =? ld)
        else false)
  else true.

Definition walk_lz (j : Z) (A : list (list bool)) (dir : bool) (lz : Z) : Z :=
  if nonempty (zeros A) && nonempty (ones A) && negb dir then j else lz.

Fixpoint awalk (n : nat) (j ld : Z) (prev : list bool) (A : list (list bool)) (lz : Z)
  : list bool * Z :=
  match n with
  | O => ([], lz)
  | S n' =>
      let dir := walk_dir j ld prev A in
      let (p, lz') :=
        awalk n' (j + 1) ld (tl prev) (if dir then ones A else zeros A)
              (walk_lz j A dir lz) in
      (dir :: p, lz')
  end.

(** The members of [A], all [n] bits long, in the order of the search: those
    with a 0 in the first place before those with a 1, and so on. *)
Fixpoint enum (n : nat) (A : list (list bool)) : list (list bool) :=
  match A with
  | [] => []
  | _ :: _ =>
      match n with
      | O => [[]]
      | S n' =>
          map (cons false) (enum n' (zeros A)) ++ map (cons true) (enum n' (ones A))
      end
  end.

(** The last position, counted from [j], at which the members of [A] disagree
    and [p] has a 0; [lz] when there is none. *)
Fixpoint lzp (n : nat) (j : Z) (A : list (list bool)) (p : list bool) (lz : Z) : Z :=
  match n, p with
  | S n', b :: p' =>
      let A0 := zeros A in
      let A1 := ones A in
      lzp n' (j + 1) (if b then A1 else A0) p'
          (if nonempty A0 && nonempty A1 && negb b then j else lz)
  | _, _ => lz
  end.

Definition all_len (n : nat) (A : list (list bool)) : Prop :=
  Forall (fun a => length a = n) A.

(** The 64 bits of an address from bit [k] on, and back. *)
Definition bits_from (k : nat) (a : Z) : list bool :=
  map (fun i => Z.testbit a (Z.of_nat i)) (seq k (64 - k)).

Definition addr_bits (a : Z) : list bool := bits_from 0 a.

Fixpoint bits_value (p : list bool) : Z :=
  match p with
  | [] => 0
  | b :: p' => Z.b2z b + 2 * bits_value p'
  end.

(** The order in which a search finds the addresses [addrs]. *)
Definition search_order (addrs : list Z) : list Z :=
  map bits_value (enum 64 (map addr_bits addrs)).

Definition is_addr (a : Z) : Prop := 0 <= a < 2 ^ 64.

(** ** The simulated line during a search *)

(** Bit [i] of the 64-bit ROM buffer. *)
Definition rom_bit (r : list Z) (i : nat) : bool :=
  Z.testbit (aget r (Z.of_nat i / 8)) (Z.of_nat i mod 8).

Definition rom_bits_from (k : nat) (r : list Z) : list bool :=
  map (rom_bit r) (seq k (64 - k)).

(** The slaves [act] selects are in state [st], the others wait for a reset. *)
Definition pview (st : slave_state) (act : Z -> bool) (addrs : list Z)
  : list (Z * slave_state) :=
  map (fun a => (a, if act a then st else Waiting)) addrs.

Definition walk_state (k : nat) : slave_state :=
  if (k <? 64)%nat then SearchBit k else Waiting.

(** The bits, from bit [k] on, of the addresses [act] selects. *)
Definition active (k : nat) (act : Z -> bool) (addrs : list Z) : list (list bool) :=
  map (bits_from k) (filter act addrs).

(** The direction and the [last_zero] that one pass of the loop computes from
    the two bits read, as [search_step] has them. *)
Definition chosen (id_bit cmp_id_bit : Z) (l : search_locals) (search : onewire_search_t)
  : Z * Z :=
  if negb (id_bit =? cmp_id_bit) then (id_bit, last_zero l)
  else
    let search_direction :=
      if id_bit_number l <? last_discrepancy search
      then Z.b2z (Z.land (aget (rom_no search) (rom_byte_number l)) (rom_byte_mask l) >? 0)
      else Z.b2z (id_bit_number l =? last_discrepancy search) in
    (search_direction,
     if search_direction =? 0 then id_bit_number l else last_zero l).

(** The ROM buffer after one pass that chose [dir] at bit [k]. *)
Definition rom_after (k : nat) (dir : bool) (r : list Z) : list Z :=
  let byte := aget r (Z.of_nat k / 8) in
  let mask := 2 ^ (Z.of_nat k mod 8) in
  if dir then aset r (Z.of_nat k / 8) (u8 (Z.lor byte mask))
  else aset r (Z.of_nat k / 8) (u8 (Z.land byte (Z.lnot mask))).

(** The eight bits of a byte, bit 0 first. *)
Definition byte_bits (b : Z) : list bool :=
  map (fun m => Z.testbit b (Z.of_nat m)) (seq 0 8).

(** The bit the master puts on the line for [bitMask] in [onewire_write]. *)
Definition write_bit_of (v bitMask : Z) : bool :=
  negb (Z.land (if negb (Z.land bitMask v =? 0) then 1 else 0) 1 =? 0).

(** An address whose family code (its low byte) is not zero. *)
Definition has_family (a : Z) : Prop := Z.land a 255 <> 0.

(** ** States that behave like a fresh one *)

(** The invariant of the type: eight bytes in the ROM buffer. *)
Definition search_wf (search : onewire_search_t) : Prop :=
  length (rom_no search) = 8%nat /\ Forall is_byte (rom_no search).

(** The two fields of a fresh state, whatever the ROM buffer holds. *)
Definition like_fresh (search : onewire_search_t) : Prop :=
  last_discrepancy search = 0 /\ last_device_found search = false /\ search_wf search.

Definition same_search (a b : onewire_search_t) : Prop :=
  a = b \/ (like_fresh a /\ like_fresh b).

(** ** Buffers, ROM commands and power *)

Section Commands.
Context {hw : Type} `{Platform hw}.

(** [for (i = 0; i < count; i++) onewire_write(pin, buf[i]);] with [n] the
    passes still to run; a read past the end of [buf] has no value. *)
Fixpoint write_bytes_loop (n i : nat) (pin : Z) (buf : list Z) (h : hw) : option hw :=
  match n with
  | O => Some h
  | S n' =>
      match load buf i with
      | None => None
      | Some v => write_bytes_loop n' (S i) pin buf (snd (onewire_write pin v h))
      end
  end.

Definition onewire_write_bytes (pin : Z) (buf : list Z) (count : Z) (h : hw)
  : option hw :=
  write_bytes_loop (Z.to_nat count) 0 pin buf h.

(** [for (i = 0; i < count; i++) buf[i] = onewire_read(pin);]: the byte is
    read first and then stored; a store past the end of [buf] has no
    outcome. *)
Fixpoint read_bytes_loop (n i : nat) (pin : Z) (buf : list Z) (h : hw)
  : option (list Z * hw) :=
  match n with
  | O => Some (buf, h)
  | S n' =>
      let (v, h') := onewire_read pin h in
      if (i <? length buf)%nat
      then read_bytes_loop n' (S i) pin (list_set buf i v) h'
      else None
  end.

Definition onewire_read_bytes (pin : Z) (buf : list Z) (count : Z) (h : hw)
  : option (list Z * hw) :=
  read_bytes_loop (Z.to_nat count) 0 pin buf h.

(** [for (i = 0; i < 8; i++) { onewire_write(pin, rom & 0xff); rom >>= 8; }]
    with [n] the passes still to run.  [rom] is an [onewire_addr_t], the
    64-bit unsigned type of [onewire.h], on which [>>=] loses no bits but the
    eight shifted out. *)
Fixpoint select_loop (n : nat) (pin rom : Z) : M hw unit :=
  match n with
  | O => ret tt
  | S n' =>
      onewire_write pin (Z.land rom 255) ;;
      select_loop n' pin (Z.shiftr rom 8)
  end.

Definition onewire_select (pin rom : Z) : M hw unit :=
  onewire_write pin 85 ;;
  select_loop 8 pin rom.

Definition onewire_skip_rom (pin : Z) : M hw unit :=
  onewire_write pin 204.

Definition onewire_power (pin : Z) : M hw unit :=
  gpio_enable pin GPIO_OUTPUT ;;
  gpio_write pin true.

Definition onewire_depower (pin : Z) : M hw unit :=
  gpio_enable pin GPIO_OUT_OPEN_DRAIN.

End Commands.

(** ** Expected traces of the byte functions *)

(** The eight write slots of one byte, bit 0 first. *)
Definition write_byte_trace (pin v : Z) : list event :=
  flat_map (fun b : bool => write_bit_trace pin (Z.b2z b)) (byte_bits v).

(** The read slots in which the line was sampled at the levels [lvls]. *)
Definition read_slots_trace (pin : Z) (lvls : list bool) : list event :=
  flat_map (read_bit_trace pin) lvls.

(** The number of bits that are set. *)
Definition count_ones (bits : list bool) : Z :=
  Z.of_nat (length (filter (fun b : bool => b) bits)).

(** ** Exhaustive checks on the CRC tables *)

(** Two different places of [dscrc_table] hold different bytes, and the
    exclusive or of two bytes is a byte. *)
Definition crc8_distinct_at (a b : Z) : bool :=
  ((a =? b) || negb (Crc8Table.pgm_read_byte a =? Crc8Table.pgm_read_byte b))
  && (Z.lxor a b <? 256).

(** A value of type [uint16_t]. *)
Definition is_u16 (c : Z) : Prop := 0 <= c < 65536.

(** What one pass of [onewire_crc16] adds for the byte [x] when the running
    CRC is 0. *)
Definition crc16_mix (x : Z) : Z := crc16_step 0 x.

(** Two different bytes are mixed to values that differ above bit 7, and a
    byte is mixed to a 16-bit value. *)
Definition crc16_separates_at (x y : Z) : bool :=
  ((x =? y) || negb (Z.lxor (crc16_mix x) (crc16_mix y) <? 256))
  && (0 <=? crc16_mix x) && (crc16_mix x <? 65536).

(** The running CRC [256 * hi + lo], taken through its own two bytes inverted,
    low byte first, ends at 0xB001. *)
Definition crc16_residue_at (hi lo : Z) : bool :=
  let c := 256 * hi + lo in
  let inv := u16 (Z.lnot c) in
  crc16_step (crc16_step c (Z.land inv 255)) (Z.shiftr inv 8) =? 45057.

(** ** Time spent inside critical sections *)

(** Scanning a trace: the nesting depth of the critical section, the delay
    spent since the outermost section now open was entered, and the longest
    an outermost section has lasted so far. *)
Record crit := Crit { depth : nat; held : Z; longest : Z }.

Definition crit_step (c : crit) (e : event) : crit :=
  match e with
  | EvEnterCritical =>
      Crit (S (depth c)) (match depth c with O => 0 | S _ => held c end) (longest c)
  | EvExitCritical =>
      match depth c with
      | O => c
      | S O => Crit O 0 (Z.max (longest c) (held c))
      | S (S d) => Crit (S d) (held c) (longest c)
      end
  | EvDelay n =>
      match depth c with
      | O => c
      | S _ => Crit (depth c) (held c + n) (longest c)
      end
  | _ => c
  end.

Definition crit_scan (t : list event) (c : crit) : crit := fold_left crit_step t c.

(** Every critical section of the trace is left again, and none lasts more
    than [limit] microseconds of delay. *)
Definition critical_bounded (limit : Z) (t : list event) : Prop :=
  exists m, crit_scan t (Crit 0 0 0) = Crit 0 0 m /\ 0 <= m <= limit.

(** ** The trace of a search *)

(** One pass of the search loop: two read slots and, unless the pass ends
    in [break], one write slot. *)
Definition step_trace (pin : Z) (p : bool * bool * option Z) : list event :=
  let '(id_bit, cmp_id_bit, dir) := p in
  read_bit_trace pin id_bit ++ read_bit_trace pin cmp_id_bit
  ++ match dir with Some d => write_bit_trace pin d | None => [] end.

(** What [onewire_reset] leaves in the trace: the idle wait ends after fewer
    than 124 polls and the reset pulse follows, or it runs out. *)
Definition reset_shape (pin : Z) (t : list event) : Prop :=
  (exists k lvl, (k < 124)%nat /\
     t = reset_setup_trace pin ++ concat (repeat (poll_trace pin false) k)
         ++ poll_trace pin true ++ reset_pulse_trace pin lvl)
  \/ t = reset_setup_trace pin ++ concat (repeat (poll_trace pin false) 124).

(** Scanned from outside any critical section, with any longest section so
    far, the trace ends outside any critical section and has added no section
    of more than [limit] microseconds. *)
Definition crit_ok (limit : Z) (t : list event) : Prop :=
  forall w, exists w',
    crit_scan t (Crit 0 0 w) = Crit 0 0 w' /\ w <= w' <= Z.max w limit.

(** The mode the pin [pin] is in after a trace, [d] being the mode before. *)
Fixpoint pin_mode (pin : Z) (t : list event) (d : option gpio_direction_t)
  : option gpio_direction_t :=
  match t with
  | [] => d
  | EvEnable p m :: t' => pin_mode pin t' (if p =? pin then Some m else d)
  | _ :: t' => pin_mode pin t' d
  end.

(** The level the master last wrote to the pin [pin] in a trace, [lvl] being
    the level before. *)
Fixpoint pin_level (pin : Z) (t : list event) (lvl : option bool) : option bool :=
  match t with
  | [] => lvl
  | EvWrite p v :: t' => pin_level pin t' (if p =? pin then Some v else lvl)
  | _ :: t' => pin_level pin t' lvl
  end.

(** A trace that does not switch the mode of the pin and that, begun with
    the line released, ends with the line released. *)
Definition pin_kept (pin : Z) (t : list event) : Prop :=
  (forall d, pin_mode pin t d = d) /\ pin_level pin t (Some true) = Some true.

(** ** The order of the search, on addresses *)

(** [p] has a 0 and [q] a 1 in the first place where they differ. *)
Definition bits_before (p q : list bool) : Prop :=
  exists pre p' q', p = pre ++ false :: p' /\ q = pre ++ true :: q'.

(** The address [a] has a 0 and [b] a 1 in the lowest of the 64 bits in which
    they differ. *)
Definition found_before (a b : Z) : Prop :=
  exists k : nat,
    (k < 64)%nat
    /\ (forall i : nat, (i < k)%nat -> Z.testbit a (Z.of_nat i) = Z.testbit b (Z.of_nat i))
    /\ Z.testbit a (Z.of_nat k) = false
    /\ Z.testbit b (Z.of_nat k) = true.

(** * Properties *)

(** ** Traces of the transport functions *)

Ltac board_step :=
  match goal with
  | |- context [let (_, _) := ?m in _] =>
      lazymatch type of m with (_ * logged _)%type => fail | _ => idtac end;
      lazymatch m with
      | context [let (_, _) := _ in _] => fail
      | _ =>
          let a := fresh "a" in let h := fresh "h" in
          destruct m as [a h];
          lazymatch type of a with unit => destruct a | _ => idtac end;
          cbn [fst snd inner trace]
      end
  end.

Ltac board_run :=
  unfold noInterrupts, interrupts;
  cbn [gpio_enable gpio_write gpio_read sdk_os_delay_us taskENTER_CRITICAL
       taskEXIT_CRITICAL printf logged_platform];
  unfold bind, ret, emit; cbn [fst snd inner trace];
  repeat board_step.

Section Traces.
Context {hw : Type} `{Platform hw}.

Lemma onewire_write_bit_trace (pin v : Z) (s : logged hw) :
  trace (snd (onewire_write_bit pin v s)) = trace s ++ write_bit_trace pin v.
Proof.
  unfold onewire_write_bit, write_bit_trace.
  destruct (negb (Z.land v 1 =? 0)); board_run;
    repeat rewrite <- app_assoc; reflexivity.
Qed.

Lemma onewire_read_bit_trace (pin : Z) (s : logged hw) :
  exists lvl, onewire_read_bit pin s
              = (Z.b2z lvl, snd (onewire_read_bit pin s))
    /\ trace (snd (onewire_read_bit pin s)) = trace s ++ read_bit_trace pin lvl.
Proof.
  unfold onewire_read_bit, read_bit_trace. board_run.
  eexists; split; [reflexivity|].
  repeat rewrite <- app_assoc; reflexivity.
Qed.

Lemma reset_wait_idle_trace (n : nat) (pin : Z) (s : logged hw) :
  let (idle, s') := reset_wait_idle n pin s in
  (idle = false /\
   trace s' = trace s ++ concat (repeat (poll_trace pin false) n))
  \/ (idle = true /\ exists k, (k < n)%nat /\
      trace s' = trace s ++ concat (repeat (poll_trace pin false) k)
                         ++ poll_trace pin true).
Proof.
  revert s; induction n as [|n IH]; intros s; cbn [reset_wait_idle].
  - left. cbn. rewrite app_nil_r. auto.
  - board_run. destruct a; cbn [negb].
    + right. split; [reflexivity|]. exists 0%nat. split; [lia|].
      cbn. repeat rewrite <- app_assoc. reflexivity.
    + match goal with |- context [reset_wait_idle n pin ?s1] =>
        specialize (IH s1); destruct (reset_wait_idle n pin s1) as [idle s'] end.
      cbn [trace] in IH.
      destruct IH as [[-> E]|[-> [k [Hk E]]]]; [left|right]; (split; [reflexivity|]).
      * rewrite E. cbn. repeat rewrite <- app_assoc. reflexivity.
      * exists (S k). split; [lia|]. rewrite E. cbn.
        repeat rewrite <- app_assoc. reflexivity.
Qed.

Lemma onewire_reset_trace (pin : Z) (s : logged hw) :
  let (r, s') := onewire_reset pin s in
  (exists k lvl, (k < 124)%nat /\ r = Z.b2z (negb lvl) /\
     trace s' = trace s ++ reset_setup_trace pin
                ++ concat (repeat (poll_trace pin false) k)
                ++ poll_trace pin true ++ reset_pulse_trace pin lvl)
  \/ (r = 0 /\
      trace s' = trace s ++ reset_setup_trace pin
                 ++ concat (repeat (poll_trace pin false) 124)).
Proof.
  unfold onewire_reset.
  change (Z.to_nat (u8 (125 - 1))) with 124%nat.
  unfold noInterrupts, interrupts.
  cbn [gpio_enable gpio_write gpio_read sdk_os_delay_us taskENTER_CRITICAL
       taskEXIT_CRITICAL logged_platform].
  unfold bind, emit, ret. cbn [inner trace].
  do 2 board_step.
  match goal with |- context [reset_wait_idle 124 pin ?s1] =>
    pose proof (reset_wait_idle_trace 124 pin s1) as W;
    destruct (reset_wait_idle 124 pin s1) as [idle s2] end.
  cbn [trace] in W.
  destruct W as [[-> E]|[-> [k [Hk E]]]]; cbn [negb]; cbv beta iota.
  - right. split; [reflexivity|]. rewrite E.
    unfold reset_setup_trace. repeat rewrite <- app_assoc. reflexivity.
  - repeat board_step. left. exists k. eexists. split; [exact Hk|].
    split; [reflexivity|].
    rewrite E. unfold reset_setup_trace, reset_pulse_trace, poll_trace.
    repeat rewrite <- app_assoc. reflexivity.
Qed.

End Traces.

Lemma delay_total_app (t1 t2 : list event) :
  delay_total (t1 ++ t2) = delay_total t1 + delay_total t2.
Proof.
  induction t1 as [|e t1 IH]; cbn [app delay_total]; [reflexivity|].
  destruct e; rewrite IH; lia.
Qed.

Lemma critical_calls_app (t1 t2 : list event) :
  critical_calls (t1 ++ t2) = critical_calls t1 ++ critical_calls t2.
Proof. apply filter_app. Qed.

Lemma critical_calls_polls (pin : Z) (k : nat) :
  critical_calls (concat (repeat (poll_trace pin false) k)) = [].
Proof. induction k; cbn in *; auto. Qed.

Lemma critical_depth_app (t1 t2 : list event) (d d1 : nat) :
  critical_depth d t1 = Some d1 ->
  critical_depth d (t1 ++ t2) = critical_depth d1 t2.
Proof.
  revert d; induction t1 as [|e t1 IH]; intros d; cbn [app critical_depth].
  - intros [= ->]. reflexivity.
  - destruct e; auto. destruct d; [discriminate|auto].
Qed.

Lemma critical_depth_polls (pin : Z) (k d : nat) :
  critical_depth d (concat (repeat (poll_trace pin false) k)) = Some d.
Proof. induction k; cbn in *; auto. Qed.

(** C3, as the code has it: the delays of one call of [onewire_write_bit] add
    up to 65 microseconds (10 low, 55 released) when bit 0 of the value is set
    and to 70 microseconds (65 low, 5 released) when it is clear, on every
    board and from every board state. *)
Theorem onewire_write_bit_slot_duration
  {hw : Type} `{Platform hw} (pin v : Z) (s : logged hw) :
  delay_total (trace (snd (onewire_write_bit pin v s)))
  = delay_total (trace s) + (if negb (Z.land v 1 =? 0) then 65 else 70).
Proof.
  rewrite onewire_write_bit_trace, delay_total_app. unfold write_bit_trace.
  destruct (negb (Z.land v 1 =? 0)); reflexivity.
Qed.

(** C3 as the specification words it does not hold: starting from an empty
    trace, writing a 1 spends 65 microseconds in delays and writing a 0
    spends 70. *)
Lemma onewire_write_bit_slot_not_constant :
  delay_total (trace (snd (onewire_write_bit 5 1 (Logged ([] : scripted) []))))
  <> delay_total (trace (snd (onewire_write_bit 5 0 (Logged ([] : scripted) [])))).
Proof. vm_compute. discriminate. Qed.

(** C5: on every board, [onewire_reset] either finds the line high within its
    idle wait and then runs the whole reset sequence, whose last call is the
    410 microsecond delay, returning 1 or 0 as the line was sampled low or
    high; or it has polled the line 124 times, 2 microseconds apart, read it
    low each time, and returns 0 having driven no reset pulse and waited no
    recovery delay. *)
Theorem onewire_reset_recovery_delay
  {hw : Type} `{Platform hw} (pin : Z) (s : logged hw) :
  let (r, s') := onewire_reset pin s in
  exists t, trace s' = trace s ++ reset_setup_trace pin ++ t /\
    ((exists k lvl, (k < 124)%nat /\ r = Z.b2z (negb lvl) /\
        t = concat (repeat (poll_trace pin false) k) ++ poll_trace pin true
            ++ [EvWrite pin false; EvDelay 480; EvEnterCritical; EvWrite pin true;
                EvDelay 70; EvRead pin lvl; EvExitCritical; EvDelay 410])
     \/ (r = 0 /\ t = concat (repeat (poll_trace pin false) 124) /\
         ~ In (EvDelay 410) t /\ ~ In (EvDelay 480) t /\ ~ In (EvWrite pin false) t)).
Proof.
  pose proof (onewire_reset_trace pin s) as R.
  destruct (onewire_reset pin s) as [r s'].
  destruct R as [(k & lvl & Hk & Hr & E)|[Hr E]].
  - eexists; split; [exact E|]. left. exists k, lvl. auto.
  - eexists; split; [exact E|]. right. repeat split; auto.
    all: intros Hin; apply in_concat in Hin; destruct Hin as (l & Hl & Hin);
      apply repeat_spec in Hl; subst l;
      cbn in Hin; intuition discriminate.
Qed.

(** C10: on every board and on every path, the critical-section calls that
    [onewire_write_bit] and [onewire_read_bit] make are one
    [taskENTER_CRITICAL] followed by one [taskEXIT_CRITICAL]; those of
    [onewire_reset] are the same pair, or none at all on its early return.  In
    each case the nesting depth at the return is the depth at the call. *)
Theorem critical_sections_paired
  {hw : Type} `{Platform hw} (pin v : Z) (s : logged hw) :
  (exists t, trace (snd (onewire_write_bit pin v s)) = trace s ++ t /\
     critical_calls t = [EvEnterCritical; EvExitCritical] /\
     forall d, critical_depth d t = Some d)
  /\ (exists t, trace (snd (onewire_read_bit pin s)) = trace s ++ t /\
     critical_calls t = [EvEnterCritical; EvExitCritical] /\
     forall d, critical_depth d t = Some d)
  /\ (exists t, trace (snd (onewire_reset pin s)) = trace s ++ t /\
     (critical_calls t = [EvEnterCritical; EvExitCritical]
      \/ fst (onewire_reset pin s) = 0 /\ critical_calls t = []) /\
     forall d, critical_depth d t = Some d).
Proof.
  split; [|split].
  - eexists; split; [apply onewire_write_bit_trace|].
    unfold write_bit_trace. destruct (negb (Z.land v 1 =? 0)); split; reflexivity.
  - destruct (onewire_read_bit_trace pin s) as (lvl & _ & E).
    eexists; split; [exact E|]. split; reflexivity.
  - pose proof (onewire_reset_trace pin s) as R.
    destruct (onewire_reset pin s) as [r s']. cbn [fst snd].
    destruct R as [(k & lvl & Hk & Hr & E)|[Hr E]];
      (eexists; split; [exact E|]); split.
    + left. rewrite !critical_calls_app, critical_calls_polls. reflexivity.
    + intros d. cbn [reset_setup_trace app critical_depth].
      rewrite (critical_depth_app _ _ d d) by apply critical_depth_polls.
      reflexivity.
    + right. split; [exact Hr|].
      rewrite critical_calls_app, critical_calls_polls. reflexivity.
    + intros d. cbn [reset_setup_trace app critical_depth].
      apply critical_depth_polls.
Qed.

(** ** Integrity codecs *)

Lemma in_bytes256 (b : Z) : is_byte b -> In b bytes256.
Proof.
  intros Hb. unfold bytes256. apply in_map_iff. exists (Z.to_nat b).
  split; [unfold is_byte in Hb; lia|]. apply in_seq. unfold is_byte in Hb. lia.
Qed.

Lemma crc8_agree_all :
  forallb (fun crc => forallb (crc8_agree_at crc) bytes256) bytes256 = true.
Proof. vm_compute. reflexivity. Qed.

Lemma crc8_step_agree (crc b : Z) :
  is_byte crc -> is_byte b ->
  Crc8Table.pgm_read_byte (Z.lxor crc b) = Crc8Bitwise.crc8_bits 8 crc b
  /\ is_byte (Crc8Table.pgm_read_byte (Z.lxor crc b)).
Proof.
  intros Hc Hb.
  pose proof crc8_agree_all as A.
  rewrite forallb_forall in A. specialize (A crc (in_bytes256 crc Hc)).
  rewrite forallb_forall in A. specialize (A b (in_bytes256 b Hb)).
  unfold crc8_agree_at in A.
  apply andb_prop in A; destruct A as [A A3].
  apply andb_prop in A; destruct A as [A1 A2].
  unfold is_byte. split; lia.
Qed.

Lemma crc8_loop_agree (len : nat) (addr : list Z) (crc : Z) :
  Forall is_byte addr -> is_byte crc ->
  Crc8Table.crc8_loop len addr crc = Crc8Bitwise.crc8_loop len addr crc.
Proof.
  revert addr crc; induction len as [|len IH]; intros addr crc Ha Hc;
    [reflexivity|].
  cbn [Crc8Table.crc8_loop Crc8Bitwise.crc8_loop].
  destruct addr as [|b addr]; [reflexivity|].
  inversion Ha as [|? ? Hb Ha']; subst.
  destruct (crc8_step_agree crc b Hc Hb) as [E R].
  rewrite <- E. apply IH; assumption.
Qed.

Lemma crc8_loop_total (len : nat) (addr : list Z) (crc : Z) :
  (len <= length addr)%nat -> exists c, Crc8Bitwise.crc8_loop len addr crc = Some c.
Proof.
  revert addr crc; induction len as [|len IH]; intros addr crc Hl; cbn.
  - eauto.
  - destruct addr as [|b addr]; cbn in Hl; [lia|]. apply IH. lia.
Qed.

(** C7: on every buffer of bytes and for every length, [onewire_crc8] built
    with the lookup table and [onewire_crc8] built with the bit loop return the
    same value; they have a value whenever the length stays within the buffer
    (and neither has one when it does not). *)
Theorem onewire_crc8_table_bitwise (addr : list Z) (len : Z) :
  Forall is_byte addr ->
  Crc8Table.onewire_crc8 addr len = Crc8Bitwise.onewire_crc8 addr len
  /\ (len <= Z.of_nat (length addr) ->
      exists crc, Crc8Bitwise.onewire_crc8 addr len = Some crc).
Proof.
  intros Ha. unfold Crc8Table.onewire_crc8, Crc8Bitwise.onewire_crc8. split.
  - apply crc8_loop_agree; [assumption|]. unfold is_byte. lia.
  - intros Hl. apply crc8_loop_total. lia.
Qed.

Lemma onewire_crc8_table_bitwise_witness :
  Forall is_byte [40; 255; 75; 70; 146; 22; 4] /\
  Crc8Table.onewire_crc8 [40; 255; 75; 70; 146; 22; 4] 7
  = Crc8Bitwise.onewire_crc8 [40; 255; 75; 70; 146; 22; 4] 7.
Proof.
  assert (Hb : Forall is_byte [40; 255; 75; 70; 146; 22; 4])
    by (repeat constructor; unfold is_byte; lia).
  split; [exact Hb|]. exact (proj1 (onewire_crc8_table_bitwise _ 7 Hb)).
Defined.

Lemma crc16_loop_total (n i : nat) (input : list Z) (crc : Z) :
  (i + n <= length input)%nat -> exists c, crc16_loop n i input crc = Some c.
Proof.
  revert i crc; induction n as [|n IH]; intros i crc Hl; cbn [crc16_loop].
  - eauto.
  - unfold load. destruct (nth_error input i) as [b|] eqn:E.
    + apply IH. lia.
    + apply nth_error_None in E. lia.
Qed.

(** C6: for every buffer, every length within it and every seed,
    [onewire_crc16] has a value [c], and [onewire_check_crc16] answers true on
    the two bytes of the inverted [c], low byte first; on any two received
    bytes it answers true only if the first is that low byte and the second
    that high byte. *)
Theorem onewire_check_crc16_inverted (input : list Z) (len seed : Z) :
  0 <= len <= Z.of_nat (length input) ->
  exists c, onewire_crc16 input len seed = Some c /\
    let inv := u16 (Z.lnot c) in
    onewire_check_crc16 input len [Z.land inv 255; Z.shiftr inv 8] seed = Some true
    /\ forall inverted_crc,
         onewire_check_crc16 input len inverted_crc seed = Some true ->
         load inverted_crc 0 = Some (Z.land inv 255)
         /\ load inverted_crc 1 = Some (Z.shiftr inv 8).
Proof.
  intros Hl.
  destruct (crc16_loop_total (Z.to_nat len) 0 input seed) as [c Hc]; [lia|].
  exists c. split; [exact Hc|]. cbv zeta. split.
  - unfold onewire_check_crc16. unfold onewire_crc16. rewrite Hc.
    cbn [load nth_error]. rewrite !Z.eqb_refl. reflexivity.
  - intros rx. unfold onewire_check_crc16, onewire_crc16. rewrite Hc.
    destruct (load rx 0) as [b0|]; [|discriminate].
    destruct (Z.eqb_spec (Z.land (u16 (Z.lnot c)) 255) b0) as [E0|]; [|discriminate].
    destruct (load rx 1) as [b1|]; [|discriminate].
    destruct (Z.eqb_spec (Z.shiftr (u16 (Z.lnot c)) 8) b1) as [E1|]; [|discriminate].
    intros _. subst. auto.
Qed.

Lemma onewire_check_crc16_inverted_witness :
  0 <= 3 <= Z.of_nat (length [240; 136; 0]) /\
  exists c, onewire_crc16 [240; 136; 0] 3 0 = Some c /\
    let inv := u16 (Z.lnot c) in
    onewire_check_crc16 [240; 136; 0] 3 [Z.land inv 255; Z.shiftr inv 8] 0 = Some true
    /\ forall inverted_crc,
         onewire_check_crc16 [240; 136; 0] 3 inverted_crc 0 = Some true ->
         load inverted_crc 0 = Some (Z.land inv 255)
         /\ load inverted_crc 1 = Some (Z.shiftr inv 8).
Proof.
  assert (Hl : 0 <= 3 <= Z.of_nat (length [240; 136; 0])) by (cbn; lia).
  split; [exact Hl|]. exact (onewire_check_crc16_inverted [240; 136; 0] 3 0 Hl).
Defined.

(** ** The search step on any board *)

(** The [for] loops over [bitMask] run eight times, however much fuel they
    are given. *)
Lemma bit_masks_enough (extra : nat) :
  bit_masks (9 + extra) 1 = [1; 2; 4; 8; 16; 32; 64; 128].
Proof. reflexivity. Qed.

Lemma list_set_length (a : list Z) (i : nat) (v : Z) :
  length (list_set a i v) = length a.
Proof.
  revert i; induction a as [|x a IH]; intros [|i]; cbn; auto.
Qed.

Lemma list_set_Forall (P : Z -> Prop) (a : list Z) (i : nat) (v : Z) :
  Forall P a -> P v -> Forall P (list_set a i v).
Proof.
  intros Ha Hv. revert i; induction Ha as [|x a Hx Ha IH]; intros [|i]; cbn;
    constructor; auto.
Qed.

Lemma u8_is_byte (x : Z) : is_byte (u8 x).
Proof. unfold is_byte, u8. apply Z.mod_pos_bound. lia. Qed.

Lemma counters_advance (k : nat) :
  (k < 64)%nat ->
  u8 (Z.of_nat k + 1 + 1) = Z.of_nat (S k) + 1
  /\ (let m := u8 (Z.shiftl (2 ^ (Z.of_nat k mod 8)) 1) in
      if m =? 0 then (Z.of_nat k / 8 + 1, 1) else (Z.of_nat k / 8, m))
     = (Z.of_nat (S k) / 8, 2 ^ (Z.of_nat (S k) mod 8))
  /\ (Z.of_nat (S k) / 8 <? 8) = (S k <? 64)%nat.
Proof.
  intros Hk.
  do 64 (destruct k as [|k]; [vm_compute; auto|]). lia.
Qed.

Section SearchStep.
Context {hw : Type} `{Platform hw}.
Variable ONEWIRE_NONE : Z.

(** What one pass through the loop body does to the locals and to the search
    state, whatever the board answers. *)
Lemma search_step_spec (pin : Z) (k : nat) (l : search_locals)
  (search : onewire_search_t) (h : hw) :
  (k < 64)%nat -> counters_at k l ->
  exists brk l' search' h',
    search_step pin l search h = (brk, l', search', h')
    /\ last_discrepancy search' = last_discrepancy search
    /\ last_device_found search' = last_device_found search
    /\ (Forall is_byte (rom_no search) -> Forall is_byte (rom_no search'))
    /\ length (rom_no search') = length (rom_no search)
    /\ (last_zero l' = last_zero l \/ last_zero l' = Z.of_nat k + 1)
    /\ (brk = true ->
        l' = l /\ search' = search
        /\ fst (onewire_read_bit pin h) = 1
        /\ fst (onewire_read_bit pin (snd (onewire_read_bit pin h))) = 1)
    /\ (brk = false ->
        counters_at (S k) l'
        /\ (rom_byte_number l' <? 8) = (S k <? 64)%nat).
Proof.
  intros Hk (Hid & Hrbn & Hmask).
  unfold search_step, bind.
  destruct (onewire_read_bit pin h) as [id_bit h1]; cbn [fst snd].
  destruct (onewire_read_bit pin h1) as [cmp_id_bit h2]; cbn [fst snd].
  destruct ((id_bit =? 1) && (cmp_id_bit =? 1)) eqn:Hbrk.
  - apply andb_prop in Hbrk. destruct Hbrk as [H1 H2].
    apply Z.eqb_eq in H1, H2.
    unfold ret. do 4 eexists. split; [reflexivity|].
    repeat split; auto; discriminate.
  - destruct (if negb (id_bit =? cmp_id_bit) then _ else _) as [sd lz] eqn:Hdir.
    destruct (onewire_write_bit pin sd h2) as [[] h3] eqn:Hw.
    destruct (counters_advance k Hk) as (A1 & A2 & A3).
    rewrite Hid, Hrbn, Hmask. cbv zeta in A2.
    destruct (u8 (Z.shiftl (2 ^ (Z.of_nat k mod 8)) 1) =? 0) eqn:Hm;
      unfold ret; (do 4 eexists; split; [reflexivity|]);
      cbn [last_zero id_bit_number rom_byte_number rom_byte_mask];
      apply pair_equal_spec in A2; destruct A2 as [A2 A2'].
    all: assert (Hlz : lz = last_zero l \/ lz = Z.of_nat k + 1)
      by (destruct (negb (id_bit =? cmp_id_bit));
          [injection Hdir as <- <-; auto|];
          injection Hdir as <- <-; rewrite Hid;
          match goal with |- context [if ?c then _ else _] => destruct c end; auto).
    all: destruct (sd =? 1); cbn [rom_no last_discrepancy last_device_found set_rom_no].
    all: repeat split; auto; try discriminate;
      try (intros Hb; apply list_set_Forall; [exact Hb|apply u8_is_byte]);
      try apply list_set_length.
    all: rewrite A2; exact A3.
Qed.

Lemma search_loop_spec (pin : Z) (fuel k : nat) (l : search_locals)
  (search : onewire_search_t) (h : hw) :
  (k < 64)%nat -> (64 - k <= fuel)%nat -> counters_at k l ->
  0 <= last_zero l <= 64 ->
  exists brk l' search' h',
    search_loop fuel pin l search h = Some (brk, l', search', h')
    /\ last_discrepancy search' = last_discrepancy search
    /\ last_device_found search' = last_device_found search
    /\ (Forall is_byte (rom_no search) -> Forall is_byte (rom_no search'))
    /\ length (rom_no search') = length (rom_no search)
    /\ 0 <= last_zero l' <= 64
    /\ (brk = true -> id_bit_number l' < 65)
    /\ (brk = false -> id_bit_number l' = 65).
Proof.
  revert k l search h; induction fuel as [|fuel IH]; intros k l search h Hk Hf Hc Hz;
    [lia|].
  cbn [search_loop].
  destruct (search_step_spec pin k l search h Hk Hc)
    as (brk & l1 & s1 & h1 & E & Hld & Hldf & Hby & Hlen & Hlz & Hbrk & Hcont).
  rewrite E. destruct brk.
  - destruct (Hbrk eq_refl) as (-> & -> & _).
    do 4 eexists. split; [reflexivity|].
    destruct Hc as (Hid & _). repeat split; auto; try lia; discriminate.
  - destruct (Hcont eq_refl) as (Hc1 & Hlt). rewrite Hlt.
    assert (Hz1 : 0 <= last_zero l1 <= 64) by lia.
    destruct (S k <? 64)%nat eqn:Hk1.
    + apply Nat.ltb_lt in Hk1.
      destruct (IH (S k) l1 s1 h1 Hk1 ltac:(lia) Hc1 Hz1)
        as (brk & l2 & s2 & h2 & E2 & Hld2 & Hldf2 & Hby2 & Hlen2 & Hz2 & Hb2 & Hc2).
      exists brk, l2, s2, h2. split; [exact E2|].
      repeat split; auto; try congruence; lia.
    + apply Nat.ltb_ge in Hk1.
      do 4 eexists. split; [reflexivity|].
      destruct Hc1 as (Hid1 & _).
      repeat split; auto; try lia; discriminate.
Qed.

(** More fuel than the loop needs changes nothing. *)
Lemma search_loop_more_fuel (pin : Z) (fuel extra : nat) (l : search_locals)
  (search : onewire_search_t) (h : hw) r :
  search_loop fuel pin l search h = Some r ->
  search_loop (fuel + extra) pin l search h = Some r.
Proof.
  revert l search h; induction fuel as [|fuel IH]; intros l search h; [discriminate|].
  cbn [search_loop Nat.add].
  destruct (search_step pin l search h) as [[[brk l1] s1] h1].
  destruct brk; [auto|]. destruct (rom_byte_number l1 <? 8); auto.
Qed.

Lemma search_walk_spec (pin : Z) (search : onewire_search_t) (h : hw) :
  exists brk l' search' h',
    search_walk pin search h = Some (brk, l', search', h')
    /\ last_discrepancy search' = last_discrepancy search
    /\ last_device_found search' = last_device_found search
    /\ (Forall is_byte (rom_no search) -> Forall is_byte (rom_no search'))
    /\ length (rom_no search') = length (rom_no search)
    /\ 0 <= last_zero l' <= 64
    /\ (brk = true -> id_bit_number l' < 65)
    /\ (brk = false -> id_bit_number l' = 65).
Proof.
  unfold search_walk.
  destruct (search_loop_spec pin 64 0 (Locals 1 0 0 1) search h)
    as (brk & l' & s' & h' & E & ? & ? & ? & ? & ? & ? & ?);
    try lia.
  - unfold counters_at. cbn. auto.
  - cbn. lia.
  - exists brk, l', s', h'. repeat split; auto; lia.
Qed.

(** What [onewire_search_next] returns, in terms of its parts. *)
Lemma onewire_search_next_exhausted (search : onewire_search_t) (pin : Z) (h : hw) :
  last_device_found search = true ->
  onewire_search_next ONEWIRE_NONE search pin h
  = Some (ONEWIRE_NONE, Search (rom_no search) 0 false, h).
Proof.
  intros Hf. unfold onewire_search_next. rewrite Hf. reflexivity.
Qed.

Lemma onewire_search_next_no_presence (search : onewire_search_t) (pin : Z) (h h1 : hw) :
  last_device_found search = false ->
  onewire_reset pin h = (0, h1) ->
  onewire_search_next ONEWIRE_NONE search pin h
  = Some (ONEWIRE_NONE, Search (rom_no search) 0 false, h1).
Proof.
  intros Hf Hr. unfold onewire_search_next. rewrite Hf, Hr. reflexivity.
Qed.

Lemma onewire_search_next_walk (search : onewire_search_t) (pin r : Z)
  (h h1 h2 h3 : hw) (brk : bool) (l : search_locals) (search' : onewire_search_t) :
  last_device_found search = false ->
  onewire_reset pin h = (r, h1) -> r <> 0 ->
  onewire_write pin 240 h1 = (tt, h2) ->
  search_walk pin search h2 = Some (brk, l, search', h3) ->
  onewire_search_next ONEWIRE_NONE search pin h
  = Some
      (if brk || (aget (rom_no search') 0 =? 0)
       then (ONEWIRE_NONE, Search (rom_no search') 0 false, h3)
       else
         let s1 := Search (rom_no search') (last_zero l) (last_zero l =? 0) in
         (search_addr s1, s1,
          snd (printf (u32 (Z.shiftr (search_addr s1) 32)) (u32 (search_addr s1)) h3))).
Proof.
  intros Hf Hr Hr0 Hw Hwalk.
  destruct (search_walk_spec pin search h2)
    as (brk' & l' & s' & h' & E & Hld & Hldf & _ & _ & _ & Hb & Hc).
  rewrite Hwalk in E. injection E as <- <- <- <-.
  unfold onewire_search_next. rewrite Hf, Hr. cbn [negb].
  apply Z.eqb_neq in Hr0. rewrite Hr0, Hw, Hwalk.
  destruct brk.
  - specialize (Hb eq_refl). apply Z.ltb_lt in Hb. rewrite Hb. cbn [negb orb].
    unfold search_finish. cbn [Z.eqb orb]. reflexivity.
  - specialize (Hc eq_refl). rewrite Hc. cbn [Z.ltb Z.compare Pos.compare
      Pos.compare_cont negb orb].
    unfold search_finish, set_last_discrepancy, set_last_device_found.
    cbn [Z.eqb orb last_discrepancy].
    rewrite Hldf, Hf.
    destruct (last_zero l =? 0) eqn:Hlz;
      cbn [rom_no last_discrepancy last_device_found];
      destruct (aget (rom_no search') 0 =? 0) eqn:Hfam; try reflexivity;
      unfold bind, ret;
      match goal with |- context [printf ?a ?b ?c] =>
        destruct (printf a b c) as [[] h4] end; reflexivity.
Qed.

Lemma aget_is_byte (a : list Z) (i : Z) : Forall is_byte a -> is_byte (aget a i).
Proof.
  intros Ha. unfold aget. generalize (Z.to_nat i) as n.
  induction Ha as [|x a Hx Ha IH]; intros [|n]; cbn; auto; unfold is_byte; lia.
Qed.

Lemma search_addr_family (search : onewire_search_t) :
  is_byte (aget (rom_no search) 0) ->
  Z.land (search_addr search) 255 = aget (rom_no search) 0.
Proof.
  intros Hb. unfold search_addr. cbn [fold_left].
  match goal with |- Z.land (Z.lor (u64 (Z.shiftl ?x 8)) _) _ = _ => generalize x end.
  intros x. unfold is_byte in Hb.
  apply Z.bits_inj'. intros n Hn.
  rewrite Z.land_spec, Z.lor_spec. unfold u64.
  destruct (Z.lt_ge_cases n 8) as [Hlt|Hge].
  - rewrite Z.mod_pow2_bits_low by lia. rewrite Z.shiftl_spec_low by lia.
    cbn [orb]. replace (Z.testbit 255 n) with true; [apply andb_true_r|].
    assert (n = 0 \/ n = 1 \/ n = 2 \/ n = 3 \/ n = 4 \/ n = 5 \/ n = 6 \/ n = 7)
      as Hc by lia.
    repeat destruct Hc as [->|Hc]; try subst n; reflexivity.
  - replace (Z.testbit 255 n) with false.
    + rewrite andb_false_r. symmetry. apply Z.bits_above_log2; [lia|].
      destruct (Z.eq_dec (aget (rom_no search) 0) 0) as [->|Hnz]; [cbn; lia|].
      apply Z.log2_lt_pow2; [lia|]. apply Z.lt_le_trans with (2 ^ 8); [lia|].
      apply Z.pow_le_mono_r; lia.
    + symmetry. apply Z.bits_above_log2; [lia|]. cbn. lia.
Qed.

(** Every call of [onewire_search_next] returns, and it returns in one of two
    ways. *)
Lemma onewire_search_next_cases (search : onewire_search_t) (pin : Z) (h : hw) :
  exists r search' h',
    onewire_search_next ONEWIRE_NONE search pin h = Some (r, search', h')
    /\ (Forall is_byte (rom_no search) -> Forall is_byte (rom_no search'))
    /\ length (rom_no search') = length (rom_no search)
    /\ ((r = ONEWIRE_NONE /\ last_discrepancy search' = 0
         /\ last_device_found search' = false)
        \/ (r = search_addr search' /\ aget (rom_no search') 0 <> 0
            /\ 1 <= last_discrepancy search' + 1 <= 65
            /\ last_device_found search' = (last_discrepancy search' =? 0))).
Proof.
  destruct (last_device_found search) eqn:Hf.
  - rewrite (onewire_search_next_exhausted search pin h Hf).
    do 3 eexists. split; [reflexivity|]. cbn [rom_no].
      split; [auto|]. split; [auto|]. left. auto.
  - destruct (onewire_reset pin h) as [r h1] eqn:Hr.
    destruct (Z.eq_dec r 0) as [->|Hr0].
    + rewrite (onewire_search_next_no_presence search pin h h1 Hf Hr).
      do 3 eexists. split; [reflexivity|]. cbn [rom_no].
      split; [auto|]. split; [auto|]. left. auto.
    + destruct (onewire_write pin 240 h1) as [[] h2] eqn:Hw.
      destruct (search_walk_spec pin search h2)
        as (brk & l & s' & h3 & E & Hld & Hldf & Hby & Hlen & Hz & _ & _).
      rewrite (onewire_search_next_walk search pin r h h1 h2 h3 brk l s' Hf Hr Hr0 Hw E).
      destruct (brk || (aget (rom_no s') 0 =? 0)) eqn:Hc.
      * do 3 eexists. split; [reflexivity|]. cbn [rom_no].
      split; [auto|]. split; [auto|]. left. auto.
      * apply orb_false_elim in Hc. destruct Hc as [_ Hfam].
        apply Z.eqb_neq in Hfam. cbv zeta.
        do 3 eexists. split; [reflexivity|].
        cbn [rom_no last_discrepancy last_device_found].
        split; [exact Hby|]. split; [exact Hlen|]. right.
        repeat split; auto; lia.
Qed.

Lemma run_op_spec (op : search_op) (search : onewire_search_t) (h : hw) :
  exists search' h',
    run_op ONEWIRE_NONE op search h = Some (search', h')
    /\ 0 <= last_discrepancy search' <= 64.
Proof.
  destruct op as [|family_code|pin]; cbn [run_op].
  - do 2 eexists. split; [reflexivity|]. cbn. lia.
  - do 2 eexists. split; [reflexivity|]. cbn. lia.
  - destruct (onewire_search_next_cases search pin h)
      as (r & s' & h' & E & _ & _ & [(_ & Hld & _)|(_ & _ & Hld & _)]);
      rewrite E; do 2 eexists; (split; [reflexivity|]); lia.
Qed.

Lemma run_ops_app (ops1 ops2 : list search_op) (search : onewire_search_t) (h : hw) :
  run_ops ONEWIRE_NONE (ops1 ++ ops2) search h
  = match run_ops ONEWIRE_NONE ops1 search h with
    | Some (search', h') => run_ops ONEWIRE_NONE ops2 search' h'
    | None => None
    end.
Proof.
  revert search h; induction ops1 as [|op ops1 IH]; intros search h;
    cbn [app run_ops]; [reflexivity|].
  destruct (run_op ONEWIRE_NONE op search h) as [[s' h']|]; auto.
Qed.

Lemma run_ops_total (ops : list search_op) (search : onewire_search_t) (h : hw) :
  exists search' h', run_ops ONEWIRE_NONE ops search h = Some (search', h').
Proof.
  revert search h; induction ops as [|op ops IH]; intros search h; cbn [run_ops].
  - eauto.
  - destruct (run_op_spec op search h) as (s' & h' & E & _). rewrite E. apply IH.
Qed.

End SearchStep.

(** C4, as the code has it: when the bit walk ends in [break] (the two bits
    just read were both 1), the walk itself has not touched
    [last_discrepancy], and [onewire_search_next] then returns [ONEWIRE_NONE]
    with [last_discrepancy] set to 0 and [last_device_found] to false. *)
Theorem search_next_aborted_walk
  {hw : Type} `{Platform hw} (ONEWIRE_NONE : Z)
  (search : onewire_search_t) (pin r : Z) (h h1 h2 h3 : hw)
  (l : search_locals) (search' : onewire_search_t) :
  last_device_found search = false ->
  onewire_reset pin h = (r, h1) -> r <> 0 ->
  onewire_write pin 240 h1 = (tt, h2) ->
  search_walk pin search h2 = Some (true, l, search', h3) ->
  last_discrepancy search' = last_discrepancy search
  /\ onewire_search_next ONEWIRE_NONE search pin h
     = Some (ONEWIRE_NONE, Search (rom_no search') 0 false, h3).
Proof.
  intros Hf Hr Hr0 Hw Hwalk. split.
  - destruct (search_walk_spec pin search h2)
      as (brk' & l' & s' & h' & E & Hld & _).
    rewrite Hwalk in E. injection E as <- <- <- <-. exact Hld.
  - rewrite (onewire_search_next_walk ONEWIRE_NONE search pin r h h1 h2 h3 true l search'
               Hf Hr Hr0 Hw Hwalk).
    reflexivity.
Qed.

Lemma search_next_aborted_walk_witness :
  let search := onewire_search_prefix onewire_search_start 40 in
  let h : scripted := [true; false] in
  last_discrepancy search = 64 /\
  onewire_search_next none_value search 5 h
  = Some (none_value, Search [40; 0; 0; 0; 0; 0; 0; 0] 0 false, []).
Proof.
  cbv zeta. split; [reflexivity|].
  refine (proj2 (search_next_aborted_walk none_value
                   (onewire_search_prefix onewire_search_start 40) 5 1
                   [true; false] [] [] [] (Locals 1 0 0 1)
                   (Search [40; 0; 0; 0; 0; 0; 0; 0] 64 false)
                   eq_refl eq_refl _ eq_refl eq_refl)).
  discriminate.
Defined.

(** C4 as the specification words it does not hold: after
    [onewire_search_prefix] the state has [last_discrepancy] 64; on a line
    that answers the reset with a presence pulse and then reads high, the walk
    breaks at its first pass and the call leaves [last_discrepancy] at 0, not
    64. *)
Lemma search_next_abort_resets_discrepancy :
  let search := onewire_search_prefix onewire_search_start 40 in
  let h : scripted := [true; false] in
  exists h2 l search1 h3 search' h',
    fst (onewire_reset 5 h) = 1
    /\ snd (onewire_write 5 240 (snd (onewire_reset 5 h))) = h2
    /\ search_walk 5 search h2 = Some (true, l, search1, h3)
    /\ onewire_search_next none_value search 5 h = Some (none_value, search', h')
    /\ last_discrepancy search = 64
    /\ last_discrepancy search' <> last_discrepancy search.
Proof.
  cbv zeta. do 6 eexists. split; [reflexivity|].
  split; [reflexivity|]. split; [vm_compute; reflexivity|].
  split; [vm_compute; reflexivity|]. split; [reflexivity|].
  cbn. discriminate.
Qed.

(** C9: after any sequence of calls of [onewire_search_start],
    [onewire_search_prefix] and [onewire_search_next], on any board and from
    any state, every call returns and [last_discrepancy] is between 0 and 64
    once the last call of the sequence has returned (hence after each call,
    every prefix of a sequence being a sequence). *)
Theorem last_discrepancy_in_range
  {hw : Type} `{Platform hw} (ONEWIRE_NONE : Z)
  (ops : list search_op) (op : search_op) (search : onewire_search_t) (h : hw) :
  exists search' h',
    run_ops ONEWIRE_NONE (ops ++ [op]) search h = Some (search', h')
    /\ 0 <= last_discrepancy search' <= 64.
Proof.
  rewrite run_ops_app.
  destruct (run_ops_total ONEWIRE_NONE ops search h) as (s1 & h1 & E). rewrite E.
  cbn [run_ops].
  destruct (run_op_spec ONEWIRE_NONE op s1 h1) as (s2 & h2 & E2 & Hr). rewrite E2.
  eauto.
Qed.

(** ** Trying the search on simulated lines *)

Example search_two_devices :
  option_map (fun r => fst (fst r))
    (search_all none_value 4 onewire_search_start 5
       (attach typical_timing [1099511627816; 40; 16]))
  = Some [16; 40; 1099511627816; none_value].
Proof. vm_compute. reflexivity. Qed.

Example search_family_zero :
  option_map (fun r => fst (fst r))
    (search_all none_value 2 onewire_search_start 5
       (attach typical_timing [256]))
  = Some [none_value; none_value].
Proof. vm_compute. reflexivity. Qed.

(** Once the enumeration has ended in [ONEWIRE_NONE], the next call starts it
    again. *)
Example search_restarts :
  option_map (fun r => fst (fst r))
    (search_all none_value 5 onewire_search_start 5
       (attach typical_timing [40; 16]))
  = Some [16; 40; none_value; 16; 40].
Proof. vm_compute. reflexivity. Qed.

(** A slave with family code 0 hides the slaves that come after it in the
    order. *)
Example search_family_zero_hides :
  option_map (fun r => fst (fst r))
    (search_all none_value 3 onewire_search_start 5
       (attach typical_timing [3963167672086036736; 40]))
  = Some [none_value; none_value; none_value].
Proof. vm_compute. reflexivity. Qed.

(** ** The transport functions on a simulated line *)

(** One slave through one time slot: the master pulls the line low at [t]
    and releases it [dur] microseconds later. *)
Lemma slave_through_slot (t dur : Z) (d : slave) :
  slave_idle t d -> 0 <= dur < 480 ->
  let d' := on_rise (t + dur) (t + dur - t) (on_fall t d) in
  rom d' = rom d /\ timing d' = timing d
  /\ sstate d' = slot_state (rom d) (dur <? t_sample (timing d)) (sstate d)
  /\ slave_idle (t + 60) d'
  /\ (forall t', t <= t' < t + 15 ->
        holds_low t' d' = negb (out_bit (rom d) (sstate d))).
Proof.
  intros [Htm Hlow] Hdur. cbv zeta.
  replace (t + dur - t) with dur by lia.
  unfold on_rise. destruct (Z.leb_spec 480 dur) as [|_]; [lia|].
  unfold on_fall, slave_idle, holds_low.
  destruct (out_bit (rom d) (sstate d)) eqn:Hout;
    cbn [rom timing sstate low_from low_until negb];
    rewrite ?Hout; unfold timing_ok in *;
    repeat split; lia.
Qed.

(** One slave through a reset pulse released at [t]. *)
Lemma slave_through_reset (t dur t0 : Z) (d : slave) :
  timing_ok (timing d) -> 480 <= dur ->
  let d' := on_rise t dur (on_fall t0 d) in
  rom d' = rom d /\ timing d' = timing d /\ sstate d' = RomCommand 0 0
  /\ holds_low (t + 70) d' = true
  /\ slave_idle (t + 300) d'.
Proof.
  intros Htm Hdur. cbv zeta. unfold on_rise.
  destruct (Z.leb_spec 480 dur) as [_|]; [|lia].
  unfold on_fall, slave_idle, holds_low.
  destruct (out_bit (rom d) (sstate d));
    cbn [rom timing sstate low_from low_until]; unfold timing_ok in *;
    repeat split; try lia.
  all: apply andb_true_intro; split; [apply Z.leb_le|apply Z.ltb_lt]; lia.
Qed.

Lemma slave_idle_later (t t' : Z) (d : slave) :
  slave_idle t d -> t <= t' -> slave_idle t' d.
Proof. unfold slave_idle. intros [? ?] ?. split; [assumption|lia]. Qed.

Lemma idle_line_reads_high (t : Z) (ds : list slave) :
  Forall (slave_idle t) ds -> forall t', t <= t' ->
  forallb (fun d => negb (holds_low t' d)) ds = true.
Proof.
  intros Hds t' Ht'. apply forallb_forall. intros d Hd.
  rewrite Forall_forall in Hds. destruct (Hds d Hd) as [_ Hl].
  unfold holds_low. destruct (Z.ltb_spec t' (low_until d)); [lia|].
  rewrite andb_false_r. reflexivity.
Qed.

(** A whole time slot on the line. *)
Lemma line_through_slot (t dur : Z) (ds : list slave) :
  Forall (slave_idle t) ds -> 0 <= dur < 15 \/ 60 < dur < 480 ->
  let ds' := map (on_rise (t + dur) (t + dur - t)) (map (on_fall t) ds) in
  map (fun d => (rom d, sstate d)) ds'
  = map (view_slot (dur <? 15)) (map (fun d => (rom d, sstate d)) ds)
  /\ Forall (slave_idle (t + 60)) ds'
  /\ (forall t', t <= t' < t + 15 ->
        forallb (fun d => negb (holds_low t' d)) ds'
        = forallb view_out (map (fun d => (rom d, sstate d)) ds)).
Proof.
  intros Hds Hdur. cbv zeta.
  induction Hds as [|d ds Hd Hds IH]; cbn [map forallb].
  - repeat split; auto.
  - destruct IH as (IH1 & IH2 & IH3).
    destruct (slave_through_slot t dur d Hd ltac:(lia)) as (Hr & Htm & Hst & Hid & Hh).
    cbv zeta in Hr, Htm, Hst, Hid, Hh.
    assert (Hb : (dur <? t_sample (timing d)) = (dur <? 15)).
    { destruct Hd as [Ht _]. unfold timing_ok in Ht.
      destruct (Z.ltb_spec dur 15), (Z.ltb_spec dur (t_sample (timing d)));
        try reflexivity; lia. }
    repeat split.
    + rewrite IH1. f_equal. unfold view_slot. cbn [fst snd].
      rewrite Hr, Hst, Hb. reflexivity.
    + constructor; assumption.
    + intros t' Ht'. rewrite IH3 by assumption. rewrite Hh by assumption.
      unfold view_out at 2. cbn [fst snd]. rewrite negb_involutive. reflexivity.
Qed.

Ltac sim_run :=
  cbv beta iota zeta delta
    [bind ret noInterrupts interrupts gpio_enable gpio_write gpio_read
     sdk_os_delay_us taskENTER_CRITICAL taskEXIT_CRITICAL sim_platform sim_write
     sim_delay sim_read master_low now slaves fall_at];
  cbn [negb andb].

Lemma sim_write_bit (pin v : Z) (s : sim) :
  bus_idle s ->
  exists s',
    onewire_write_bit pin v s = (tt, s')
    /\ bus_idle s'
    /\ bus_view s' = map (view_slot (negb (Z.land v 1 =? 0))) (bus_view s).
Proof.
  intros [Hm Hds]. destruct s as [t ml fa ds]. cbn [master_low slaves now] in *.
  subst ml. unfold onewire_write_bit.
  destruct (negb (Z.land v 1 =? 0)); sim_run.
  - destruct (line_through_slot t 10 ds Hds ltac:(lia)) as (V & I & _).
    eexists. split; [reflexivity|]. split.
    + split; [reflexivity|]. cbn [slaves now].
      eapply Forall_impl; [|exact I]. intros d Hd.
      eapply slave_idle_later; [exact Hd|lia].
    + exact V.
  - destruct (line_through_slot t 65 ds Hds ltac:(lia)) as (V & I & _).
    eexists. split; [reflexivity|]. split.
    + split; [reflexivity|]. cbn [slaves now].
      eapply Forall_impl; [|exact I]. intros d Hd.
      eapply slave_idle_later; [exact Hd|lia].
    + exact V.
Qed.

Lemma sim_read_bit (pin : Z) (s : sim) :
  bus_idle s ->
  exists s',
    onewire_read_bit pin s = (Z.b2z (forallb view_out (bus_view s)), s')
    /\ bus_idle s'
    /\ bus_view s' = map (view_slot true) (bus_view s).
Proof.
  intros [Hm Hds]. destruct s as [t ml fa ds]. cbn [master_low slaves now] in *.
  subst ml. unfold onewire_read_bit. sim_run.
  destruct (line_through_slot t 3 ds Hds ltac:(lia)) as (V & I & R).
  eexists. split; [|split].
  - unfold bus_view. cbn [slaves]. rewrite <- (R (t + 3 + 10)) by lia.
    reflexivity.
  - split; [reflexivity|]. cbn [slaves now].
    eapply Forall_impl; [|exact I]. intros d Hd.
    eapply slave_idle_later; [exact Hd|lia].
  - exact V.
Qed.

(** A reset pulse on the line, released at [t]. *)
Lemma line_through_reset (t dur t0 : Z) (ds : list slave) :
  Forall (fun d => timing_ok (timing d)) ds -> 480 <= dur ->
  let ds' := map (on_rise t dur) (map (on_fall t0) ds) in
  map (fun d => (rom d, sstate d)) ds'
  = map view_reset (map (fun d => (rom d, sstate d)) ds)
  /\ Forall (slave_idle (t + 300)) ds'
  /\ forallb (fun d => negb (holds_low (t + 70) d)) ds'
     = match ds with [] => true | _ => false end.
Proof.
  intros Hds Hdur. cbv zeta.
  induction Hds as [|d ds Hd Hds IH]; cbn [map forallb].
  - repeat split; auto.
  - destruct IH as (IH1 & IH2 & _).
    destruct (slave_through_reset t dur t0 d Hd Hdur) as (Hr & Htm & Hst & Hh & Hid).
    cbv zeta in Hr, Hst, Hh, Hid.
    repeat split.
    + rewrite IH1. f_equal. unfold view_reset. cbn [fst]. rewrite Hr, Hst. reflexivity.
    + constructor; assumption.
    + rewrite Hh. reflexivity.
Qed.

Lemma sim_reset (pin : Z) (s : sim) :
  bus_idle s ->
  exists s',
    onewire_reset pin s = (match slaves s with [] => 0 | _ => 1 end, s')
    /\ bus_idle s'
    /\ bus_view s' = map view_reset (bus_view s).
Proof.
  intros [Hm Hds]. destruct s as [t ml fa ds]. cbn [master_low slaves now] in *.
  subst ml. unfold onewire_reset.
  change (Z.to_nat (u8 (125 - 1))) with (S 123). cbn [reset_wait_idle]. sim_run.
  rewrite (idle_line_reads_high t ds Hds (t + 2)) by lia. cbn [negb]. sim_run.
  assert (Htm : Forall (fun d => timing_ok (timing d)) ds)
    by (eapply Forall_impl; [|exact Hds]; intros d [? _]; assumption).
  destruct (line_through_reset (t + 2 + 480) (t + 2 + 480 - (t + 2)) (t + 2) ds Htm
              ltac:(lia)) as (V & I & R).
  rewrite R. eexists. split; [|split].
  - destruct ds; reflexivity.
  - split; [reflexivity|]. cbn [slaves now].
    eapply Forall_impl; [|exact I]. intros d Hd.
    eapply slave_idle_later; [exact Hd|lia].
  - exact V.
Qed.

(** ** The order of the search, on lists of bits *)

Lemma in_zeros (A : list (list bool)) (t : list bool) :
  In t (zeros A) <-> In (false :: t) A.
Proof.
  unfold zeros. rewrite in_flat_map. split.
  - intros (a & Ha & Ht). destruct a as [|[] a']; cbn in Ht; try contradiction.
    destruct Ht as [->|[]]. exact Ha.
  - intros Ha. exists (false :: t). split; [exact Ha|]. cbn. auto.
Qed.

Lemma in_ones (A : list (list bool)) (t : list bool) :
  In t (ones A) <-> In (true :: t) A.
Proof.
  unfold ones. rewrite in_flat_map. split.
  - intros (a & Ha & Ht). destruct a as [|[] a']; cbn in Ht; try contradiction.
    destruct Ht as [->|[]]. exact Ha.
  - intros Ha. exists (true :: t). split; [exact Ha|]. cbn. auto.
Qed.

Lemma all_len_zeros (n : nat) (A : list (list bool)) :
  all_len (S n) A -> all_len n (zeros A).
Proof.
  unfold all_len. rewrite !Forall_forall. intros HA t Ht.
  apply in_zeros in Ht. specialize (HA _ Ht). cbn in HA. lia.
Qed.

Lemma all_len_ones (n : nat) (A : list (list bool)) :
  all_len (S n) A -> all_len n (ones A).
Proof.
  unfold all_len. rewrite !Forall_forall. intros HA t Ht.
  apply in_ones in Ht. specialize (HA _ Ht). cbn in HA. lia.
Qed.

Lemma nonempty_false {X : Type} (l : list X) : nonempty l = false <-> l = [].
Proof. destruct l; cbn; split; congruence. Qed.

Lemma nonempty_true {X : Type} (l : list X) : nonempty l = true <-> l <> [].
Proof. destruct l; cbn; split; congruence. Qed.

Lemma zeros_or_ones (n : nat) (A : list (list bool)) :
  all_len (S n) A -> A <> [] -> zeros A <> [] \/ ones A <> [].
Proof.
  intros HA Hne. destruct A as [|a A]; [congruence|].
  inversion HA as [|? ? Ha _]; subst.
  destruct a as [|[] a]; [discriminate| |]; cbn; [right|left]; discriminate.
Qed.

Lemma enum_nil (n : nat) : enum n [] = [].
Proof. destruct n; reflexivity. Qed.

Lemma enum_S (n : nat) (A : list (list bool)) :
  enum (S n) A
  = map (cons false) (enum n (zeros A)) ++ map (cons true) (enum n (ones A)).
Proof.
  destruct A; [|reflexivity].
  change (zeros []) with (@nil (list bool)). change (ones []) with (@nil (list bool)).
  rewrite !enum_nil. reflexivity.
Qed.

Lemma enum_nonempty (n : nat) (A : list (list bool)) :
  all_len n A -> A <> [] -> enum n A <> [].
Proof.
  revert A; induction n as [|n IH]; intros A HA Hne.
  - destruct A; [congruence|]. cbn. discriminate.
  - rewrite enum_S. destruct (zeros_or_ones n A HA Hne) as [H0|H1].
    + specialize (IH _ (all_len_zeros n A HA) H0).
      destruct (enum n (zeros A)); [congruence|]. discriminate.
    + specialize (IH _ (all_len_ones n A HA) H1).
      destruct (enum n (ones A)); [congruence|].
      intros E. apply app_eq_nil in E. destruct E as [_ E]. discriminate.
Qed.

(** A first walk, or the part of a walk beyond [last_discrepancy], takes the
    first address in the order. *)
Lemma awalk_fresh (n : nat) (j ld : Z) (prev : list bool) (A : list (list bool))
  (lz : Z) :
  ld < j -> all_len n A -> A <> [] ->
  exists p rest, enum n A = p :: rest /\ awalk n j ld prev A lz = (p, lzp n j A p lz).
Proof.
  revert j prev A lz; induction n as [|n IH]; intros j prev A lz Hld HA Hne.
  - destruct A; [congruence|]. exists [], []. split; reflexivity.
  - rewrite enum_S. cbn [awalk]. unfold walk_dir, walk_lz.
    pose proof (all_len_zeros n A HA) as HA0.
    pose proof (all_len_ones n A HA) as HA1.
    destruct (Z.ltb_spec j ld) as [|_]; [lia|].
    destruct (Z.eqb_spec j ld) as [|_]; [lia|].
    destruct (nonempty (zeros A)) eqn:N0.
    + apply nonempty_true in N0.
      replace (if nonempty (ones A) then false else false) with false
        by (destruct (nonempty (ones A)); reflexivity).
      cbn [negb andb]. rewrite andb_true_r.
      destruct (IH (j + 1) (tl prev) (zeros A)
                  (if nonempty (ones A) then j else lz) ltac:(lia) HA0 N0)
        as (p & rest & E & W).
      rewrite W, E. cbn [map app].
      eexists. eexists. split; [reflexivity|].
      cbn [lzp negb andb]. rewrite andb_true_r.
      apply nonempty_true in N0. rewrite N0. reflexivity.
    + pose proof N0 as N0'. apply nonempty_false in N0'.
      destruct (zeros_or_ones n A HA Hne) as [|N1]; [congruence|].
      cbn [andb].
      destruct (IH (j + 1) (tl prev) (ones A) lz ltac:(lia) HA1 N1)
        as (p & rest & E & W).
      rewrite W, E, N0', enum_nil. cbn [map app].
      eexists. eexists. split; [reflexivity|].
      cbn [lzp]. rewrite N0'. reflexivity.
Qed.

Lemma app_last_inv {X : Type} (l1 l2 l : list X) (p : X) :
  l1 ++ l2 = l ++ [p] -> l2 <> [] -> exists l', l2 = l' ++ [p] /\ l = l1 ++ l'.
Proof.
  intros E Hne. destruct (exists_last Hne) as (l' & y & ->).
  rewrite app_assoc in E. apply app_inj_tail in E. destruct E as [<- <-].
  exists l'. auto.
Qed.

Lemma map_cons_last_inv (b : bool) (E : list (list bool)) (l : list (list bool))
  (p : list bool) :
  map (cons b) E = l ++ [p] ->
  exists E' p', E = E' ++ [p'] /\ p = b :: p'.
Proof.
  intros H. apply map_eq_app in H. destruct H as (E1 & E2 & -> & _ & H2).
  destruct E2 as [|p' [|? ?]]; try discriminate.
  injection H2 as <-. exists E1, p'. auto.
Qed.

Lemma app_split2 {X : Type} (l1 l2 a b : list X) (p q : X) :
  l1 ++ l2 = a ++ p :: q :: b ->
  (exists b', l1 = a ++ p :: q :: b')
  \/ (l1 = a ++ [p] /\ l2 = q :: b)
  \/ (exists a', l2 = a' ++ p :: q :: b).
Proof.
  revert a; induction l1 as [|x l1 IH]; intros a E.
  - right. right. exists a. exact E.
  - destruct a as [|y a]; cbn in E.
    + injection E as -> E. destruct l1 as [|x' l1]; cbn in E.
      * right. left. auto.
      * injection E as -> E. left. exists l1. reflexivity.
    + injection E as -> E. destruct (IH a E) as [[b' ->]|[[-> ->]|[a' ->]]].
      * left. exists b'. reflexivity.
      * right. left. auto.
      * right. right. exists a'. reflexivity.
Qed.

Lemma map_cons_split2 (c : bool) (E a b : list (list bool)) (p q : list bool) :
  map (cons c) E = a ++ p :: q :: b ->
  exists a' p' q' b', E = a' ++ p' :: q' :: b' /\ p = c :: p' /\ q = c :: q'.
Proof.
  intros H. apply map_eq_app in H. destruct H as (E1 & E2 & -> & _ & H2).
  destruct E2 as [|p' [|q' E2]]; try discriminate.
  injection H2 as <- <- _. exists E1, p', q', E2. auto.
Qed.

Lemma enum_empty_inv (n : nat) (A : list (list bool)) :
  all_len n A -> enum n A = [] -> A = [].
Proof.
  intros HA E. destruct A as [|a A]; [reflexivity|].
  exfalso. apply (enum_nonempty n (a :: A) HA); [discriminate|exact E].
Qed.

(** The last address in the order leaves [last_zero] as it was. *)
Lemma lzp_last (n : nat) (j : Z) (A : list (list bool)) (l : list (list bool))
  (p : list bool) (lz : Z) :
  all_len n A -> enum n A = l ++ [p] -> lzp n j A p lz = lz.
Proof.
  revert j A l p lz; induction n as [|n IH]; intros j A l p lz HA E;
    [reflexivity|].
  rewrite enum_S in E.
  pose proof (all_len_zeros n A HA) as HA0.
  pose proof (all_len_ones n A HA) as HA1.
  destruct (enum n (ones A)) as [|e E1] eqn:EE1.
  - rewrite app_nil_r in E. apply map_cons_last_inv in E.
    destruct E as (E' & p' & E0 & ->).
    apply (enum_empty_inv n _ HA1) in EE1.
    cbn [lzp]. rewrite EE1. cbn [nonempty]. rewrite andb_false_r. cbn [andb].
    eapply IH; eassumption.
  - apply app_last_inv in E; [|discriminate].
    destruct E as (l' & E & _). apply map_cons_last_inv in E.
    destruct E as (E' & p' & E & ->).
    cbn [lzp negb]. rewrite andb_false_r.
    eapply IH; [exact HA1|]. rewrite EE1. exact E.
Qed.

(** Any other address leaves it at a position where it has a 0. *)
Lemma lzp_not_last (n : nat) (j : Z) (A : list (list bool)) (a b : list (list bool))
  (p q : list bool) (lz : Z) :
  all_len n A -> enum n A = a ++ p :: q :: b ->
  j <= lzp n j A p lz < j + Z.of_nat n.
Proof.
  revert j A a b p q lz; induction n as [|n IH]; intros j A a b p q lz HA E.
  - cbn in E. destruct A; destruct a as [|? [|? ?]]; discriminate.
  - rewrite enum_S in E.
    pose proof (all_len_zeros n A HA) as HA0.
    pose proof (all_len_ones n A HA) as HA1.
    rewrite Nat2Z.inj_succ.
    apply app_split2 in E. destruct E as [[b' E]|[[E0 E1]|[a' E]]].
    + apply map_cons_split2 in E. destruct E as (a' & p' & q' & b'' & E & -> & ->).
      cbn [lzp negb]. specialize (IH (j + 1) _ _ _ _ _
        (if nonempty (zeros A) && nonempty (ones A) && true then j else lz) HA0 E).
      lia.
    + apply map_cons_last_inv in E0. destruct E0 as (E' & p' & E0 & ->).
      cbn [lzp negb].
      assert (N0 : nonempty (zeros A) = true).
      { apply nonempty_true. intros N. rewrite N, enum_nil in E0.
        destruct E'; discriminate. }
      assert (N1 : nonempty (ones A) = true).
      { apply nonempty_true. intros N. rewrite N, enum_nil in E1. discriminate. }
      rewrite N0, N1. cbn [andb].
      rewrite (lzp_last n (j + 1) (zeros A) E' p' j HA0 E0). lia.
    + apply map_cons_split2 in E. destruct E as (a'' & p' & q' & b'' & E & -> & ->).
      cbn [lzp negb]. rewrite andb_false_r.
      specialize (IH (j + 1) _ _ _ _ _ lz HA1 E). lia.
Qed.

(** A walk that resumes from an address, with the [last_discrepancy] that
    address left, takes the next address in the order. *)
Lemma awalk_next (n : nat) (j : Z) (A : list (list bool)) (a b : list (list bool))
  (p q : list bool) (lz0 lz : Z) :
  all_len n A -> enum n A = a ++ p :: q :: b ->
  awalk n j (lzp n j A p lz0) p A lz = (q, lzp n j A q lz).
Proof.
  revert j A a b p q lz0 lz; induction n as [|n IH]; intros j A a b p q lz0 lz HA E.
  - cbn in E. destruct A; destruct a as [|? [|? ?]]; discriminate.
  - pose proof (lzp_not_last (S n) j A a b p q lz0 HA E) as Hld.
    rewrite enum_S in E.
    pose proof (all_len_zeros n A HA) as HA0.
    pose proof (all_len_ones n A HA) as HA1.
    apply app_split2 in E. destruct E as [[b' E]|[[E0 E1]|[a' E]]].
    + apply map_cons_split2 in E. destruct E as (a' & p' & q' & b'' & E & -> & ->).
      pose proof (lzp_not_last n (j + 1) (zeros A) a' b'' p' q'
        (if nonempty (zeros A) && nonempty (ones A) && true then j else lz0) HA0 E)
        as Hld'.
      cbn [lzp negb] in *. cbn [awalk]. unfold walk_dir, walk_lz. cbn [hd tl].
      assert (N0 : nonempty (zeros A) = true).
      { apply nonempty_true. intros N. rewrite N, enum_nil in E.
        destruct a'; discriminate. }
      rewrite N0 in *. cbn [andb] in *.
      destruct (Z.ltb_spec j
        (lzp n (j + 1) (zeros A) p' (if nonempty (ones A) && true then j else lz0)))
        as [_|]; [|lia].
      replace (if nonempty (ones A) then false else false) with false
        by (destruct (nonempty (ones A)); reflexivity).
      cbn [negb]. erewrite IH; [reflexivity|exact HA0|exact E].
    + apply map_cons_last_inv in E0. destruct E0 as (E' & p' & E0 & ->).
      destruct (enum n (ones A)) as [|q' E1'] eqn:EE1; [discriminate|].
      injection E1 as <- <-.
      assert (N0 : nonempty (zeros A) = true).
      { apply nonempty_true. intros N. rewrite N, enum_nil in E0.
        destruct E'; discriminate. }
      assert (N1 : nonempty (ones A) = true).
      { apply nonempty_true. intros N. rewrite N, enum_nil in EE1. discriminate. }
      cbn [lzp negb] in *. cbn [awalk]. unfold walk_dir, walk_lz. cbn [hd tl].
      rewrite N0, N1 in *. cbn [andb] in *.
      rewrite (lzp_last n (j + 1) (zeros A) E' p' j HA0 E0).
      rewrite Z.ltb_irrefl, Z.eqb_refl. cbn [negb].
      destruct (awalk_fresh n (j + 1) j p' (ones A) lz ltac:(lia) HA1)
        as (p1 & rest & E1 & W).
      { apply nonempty_true. exact N1. }
      rewrite EE1 in E1. injection E1 as <- <-. rewrite W. reflexivity.
    + apply map_cons_split2 in E. destruct E as (a'' & p' & q' & b'' & E & -> & ->).
      pose proof (lzp_not_last n (j + 1) (ones A) a'' b'' p' q' lz0 HA1 E) as Hld'.
      cbn [lzp negb] in *. cbn [awalk]. unfold walk_dir, walk_lz. cbn [hd tl].
      assert (N1 : nonempty (ones A) = true).
      { apply nonempty_true. intros N. rewrite N, enum_nil in E.
        destruct a''; discriminate. }
      rewrite N1 in *. rewrite andb_false_r in *.
      destruct (Z.ltb_spec j (lzp n (j + 1) (ones A) p' lz0)) as [_|]; [|lia].
      replace (if nonempty (zeros A) then true else true) with true
        by (destruct (nonempty (zeros A)); reflexivity).
      cbn [negb]. rewrite andb_false_r.
      erewrite IH; [reflexivity|exact HA1|exact E].
Qed.

Lemma zeros_ones_perm (n : nat) (A : list (list bool)) :
  all_len (S n) A ->
  Permutation A (map (cons false) (zeros A) ++ map (cons true) (ones A)).
Proof.
  induction 1 as [|a A Ha HA IH]; [constructor|].
  destruct a as [|[] t]; [discriminate| |].
  - change (ones ((true :: t) :: A)) with (t :: ones A).
    change (zeros ((true :: t) :: A)) with (zeros A).
    cbn [map]. apply Permutation_cons_app. exact IH.
  - change (zeros ((false :: t) :: A)) with (t :: zeros A).
    change (ones ((false :: t) :: A)) with (ones A).
    cbn [map app]. apply perm_skip. exact IH.
Qed.

Lemma enum_perm (n : nat) (A : list (list bool)) :
  all_len n A -> NoDup A -> Permutation (enum n A) A.
Proof.
  revert A; induction n as [|n IH]; intros A HA Hnd.
  - destruct A as [|a [|a' A]]; cbn; [constructor| |].
    + inversion HA as [|? ? Ha _]; subst. destruct a; [constructor; constructor|discriminate].
    + exfalso. inversion HA as [|? ? Ha HA']; subst.
      inversion HA' as [|? ? Ha' _]; subst.
      destruct a; [|discriminate]. destruct a'; [|discriminate].
      inversion Hnd as [|? ? Hn _]; subst. apply Hn. left. reflexivity.
  - rewrite enum_S.
    pose proof (zeros_ones_perm n A HA) as P.
    pose proof (Permutation_NoDup P Hnd) as Hnd'.
    rewrite P at 3.
    apply Permutation_app; apply Permutation_map; apply IH.
    + apply all_len_zeros; assumption.
    + apply NoDup_app_remove_r in Hnd'. eapply NoDup_map_inv; exact Hnd'.
    + apply all_len_ones; assumption.
    + apply NoDup_app_remove_l in Hnd'. eapply NoDup_map_inv; exact Hnd'.
Qed.

Lemma bits_value_testbits (a : Z) (n k : nat) :
  0 <= a ->
  bits_value (map (fun i => Z.testbit a (Z.of_nat i)) (seq k n))
  = (a / 2 ^ Z.of_nat k) mod 2 ^ Z.of_nat n.
Proof.
  intros Ha. revert k; induction n as [|n IH]; intros k.
  - cbn. rewrite Z.mod_1_r. reflexivity.
  - cbn [seq map bits_value]. rewrite IH.
    rewrite Z.testbit_spec' by lia.
    rewrite !Nat2Z.inj_succ, !Z.pow_succ_r by lia.
    rewrite (Z.rem_mul_r _ 2 (2 ^ Z.of_nat n)) by lia.
    rewrite Z.div_div by lia.
    rewrite (Z.mul_comm (2 ^ Z.of_nat k) 2). reflexivity.
Qed.

Lemma bits_value_addr_bits (a : Z) : is_addr a -> bits_value (addr_bits a) = a.
Proof.
  intros [H0 H1]. unfold addr_bits, bits_from.
  rewrite bits_value_testbits by assumption.
  change (Z.of_nat (64 - 0)) with 64. cbn [Z.of_nat]. rewrite Z.pow_0_r, Z.div_1_r.
  apply Z.mod_small. lia.
Qed.

Lemma length_bits_from (k : nat) (a : Z) : length (bits_from k a) = (64 - k)%nat.
Proof. unfold bits_from. rewrite length_map, length_seq. reflexivity. Qed.

Lemma NoDup_addr_bits (addrs : list Z) :
  Forall is_addr addrs -> NoDup addrs -> NoDup (map addr_bits addrs).
Proof.
  intros Hr Hnd. induction Hnd as [|a addrs Hn Hnd IH]; cbn [map]; constructor.
  - intros Hin. apply in_map_iff in Hin. destruct Hin as (b & E & Hb).
    inversion Hr as [|? ? Ha Hr']; subst.
    rewrite Forall_forall in Hr'.
    apply (f_equal bits_value) in E.
    rewrite !bits_value_addr_bits in E by auto. subst b. contradiction.
  - apply IH. inversion Hr; assumption.
Qed.

Lemma all_len_addr_bits (addrs : list Z) : all_len 64 (map addr_bits addrs).
Proof.
  unfold all_len. apply Forall_forall. intros p Hp.
  apply in_map_iff in Hp. destruct Hp as (a & <- & _). apply length_bits_from.
Qed.

(** The order of the search lists every address once. *)
Lemma search_order_perm (addrs : list Z) :
  Forall is_addr addrs -> NoDup addrs -> Permutation (search_order addrs) addrs.
Proof.
  intros Hr Hnd. unfold search_order.
  rewrite (enum_perm 64 (map addr_bits addrs) (all_len_addr_bits addrs)
             (NoDup_addr_bits addrs Hr Hnd)).
  rewrite map_map. rewrite <- (map_id addrs) at 2.
  rewrite Forall_forall in Hr.
  erewrite map_ext_in; [reflexivity|].
  intros a Ha. apply bits_value_addr_bits. auto.
Qed.

(** ** One pass of the search loop on a simulated line *)

Lemma bits_from_cons (k : nat) (a : Z) :
  (k < 64)%nat -> bits_from k a = Z.testbit a (Z.of_nat k) :: bits_from (S k) a.
Proof.
  intros Hk. unfold bits_from.
  replace (64 - k)%nat with (S (64 - S k)) by lia. reflexivity.
Qed.

Lemma rom_bits_from_cons (k : nat) (r : list Z) :
  (k < 64)%nat -> rom_bits_from k r = rom_bit r k :: rom_bits_from (S k) r.
Proof.
  intros Hk. unfold rom_bits_from.
  replace (64 - k)%nat with (S (64 - S k)) by lia. reflexivity.
Qed.

Lemma zeros_active (k : nat) (act : Z -> bool) (addrs : list Z) :
  (k < 64)%nat ->
  zeros (active k act addrs)
  = active (S k) (fun a => act a && negb (Z.testbit a (Z.of_nat k))) addrs.
Proof.
  intros Hk. unfold active.
  induction addrs as [|a addrs IH]; [reflexivity|].
  cbn [filter]. destruct (act a); cbn [andb]; [|exact IH].
  cbn [map]. rewrite (bits_from_cons k a Hk).
  destruct (Z.testbit a (Z.of_nat k)); cbn [negb map].
  - change (zeros ((true :: ?t) :: ?A)) with (zeros A). exact IH.
  - unfold zeros at 1. cbn [flat_map app]. fold (zeros (map (bits_from k) (filter act addrs))).
    rewrite IH. reflexivity.
Qed.

Lemma ones_active (k : nat) (act : Z -> bool) (addrs : list Z) :
  (k < 64)%nat ->
  ones (active k act addrs)
  = active (S k) (fun a => act a && Z.testbit a (Z.of_nat k)) addrs.
Proof.
  intros Hk. unfold active.
  induction addrs as [|a addrs IH]; [reflexivity|].
  cbn [filter]. destruct (act a); cbn [andb]; [|exact IH].
  cbn [map]. rewrite (bits_from_cons k a Hk).
  destruct (Z.testbit a (Z.of_nat k)); cbn [negb map].
  - unfold ones at 1. cbn [flat_map app]. fold (ones (map (bits_from k) (filter act addrs))).
    rewrite IH. reflexivity.
  - exact IH.
Qed.

Lemma nonempty_active (k : nat) (act : Z -> bool) (addrs : list Z) :
  nonempty (active k act addrs) = existsb act addrs.
Proof.
  unfold active. induction addrs as [|a addrs IH]; [reflexivity|].
  cbn [filter existsb]. destruct (act a); [reflexivity|exact IH].
Qed.

Lemma read_id_bit (k : nat) (act : Z -> bool) (addrs : list Z) :
  (k < 64)%nat ->
  forallb view_out (pview (SearchBit k) act addrs)
  = negb (nonempty (zeros (active k act addrs))).
Proof.
  intros Hk. rewrite zeros_active, nonempty_active by assumption.
  unfold pview. induction addrs as [|a addrs IH]; [reflexivity|].
  cbn [map forallb existsb]. rewrite IH, negb_orb. f_equal.
  unfold view_out. cbn [fst snd].
  destruct (act a); cbn [out_bit andb negb]; [|reflexivity].
  rewrite negb_involutive. reflexivity.
Qed.

Lemma read_cmp_id_bit (k : nat) (act : Z -> bool) (addrs : list Z) :
  (k < 64)%nat ->
  forallb view_out (pview (SearchCmp k) act addrs)
  = negb (nonempty (ones (active k act addrs))).
Proof.
  intros Hk. rewrite ones_active, nonempty_active by assumption.
  unfold pview. induction addrs as [|a addrs IH]; [reflexivity|].
  cbn [map forallb existsb]. rewrite IH, negb_orb. f_equal.
  unfold view_out. cbn [fst snd].
  destruct (act a); cbn [out_bit andb negb]; reflexivity.
Qed.

Lemma pview_after_bit (k : nat) (act : Z -> bool) (addrs : list Z) :
  map (view_slot true) (pview (SearchBit k) act addrs) = pview (SearchCmp k) act addrs.
Proof.
  unfold pview. rewrite map_map. apply map_ext. intros a.
  unfold view_slot. cbn [fst snd]. destruct (act a); reflexivity.
Qed.

Lemma pview_after_cmp (k : nat) (act : Z -> bool) (addrs : list Z) :
  map (view_slot true) (pview (SearchCmp k) act addrs) = pview (SearchDir k) act addrs.
Proof.
  unfold pview. rewrite map_map. apply map_ext. intros a.
  unfold view_slot. cbn [fst snd]. destruct (act a); reflexivity.
Qed.

Lemma pview_after_dir (k : nat) (dir : bool) (act : Z -> bool) (addrs : list Z) :
  (k < 64)%nat ->
  map (view_slot dir) (pview (SearchDir k) act addrs)
  = pview (walk_state (S k))
          (fun a => act a && Bool.eqb dir (Z.testbit a (Z.of_nat k))) addrs.
Proof.
  intros Hk. unfold pview. rewrite map_map. apply map_ext. intros a.
  unfold view_slot, walk_state. cbn [fst snd].
  destruct (act a); cbn [andb slot_state]; [|reflexivity].
  destruct (Bool.eqb dir (Z.testbit a (Z.of_nat k))); [|reflexivity].
  destruct (Nat.eqb_spec k 63), (Nat.ltb_spec (S k) 64); try reflexivity; lia.
Qed.

Lemma active_after_dir (k : nat) (dir : bool) (act : Z -> bool) (addrs : list Z) :
  (k < 64)%nat ->
  active (S k) (fun a => act a && Bool.eqb dir (Z.testbit a (Z.of_nat k))) addrs
  = if dir then ones (active k act addrs) else zeros (active k act addrs).
Proof.
  intros Hk. destruct dir.
  - rewrite ones_active by assumption. unfold active.
    rewrite (filter_ext _ (fun a => act a && Z.testbit a (Z.of_nat k))); [reflexivity|].
    intros a. destruct (Z.testbit a (Z.of_nat k)); reflexivity.
  - rewrite zeros_active by assumption. unfold active.
    rewrite (filter_ext _ (fun a => act a && negb (Z.testbit a (Z.of_nat k))));
      [reflexivity|].
    intros a. destruct (Z.testbit a (Z.of_nat k)); reflexivity.
Qed.

Lemma all_len_active (k : nat) (act : Z -> bool) (addrs : list Z) :
  all_len (64 - k) (active k act addrs).
Proof.
  unfold all_len, active. apply Forall_forall. intros p Hp.
  apply in_map_iff in Hp. destruct Hp as (a & <- & _). apply length_bits_from.
Qed.

Lemma nth_list_set (r : list Z) (i j : nat) (v : Z) :
  (i < length r)%nat ->
  nth j (list_set r i v) 0 = if (j =? i)%nat then v else nth j r 0.
Proof.
  revert i j; induction r as [|x r IH]; intros i j Hi; cbn in Hi; [lia|].
  destruct i as [|i], j as [|j]; cbn [list_set nth Nat.eqb]; try reflexivity.
  apply IH. lia.
Qed.

Lemma land_pow2_gtb (x m : Z) :
  0 <= m -> (Z.land x (2 ^ m) >? 0) = Z.testbit x m.
Proof.
  intros Hm.
  assert (E : Z.land x (2 ^ m) = if Z.testbit x m then 2 ^ m else 0).
  { apply Z.bits_inj'. intros n Hn. rewrite Z.land_spec, Z.pow2_bits_eqb by lia.
    destruct (Z.eqb_spec m n) as [->|Hne].
    - rewrite andb_true_r. destruct (Z.testbit x n).
      + rewrite Z.pow2_bits_true by lia. reflexivity.
      + rewrite Z.bits_0. reflexivity.
    - rewrite andb_false_r. destruct (Z.testbit x m).
      + rewrite Z.pow2_bits_false by lia. reflexivity.
      + rewrite Z.bits_0. reflexivity. }
  rewrite E. destruct (Z.testbit x m); [|reflexivity].
  apply Z.gtb_lt. apply Z.pow_pos_nonneg; lia.
Qed.

Lemma rom_bit_after (k i : nat) (dir : bool) (r : list Z) :
  (k < 64)%nat -> length r = 8%nat -> (i < 64)%nat ->
  rom_bit (rom_after k dir r) i = if (i =? k)%nat then dir else rom_bit r i.
Proof.
  intros Hk Hlen Hi. unfold rom_bit, rom_after, aget, aset.
  assert (Hbk : (Z.to_nat (Z.of_nat k / 8) < length r)%nat).
  { rewrite Hlen. apply Nat2Z.inj_lt. rewrite Z2Nat.id by (apply Z.div_pos; lia).
    Z.div_mod_to_equations. lia. }
  assert (Hm : 0 <= Z.of_nat i mod 8 < 8) by (apply Z.mod_pos_bound; lia).
  assert (Hmk : 0 <= Z.of_nat k mod 8 < 8) by (apply Z.mod_pos_bound; lia).
  destruct dir; rewrite nth_list_set by assumption.
  all: destruct (Nat.eqb_spec (Z.to_nat (Z.of_nat i / 8)) (Z.to_nat (Z.of_nat k / 8)))
    as [Eb|Nb].
  all: try (destruct (Nat.eqb_spec i k) as [->|_]; [congruence|reflexivity]).
  all: unfold u8; change 256 with (2 ^ 8); rewrite Z.mod_pow2_bits_low by lia.
  - rewrite Z.lor_spec, Z.pow2_bits_eqb by lia. rewrite Eb.
    destruct (Nat.eqb_spec i k) as [->|Hne].
    + rewrite Z.eqb_refl. apply orb_true_r.
    + destruct (Z.eqb_spec (Z.of_nat k mod 8) (Z.of_nat i mod 8)) as [Em|_].
      * exfalso. apply Hne. apply Z2Nat.inj in Eb; try (apply Z.div_pos; lia).
        Z.div_mod_to_equations. lia.
      * apply orb_false_r.
  - rewrite Z.land_spec, Z.lnot_spec, Z.pow2_bits_eqb by lia. rewrite Eb.
    destruct (Nat.eqb_spec i k) as [->|Hne].
    + rewrite Z.eqb_refl. apply andb_false_r.
    + destruct (Z.eqb_spec (Z.of_nat k mod 8) (Z.of_nat i mod 8)) as [Em|_].
      * exfalso. apply Hne. apply Z2Nat.inj in Eb; try (apply Z.div_pos; lia).
        Z.div_mod_to_equations. lia.
      * apply andb_true_r.
Qed.

Lemma length_rom_after (k : nat) (dir : bool) (r : list Z) :
  length (rom_after k dir r) = length r.
Proof. unfold rom_after, aset. destruct dir; apply list_set_length. Qed.

Lemma rom_bits_from_after (k : nat) (dir : bool) (r : list Z) :
  (k < 64)%nat -> length r = 8%nat ->
  rom_bits_from (S k) (rom_after k dir r) = rom_bits_from (S k) r.
Proof.
  intros Hk Hlen. unfold rom_bits_from. apply map_ext_in. intros i Hi.
  apply in_seq in Hi. rewrite rom_bit_after by (auto; lia).
  destruct (Nat.eqb_spec i k); [lia|reflexivity].
Qed.

Lemma chosen_walk (k : nat) (l : search_locals) (search : onewire_search_t)
  (A : list (list bool)) :
  (k < 64)%nat -> counters_at k l ->
  nonempty (zeros A) || nonempty (ones A) = true ->
  let dir := walk_dir (Z.of_nat k + 1) (last_discrepancy search)
                      (rom_bits_from k (rom_no search)) A in
  chosen (Z.b2z (negb (nonempty (zeros A)))) (Z.b2z (negb (nonempty (ones A)))) l search
  = (Z.b2z dir, walk_lz (Z.of_nat k + 1) A dir (last_zero l)).
Proof.
  intros Hk (Hid & Hrbn & Hmask) Hne. cbv zeta.
  unfold chosen, walk_dir, walk_lz. rewrite Hid, Hrbn, Hmask.
  rewrite land_pow2_gtb by (apply Z.mod_pos_bound; lia).
  rewrite (rom_bits_from_cons k _ Hk). cbn [hd]. fold (rom_bit (rom_no search) k).
  destruct (nonempty (zeros A)), (nonempty (ones A)); try discriminate;
    cbn [negb Z.b2z Z.eqb andb]; try reflexivity.
  destruct (Z.of_nat k + 1 <? last_discrepancy search).
  - destruct (rom_bit (rom_no search) k); reflexivity.
  - destruct (Z.of_nat k + 1 =? last_discrepancy search); reflexivity.
Qed.

Lemma walk_dir_nonempty (n : nat) (j ld : Z) (prev : list bool) (A : list (list bool)) :
  all_len (S n) A -> A <> [] ->
  nonempty (if walk_dir j ld prev A then ones A else zeros A) = true.
Proof.
  intros HA Hne. unfold walk_dir.
  destruct (nonempty (zeros A)) eqn:N0, (nonempty (ones A)) eqn:N1; auto.
  - destruct (if j <? ld then hd false prev else j =? ld); assumption.
  - apply nonempty_false in N0, N1.
    destruct (zeros_or_ones n A HA Hne); congruence.
Qed.

(** One pass of the loop body of [onewire_search_next], on any board, given
    what the three bus operations do. *)
Lemma search_step_run {hw : Type} `{Platform hw} (pin : Z) (l : search_locals)
  (search : onewire_search_t) (h h1 h2 h3 : hw) (id_bit cmp_id_bit : Z) :
  onewire_read_bit pin h = (id_bit, h1) ->
  onewire_read_bit pin h1 = (cmp_id_bit, h2) ->
  (id_bit =? 1) && (cmp_id_bit =? 1) = false ->
  onewire_write_bit pin (fst (chosen id_bit cmp_id_bit l search)) h2 = (tt, h3) ->
  search_step pin l search h
  = (false,
     Locals (u8 (id_bit_number l + 1)) (snd (chosen id_bit cmp_id_bit l search))
            (if u8 (Z.shiftl (rom_byte_mask l) 1) =? 0
             then rom_byte_number l + 1 else rom_byte_number l)
            (if u8 (Z.shiftl (rom_byte_mask l) 1) =? 0
             then 1 else u8 (Z.shiftl (rom_byte_mask l) 1)),
     (let byte := aget (rom_no search) (rom_byte_number l) in
      if fst (chosen id_bit cmp_id_bit l search) =? 1
      then set_rom_no search
             (aset (rom_no search) (rom_byte_number l) (u8 (Z.lor byte (rom_byte_mask l))))
      else set_rom_no search
             (aset (rom_no search) (rom_byte_number l)
                   (u8 (Z.land byte (Z.lnot (rom_byte_mask l)))))),
     h3).
Proof.
  intros E1 E2 Hnb Ew. unfold search_step, bind. rewrite E1, E2, Hnb.
  unfold chosen in *.
  destruct (if negb (id_bit =? cmp_id_bit) then _ else _) as [sd lz].
  cbn [fst snd] in *. rewrite Ew.
  destruct (u8 (Z.shiftl (rom_byte_mask l) 1) =? 0); reflexivity.
Qed.

Lemma sim_search_step (pin : Z) (k : nat) (l : search_locals)
  (search : onewire_search_t) (s : sim) (act : Z -> bool) (addrs : list Z) :
  (k < 64)%nat -> counters_at k l -> bus_idle s ->
  bus_view s = pview (walk_state k) act addrs ->
  existsb act addrs = true ->
  let A := active k act addrs in
  let dir := walk_dir (Z.of_nat k + 1) (last_discrepancy search)
                      (rom_bits_from k (rom_no search)) A in
  exists l' s',
    search_step pin l search s
    = (false, l', set_rom_no search (rom_after k dir (rom_no search)), s')
    /\ counters_at (S k) l'
    /\ (rom_byte_number l' <? 8) = (S k <? 64)%nat
    /\ last_zero l' = walk_lz (Z.of_nat k + 1) A dir (last_zero l)
    /\ bus_idle s'
    /\ bus_view s'
       = pview (walk_state (S k))
               (fun a => act a && Bool.eqb dir (Z.testbit a (Z.of_nat k))) addrs.
Proof.
  intros Hk Hc Hidle Hview Hex A dir.
  unfold walk_state in Hview. rewrite (proj2 (Nat.ltb_lt k 64) Hk) in Hview.
  destruct (sim_read_bit pin s Hidle) as (s1 & E1 & I1 & V1).
  rewrite Hview in E1, V1. rewrite read_id_bit in E1 by assumption.
  rewrite pview_after_bit in V1.
  destruct (sim_read_bit pin s1 I1) as (s2 & E2 & I2 & V2).
  rewrite V1 in E2, V2. rewrite read_cmp_id_bit in E2 by assumption.
  rewrite pview_after_cmp in V2.
  fold A in E1, E2.
  assert (Hne : nonempty (zeros A) || nonempty (ones A) = true).
  { pose proof (all_len_active k act addrs) as HA. fold A in HA.
    replace (64 - k)%nat with (S (63 - k)) in HA by lia.
    assert (A <> []) as HneA.
    { apply nonempty_true. unfold A. rewrite nonempty_active. exact Hex. }
    destruct (zeros_or_ones _ A HA HneA) as [N|N]; apply nonempty_true in N;
      rewrite N; auto using orb_true_r. }
  pose proof (chosen_walk k l search A Hk Hc Hne) as Hch. cbv zeta in Hch. fold dir in Hch.
  destruct (sim_write_bit pin (Z.b2z dir) s2 I2) as (s3 & Ew & I3 & V3).
  rewrite V2 in V3.
  replace (negb (Z.land (Z.b2z dir) 1 =? 0)) with dir in V3 by (destruct dir; reflexivity).
  rewrite pview_after_dir in V3 by assumption.
  assert (Hnb : (Z.b2z (negb (nonempty (zeros A))) =? 1)
                && (Z.b2z (negb (nonempty (ones A))) =? 1) = false).
  { destruct (nonempty (zeros A)), (nonempty (ones A)); try reflexivity; discriminate. }
  assert (Ew' : onewire_write_bit pin
                  (fst (chosen (Z.b2z (negb (nonempty (zeros A))))
                               (Z.b2z (negb (nonempty (ones A)))) l search)) s2
                = (tt, s3)) by (rewrite Hch; exact Ew).
  rewrite (search_step_run pin l search s s1 s2 s3 _ _ E1 E2 Hnb Ew').
  rewrite Hch. cbn [fst snd].
  destruct Hc as (Hid & Hrbn & Hmask). rewrite Hid, Hrbn, Hmask.
  destruct (counters_advance k Hk) as (A1 & A2 & A3). cbv zeta in A2.
  do 2 eexists. split; [|split; [|split; [|split; [|split]]]].
  - f_equal. f_equal. destruct dir; reflexivity.
  - unfold counters_at. cbn [id_bit_number rom_byte_number rom_byte_mask].
    destruct (u8 (Z.shiftl (2 ^ (Z.of_nat k mod 8)) 1) =? 0);
      apply pair_equal_spec in A2; destruct A2 as [A2 A2']; auto.
  - cbn [rom_byte_number]. rewrite <- A3.
    destruct (u8 (Z.shiftl (2 ^ (Z.of_nat k mod 8)) 1) =? 0);
      apply pair_equal_spec in A2; destruct A2 as [A2 A2']; rewrite A2; reflexivity.
  - reflexivity.
  - exact I3.
  - exact V3.
Qed.

Lemma awalk_S (n : nat) (j ld : Z) (prev : list bool) (A : list (list bool)) (lz : Z) :
  awalk (S n) j ld prev A lz
  = (walk_dir j ld prev A
       :: fst (awalk n (j + 1) ld (tl prev)
                 (if walk_dir j ld prev A then ones A else zeros A)
                 (walk_lz j A (walk_dir j ld prev A) lz)),
     snd (awalk n (j + 1) ld (tl prev)
            (if walk_dir j ld prev A then ones A else zeros A)
            (walk_lz j A (walk_dir j ld prev A) lz))).
Proof. cbn [awalk]. destruct (awalk n _ _ _ _ _). reflexivity. Qed.

Lemma sim_search_loop (pin : Z) (addrs : list Z) (m : nat) :
  forall (k : nat) (l : search_locals) (search : onewire_search_t) (s : sim)
         (act : Z -> bool),
  (k + S m = 64)%nat -> counters_at k l -> length (rom_no search) = 8%nat ->
  bus_idle s -> bus_view s = pview (walk_state k) act addrs ->
  existsb act addrs = true ->
  exists l' search' s',
    search_loop (S m) pin l search s = Some (false, l', search', s')
    /\ (rom_bits_from k (rom_no search'), last_zero l')
       = awalk (S m) (Z.of_nat k + 1) (last_discrepancy search)
               (rom_bits_from k (rom_no search)) (active k act addrs) (last_zero l)
    /\ last_discrepancy search' = last_discrepancy search
    /\ last_device_found search' = last_device_found search
    /\ length (rom_no search') = 8%nat
    /\ (forall i, (i < k)%nat -> rom_bit (rom_no search') i = rom_bit (rom_no search) i)
    /\ bus_idle s'
    /\ map fst (bus_view s') = addrs.
Proof.
  induction m as [|m IH]; intros k l search s act Hkm Hc Hlen Hidle Hview Hex.
  - assert (Hk : (k < 64)%nat) by lia.
    destruct (sim_search_step pin k l search s act addrs Hk Hc Hidle Hview Hex)
      as (l' & s' & E & Hc' & Hlt & Hlz & I & V).
    cbn [search_loop]. rewrite E, Hlt.
    replace (S k <? 64)%nat with false by (symmetry; apply Nat.ltb_ge; lia).
    do 3 eexists. split; [reflexivity|].
    cbn [awalk rom_no last_discrepancy last_device_found set_rom_no].
    rewrite (rom_bits_from_cons k _ Hk).
    replace (rom_bits_from (S k) _) with (@nil bool)
      by (unfold rom_bits_from; replace (64 - S k)%nat with 0%nat by lia; reflexivity).
    rewrite rom_bit_after by auto. rewrite Nat.eqb_refl, Hlz.
    split; [reflexivity|]. split; [reflexivity|]. split; [reflexivity|].
    split; [|split; [|split; [exact I|]]].
    + rewrite length_rom_after. exact Hlen.
    + intros i Hi. rewrite rom_bit_after by (auto; lia).
      destruct (Nat.eqb_spec i k); [lia|reflexivity].
    + rewrite V. unfold pview. rewrite map_map. cbn [fst]. apply map_id.
  - assert (Hk : (k < 64)%nat) by lia.
    destruct (sim_search_step pin k l search s act addrs Hk Hc Hidle Hview Hex)
      as (l1 & s1 & E & Hc1 & Hlt & Hlz & I1 & V1).
    cbn [search_loop]. rewrite E, Hlt.
    replace (S k <? 64)%nat with true by (symmetry; apply Nat.ltb_lt; lia).
    set (A := active k act addrs) in *.
    set (dir := walk_dir (Z.of_nat k + 1) (last_discrepancy search)
                         (rom_bits_from k (rom_no search)) A) in *.
    set (search1 := set_rom_no search (rom_after k dir (rom_no search))) in *.
    assert (Hex1 : existsb (fun a => act a && Bool.eqb dir (Z.testbit a (Z.of_nat k)))
                     addrs = true).
    { rewrite <- (nonempty_active (S k)). rewrite active_after_dir by assumption.
      fold A. unfold dir.
      apply (walk_dir_nonempty (63 - k)).
      - replace (S (63 - k)) with (64 - k)%nat by lia. apply all_len_active.
      - apply nonempty_true. unfold A. rewrite nonempty_active. exact Hex. }
    assert (Hlen1 : length (rom_no search1) = 8%nat)
      by (unfold search1; cbn [rom_no set_rom_no]; rewrite length_rom_after; exact Hlen).
    destruct (IH (S k) l1 search1 s1 _ ltac:(lia) Hc1 Hlen1 I1 V1 Hex1)
      as (l2 & search2 & s2 & E2 & W & Hld & Hldf & Hlen2 & Hpre & I2 & V2).
    exists l2, search2, s2. split; [exact E2|].
    rewrite awalk_S. fold dir.
    replace (Z.of_nat (S k) + 1) with (Z.of_nat k + 1 + 1) in W by lia.
    rewrite active_after_dir in W by assumption. fold A in W.
    subst search1.
    cbn [rom_no last_discrepancy last_device_found set_rom_no] in W, Hld, Hldf, Hpre.
    rewrite rom_bits_from_after in W by assumption.
    rewrite Hlz in W.
    rewrite (rom_bits_from_cons k (rom_no search) Hk). cbn [tl].
    rewrite <- W. cbn [fst snd].
    rewrite (rom_bits_from_cons k (rom_no search2) Hk).
    rewrite (Hpre k ltac:(lia)).
    rewrite rom_bit_after by auto. rewrite Nat.eqb_refl.
    split; [reflexivity|]. split; [exact Hld|]. split; [exact Hldf|].
    split; [exact Hlen2|]. split; [|split; [exact I2|exact V2]].
    intros i Hi. rewrite (Hpre i ltac:(lia)).
    rewrite rom_bit_after by (auto; lia).
    destruct (Nat.eqb_spec i k); [lia|reflexivity].
Qed.

(** ** A whole call of [onewire_search_next] on a simulated line *)

Lemma sim_write_loop (masks : list Z) (pin v : Z) (s : sim) :
  bus_idle s ->
  exists s',
    onewire_write_loop masks pin v s = (tt, s')
    /\ bus_idle s'
    /\ bus_view s'
       = fold_left (fun vw m => map (view_slot (write_bit_of v m)) vw) masks (bus_view s).
Proof.
  revert s; induction masks as [|m masks IH]; intros s Hidle.
  - exists s. split; [reflexivity|]. split; [exact Hidle|reflexivity].
  - cbn [onewire_write_loop fold_left]. unfold bind.
    destruct (sim_write_bit pin (if negb (Z.land m v =? 0) then 1 else 0) s Hidle)
      as (s1 & E & I1 & V1).
    rewrite E. destruct (IH s1 I1) as (s2 & E2 & I2 & V2).
    exists s2. split; [exact E2|]. split; [exact I2|].
    rewrite V2, V1. reflexivity.
Qed.

Lemma sim_search_command (pin : Z) (s : sim) (vw : list (Z * slave_state)) :
  bus_idle s -> bus_view s = map view_reset vw ->
  exists s',
    onewire_write pin 240 s = (tt, s')
    /\ bus_idle s'
    /\ bus_view s' = pview (walk_state 0) (fun _ => true) (map fst vw).
Proof.
  intros Hidle Hview. unfold onewire_write.
  change (bit_masks 9 1) with [1; 2; 4; 8; 16; 32; 64; 128].
  destruct (sim_write_loop [1; 2; 4; 8; 16; 32; 64; 128] pin 240 s Hidle)
    as (s' & E & I & V).
  exists s'. split; [exact E|]. split; [exact I|].
  rewrite V, Hview. cbn [fold_left]. unfold pview. rewrite !map_map.
  apply map_ext. intros [a st]. reflexivity.
Qed.

Lemma filter_all {X : Type} (l : list X) : filter (fun _ => true) l = l.
Proof. induction l as [|x l IH]; cbn; congruence. Qed.

Lemma sim_search_next_found (ONEWIRE_NONE pin : Z) (addrs : list Z)
  (search : onewire_search_t) (s : sim) :
  addrs <> [] -> last_device_found search = false ->
  length (rom_no search) = 8%nat -> Forall is_byte (rom_no search) ->
  bus_idle s -> map fst (bus_view s) = addrs ->
  exists r lz s',
    awalk 64 1 (last_discrepancy search) (rom_bits_from 0 (rom_no search))
          (map addr_bits addrs) 0
    = (rom_bits_from 0 r, lz)
    /\ length r = 8%nat /\ Forall is_byte r
    /\ onewire_search_next ONEWIRE_NONE search pin s
       = Some (if aget r 0 =? 0
               then (ONEWIRE_NONE, Search r 0 false, s')
               else (search_addr (Search r lz (lz =? 0)), Search r lz (lz =? 0), s'))
    /\ bus_idle s' /\ map fst (bus_view s') = addrs.
Proof.
  intros Hne Hf Hlen Hby Hidle Hroms.
  destruct (sim_reset pin s Hidle) as (s1 & Er & I1 & V1).
  assert (Hr : onewire_reset pin s = (1, s1)).
  { rewrite Er. destruct (slaves s) eqn:Es; [|reflexivity].
    exfalso. apply Hne. rewrite <- Hroms. unfold bus_view. rewrite Es. reflexivity. }
  destruct (sim_search_command pin s1 (bus_view s) I1 V1) as (s2 & Ew & I2 & V2).
  rewrite Hroms in V2.
  assert (Hex : existsb (fun _ : Z => true) addrs = true)
    by (destruct addrs; [congruence|reflexivity]).
  destruct (sim_search_loop pin addrs 63 0 (Locals 1 0 0 1) search s2 (fun _ => true)
              eq_refl ltac:(unfold counters_at; cbn; auto) Hlen I2 V2 Hex)
    as (l & search' & s3 & El & W & Hld & Hldf & Hlen' & _ & I3 & V3).
  change (search_loop 64 pin (Locals 1 0 0 1) search s2) with (search_walk pin search s2) in El.
  destruct (search_walk_spec pin search s2)
    as (brk' & l' & sx & hx & E & _ & _ & Hby' & _).
  rewrite El in E. injection E as <- <- <- <-.
  exists (rom_no search'), (last_zero l), s3.
  split; [|split; [exact Hlen'|split; [exact (Hby' Hby)|split; [|split; assumption]]]].
  - rewrite W. unfold active. rewrite filter_all. reflexivity.
  - rewrite (onewire_search_next_walk ONEWIRE_NONE search pin 1 s s1 s2 s3 false l search'
               Hf Hr ltac:(discriminate) Ew El).
    cbn [orb]. destruct (aget (rom_no search') 0 =? 0); reflexivity.
Qed.

(** ** The address returned and the bits of the ROM buffer *)

Lemma lor_shift_byte (x b : Z) :
  0 <= x < 2 ^ 56 -> is_byte b -> Z.lor (u64 (Z.shiftl x 8)) b = x * 256 + b.
Proof.
  intros Hx Hb. unfold is_byte in Hb. unfold u64.
  rewrite Z.shiftl_mul_pow2 by lia. change (2 ^ 8) with 256.
  rewrite Z.mod_small by lia.
  assert (L : Z.land (x * 256) b = 0).
  { apply Z.bits_inj'. intros n Hn. rewrite Z.land_spec, Z.bits_0.
    destruct (Z.lt_ge_cases n 8) as [Hlt|Hge].
    - change 256 with (2 ^ 8). rewrite Z.mul_pow2_bits_low by lia. reflexivity.
    - replace (Z.testbit b n) with false; [apply andb_false_r|].
      symmetry. rewrite <- (Z.mod_small b (2 ^ 8)) by lia.
      apply Z.mod_pow2_bits_high. lia. }
  rewrite <- Z.lxor_lor by exact L. symmetry. apply Z.add_nocarry_lxor. exact L.
Qed.

Lemma bits_value_app (l1 l2 : list bool) :
  bits_value (l1 ++ l2) = bits_value l1 + 2 ^ Z.of_nat (length l1) * bits_value l2.
Proof.
  induction l1 as [|b l1 IH]; cbn [app bits_value length].
  - change (Z.of_nat 0) with 0. rewrite Z.pow_0_r. lia.
  - rewrite IH, Nat2Z.inj_succ, Z.pow_succ_r by lia. lia.
Qed.

Lemma bits_value_byte_bits (b : Z) : is_byte b -> bits_value (byte_bits b) = b.
Proof.
  intros Hb. unfold is_byte in Hb. unfold byte_bits.
  rewrite bits_value_testbits by lia.
  cbn [Z.of_nat]. rewrite Z.pow_0_r, Z.div_1_r. apply Z.mod_small.
  change (2 ^ Z.pos 8) with 256. lia.
Qed.

Lemma search_addr_bits_value (r : list Z) (ld : Z) (f : bool) :
  length r = 8%nat -> Forall is_byte r ->
  search_addr (Search r ld f) = bits_value (rom_bits_from 0 r).
Proof.
  intros Hlen Hby.
  do 8 (destruct r as [|? r]; [discriminate|]). destruct r; [|discriminate].
  repeat match goal with H : Forall _ (_ :: _) |- _ =>
    let Hb := fresh "Hb" in inversion H as [|? ? Hb ?]; subst; clear H end.
  change (rom_bits_from 0 [z; z0; z1; z2; z3; z4; z5; z6])
    with (byte_bits z ++ byte_bits z0 ++ byte_bits z1 ++ byte_bits z2 ++ byte_bits z3
          ++ byte_bits z4 ++ byte_bits z5 ++ byte_bits z6).
  rewrite !bits_value_app, !bits_value_byte_bits by assumption.
  change (Z.of_nat (length (byte_bits ?b))) with 8.
  cbv beta iota delta [search_addr fold_left rom_no aget Z.to_nat Pos.to_nat
    Pos.iter_op Nat.add nth].
  unfold is_byte in *.
  change (Z.lor (u64 (Z.shiftl 0 8)) z6) with (Z.lor 0 z6). rewrite Z.lor_0_l.
  rewrite (lor_shift_byte z6 z5) by (unfold is_byte; lia).
  rewrite (lor_shift_byte _ z4) by (unfold is_byte; lia).
  rewrite (lor_shift_byte _ z3) by (unfold is_byte; lia).
  rewrite (lor_shift_byte _ z2) by (unfold is_byte; lia).
  rewrite (lor_shift_byte _ z1) by (unfold is_byte; lia).
  rewrite (lor_shift_byte _ z0) by (unfold is_byte; lia).
  rewrite (lor_shift_byte _ z) by (unfold is_byte; lia).
  change (2 ^ 8) with 256. lia.
Qed.

Lemma search_addr_found (r : list Z) (ld : Z) (f : bool) (a : Z) :
  length r = 8%nat -> Forall is_byte r -> is_addr a ->
  rom_bits_from 0 r = addr_bits a ->
  search_addr (Search r ld f) = a /\ aget r 0 = Z.land a 255.
Proof.
  intros Hlen Hby Ha Hbits.
  assert (E : search_addr (Search r ld f) = a).
  { rewrite search_addr_bits_value by assumption. rewrite Hbits.
    apply bits_value_addr_bits. exact Ha. }
  split; [exact E|].
  rewrite <- E. symmetry.
  apply (search_addr_family (Search r ld f)). apply aget_is_byte. exact Hby.
Qed.

(** ** The enumeration *)

Section Enumeration.
Variables (ONEWIRE_NONE pin : Z) (addrs : list Z).
Hypothesis addrs_distinct : NoDup addrs.
Hypothesis addrs_range : Forall is_addr addrs.
Hypothesis addrs_family : Forall has_family addrs.

Lemma sim_search_next_addr (search : onewire_search_t) (s : sim)
  (q : list bool) (lz : Z) :
  last_device_found search = false ->
  length (rom_no search) = 8%nat -> Forall is_byte (rom_no search) ->
  bus_idle s -> map fst (bus_view s) = addrs ->
  In q (map addr_bits addrs) ->
  awalk 64 1 (last_discrepancy search) (rom_bits_from 0 (rom_no search))
        (map addr_bits addrs) 0 = (q, lz) ->
  exists r s',
    rom_bits_from 0 r = q /\ length r = 8%nat /\ Forall is_byte r
    /\ onewire_search_next ONEWIRE_NONE search pin s
       = Some (bits_value q, Search r lz (lz =? 0), s')
    /\ bus_idle s' /\ map fst (bus_view s') = addrs.
Proof.
  intros Hf Hlen Hby Hidle Hroms Hq Hwalk.
  assert (Hne : addrs <> []) by (destruct addrs; [contradiction|discriminate]).
  destruct (sim_search_next_found ONEWIRE_NONE pin addrs search s Hne Hf Hlen Hby
              Hidle Hroms)
    as (r & lz' & s' & W & Hlen' & Hby' & E & I & V).
  rewrite Hwalk in W. injection W as Hq' <-.
  apply in_map_iff in Hq. destruct Hq as (a & Ha & Hin).
  rewrite Forall_forall in addrs_range, addrs_family.
  destruct (search_addr_found r lz (lz =? 0) a Hlen' Hby' (addrs_range a Hin))
    as [Eaddr Efam]; [congruence|].
  exists r, s'. split; [congruence|]. split; [exact Hlen'|]. split; [exact Hby'|].
  split; [|split; assumption].
  rewrite E, Efam.
  destruct (Z.eqb_spec (Z.land a 255) 0) as [Ez|_];
    [exfalso; exact (addrs_family a Hin Ez)|].
  rewrite Eaddr, <- Ha, bits_value_addr_bits by auto. reflexivity.
Qed.

Lemma enum_in_addrs (q : list bool) :
  In q (enum 64 (map addr_bits addrs)) -> In q (map addr_bits addrs).
Proof.
  apply Permutation_in. apply enum_perm.
  - apply all_len_addr_bits.
  - apply NoDup_addr_bits; assumption.
Qed.

(** From the state a found address leaves, the calls that follow return the
    rest of the order and then [ONEWIRE_NONE]. *)
Lemma search_rest (rest : list (list bool)) :
  forall (done : list (list bool)) (p : list bool) (r : list Z) (ld : Z) (s : sim),
  enum 64 (map addr_bits addrs) = done ++ p :: rest ->
  rom_bits_from 0 r = p -> length r = 8%nat -> Forall is_byte r ->
  ld = lzp 64 1 (map addr_bits addrs) p 0 ->
  bus_idle s -> map fst (bus_view s) = addrs ->
  exists search' s',
    search_all ONEWIRE_NONE (S (length rest)) (Search r ld (ld =? 0)) pin s
    = Some (map bits_value rest ++ [ONEWIRE_NONE], search', s').
Proof.
  induction rest as [|q rest IH]; intros done p r ld s HE Hp Hlen Hby Hld Hidle Hroms.
  - rewrite (lzp_last 64 1 _ done p 0 (all_len_addr_bits addrs) HE) in Hld. subst ld.
    cbn [search_all length].
    rewrite onewire_search_next_exhausted by reflexivity.
    do 2 eexists. reflexivity.
  - pose proof (lzp_not_last 64 1 _ done rest p q 0 (all_len_addr_bits addrs) HE) as Hrange.
    rewrite <- Hld in Hrange.
    destruct (Z.eqb_spec ld 0) as [|_]; [lia|].
    pose proof (awalk_next 64 1 _ done rest p q 0 0 (all_len_addr_bits addrs) HE) as W.
    rewrite <- Hld in W.
    assert (Hq : In q (map addr_bits addrs)).
    { apply enum_in_addrs. rewrite HE. apply in_or_app. right. right. left. reflexivity. }
    destruct (sim_search_next_addr (Search r ld false) s q
                (lzp 64 1 (map addr_bits addrs) q 0) eq_refl Hlen Hby Hidle Hroms Hq)
      as (r' & s' & Hq' & Hlen' & Hby' & E & I & V).
    { cbn [last_discrepancy rom_no]. rewrite Hp. exact W. }
    change (search_all ONEWIRE_NONE (S (length (q :: rest))) (Search r ld false) pin s)
      with (match onewire_search_next ONEWIRE_NONE (Search r ld false) pin s with
            | None => None
            | Some (addr, search', h') =>
                match search_all ONEWIRE_NONE (S (length rest)) search' pin h' with
                | None => None
                | Some (l, search'', h'') => Some (addr :: l, search'', h'')
                end
            end).
    rewrite E.
    destruct (IH (done ++ [p]) q r' (lzp 64 1 (map addr_bits addrs) q 0) s')
      as (search2 & s2 & E2); auto.
    { rewrite <- app_assoc. exact HE. }
    rewrite E2. do 2 eexists. reflexivity.
Qed.

Lemma search_all_from_start (s : sim) :
  bus_idle s -> map fst (bus_view s) = addrs ->
  exists search' s',
    search_all ONEWIRE_NONE (S (length addrs)) onewire_search_start pin s
    = Some (search_order addrs ++ [ONEWIRE_NONE], search', s').
Proof.
  intros Hidle Hroms. unfold search_order.
  assert (Hlen0 : length (rom_no onewire_search_start) = 8%nat) by reflexivity.
  assert (Hby0 : Forall is_byte (rom_no onewire_search_start))
    by (repeat constructor; unfold is_byte; lia).
  destruct (Nat.eq_dec (length addrs) 0) as [Eaddrs|Eaddrs].
  - apply length_zero_iff_nil in Eaddrs. rewrite Eaddrs.
    cbn [length search_all map app]. rewrite enum_nil. cbn [map app].
    destruct (sim_reset pin s Hidle) as (s1 & Er & _ & _).
    assert (Es : slaves s = []).
    { rewrite Eaddrs in Hroms. unfold bus_view in Hroms. rewrite map_map in Hroms.
      destruct (slaves s); [reflexivity|discriminate]. }
    rewrite Es in Er.
    rewrite (onewire_search_next_no_presence ONEWIRE_NONE onewire_search_start pin s s1
               eq_refl Er).
    do 2 eexists. reflexivity.
  - destruct (awalk_fresh 64 1 0 (rom_bits_from 0 (rom_no onewire_search_start))
                (map addr_bits addrs) 0 ltac:(lia) (all_len_addr_bits addrs))
      as (p & rest & HE & W).
    { intros N. apply Eaddrs. apply (f_equal (@length _)) in N.
      rewrite length_map in N. exact N. }
    assert (Hp : In p (map addr_bits addrs)).
    { apply enum_in_addrs. rewrite HE. left. reflexivity. }
    destruct (sim_search_next_addr onewire_search_start s p
                (lzp 64 1 (map addr_bits addrs) p 0) eq_refl Hlen0 Hby0 Hidle Hroms Hp W)
      as (r' & s' & Hq' & Hlen' & Hby' & E & I & V).
    assert (Hn : length addrs = S (length rest)).
    { pose proof (enum_perm 64 (map addr_bits addrs) (all_len_addr_bits addrs)
                    (NoDup_addr_bits addrs addrs_range addrs_distinct)) as P.
      apply Permutation_length in P. rewrite HE, length_map in P. cbn in P. lia. }
    rewrite Hn.
    change (search_all ONEWIRE_NONE (S (S (length rest))) onewire_search_start pin s)
      with (match onewire_search_next ONEWIRE_NONE onewire_search_start pin s with
            | None => None
            | Some (addr, search', h') =>
                match search_all ONEWIRE_NONE (S (length rest)) search' pin h' with
                | None => None
                | Some (l, search'', h'') => Some (addr :: l, search'', h'')
                end
            end).
    rewrite E.
    destruct (search_rest rest [] p r' (lzp 64 1 (map addr_bits addrs) p 0) s'
                HE Hq' Hlen' Hby' eq_refl I V)
      as (search2 & s2 & E2).
    rewrite E2, HE. do 2 eexists. reflexivity.
Qed.

End Enumeration.

Lemma bus_idle_attach (tm : slave_timing) (roms : list Z) :
  timing_ok tm -> bus_idle (attach tm roms).
Proof.
  intros Htm. split; [reflexivity|]. cbn [attach slaves now].
  apply Forall_forall. intros d Hd. apply in_map_iff in Hd.
  destruct Hd as (r & <- & _). cbn [timing low_until]. split; [exact Htm|lia].
Qed.

Lemma typical_timing_ok : timing_ok typical_timing.
Proof. unfold timing_ok, typical_timing. cbn. lia. Qed.

(** C1, as the code has it: take a line that carries slaves with distinct
    64-bit addresses, none of which has a zero family code, each slave timed
    anywhere within the data-sheet windows, and a search state fresh from
    [onewire_search_start].  Then one call of [onewire_search_next] more than
    there are slaves all return, and what they return is the addresses in the
    order of the search, each once, followed by [ONEWIRE_NONE]. *)
Theorem search_enumerates_every_address
  (ONEWIRE_NONE pin : Z) (addrs : list Z) (s : sim) :
  NoDup addrs -> Forall is_addr addrs -> Forall has_family addrs ->
  bus_idle s -> map rom (slaves s) = addrs ->
  exists search' s',
    search_all ONEWIRE_NONE (S (length addrs)) onewire_search_start pin s
    = Some (search_order addrs ++ [ONEWIRE_NONE], search', s')
    /\ Permutation (search_order addrs) addrs
    /\ NoDup (search_order addrs).
Proof.
  intros Hnd Hrange Hfam Hidle Hroms.
  assert (Hroms' : map fst (bus_view s) = addrs)
    by (unfold bus_view; rewrite map_map; exact Hroms).
  destruct (search_all_from_start ONEWIRE_NONE pin addrs Hnd Hrange Hfam s Hidle Hroms')
    as (search' & s' & E).
  pose proof (search_order_perm addrs Hrange Hnd) as P.
  exists search', s'. split; [exact E|]. split; [exact P|].
  apply (Permutation_NoDup (Permutation_sym P) Hnd).
Qed.

Lemma search_enumerates_every_address_witness :
  let addrs := [1099511627816; 40; 16] in
  let s := attach typical_timing addrs in
  NoDup addrs /\ Forall is_addr addrs /\ Forall has_family addrs
  /\ bus_idle s /\ map rom (slaves s) = addrs
  /\ exists search' s',
       search_all none_value (S (length addrs)) onewire_search_start 5 s
       = Some (search_order addrs ++ [none_value], search', s')
       /\ Permutation (search_order addrs) addrs
       /\ NoDup (search_order addrs).
Proof.
  cbv zeta.
  assert (Hnd : NoDup [1099511627816; 40; 16]).
  { repeat constructor; cbn; intuition discriminate. }
  assert (Hrange : Forall is_addr [1099511627816; 40; 16]).
  { repeat constructor; unfold is_addr; lia. }
  assert (Hfam : Forall has_family [1099511627816; 40; 16]).
  { repeat constructor; unfold has_family; cbn; discriminate. }
  pose proof (bus_idle_attach typical_timing [1099511627816; 40; 16] typical_timing_ok)
    as Hidle.
  assert (Hroms : map rom (slaves (attach typical_timing [1099511627816; 40; 16]))
                  = [1099511627816; 40; 16]) by reflexivity.
  split; [exact Hnd|]. split; [exact Hrange|]. split; [exact Hfam|].
  split; [exact Hidle|]. split; [exact Hroms|].
  exact (search_enumerates_every_address none_value 5 _ _ Hnd Hrange Hfam Hidle Hroms).
Defined.

(** C1 as the specification words it does not hold: a slave whose address
    has family code 0 (here with a correct CRC byte, 0x37, over its first
    seven bytes) is alone on the line; the first call walks all 64 bits, finds
    byte 0 of the ROM buffer zero and returns [ONEWIRE_NONE], and so does the
    second: the address is never returned. *)
Lemma search_misses_family_zero :
  let a := 3963167672086036736 in
  let s := attach typical_timing [a] in
  NoDup [a] /\ is_addr a /\ bus_idle s /\ map rom (slaves s) = [a]
  /\ Crc8Table.onewire_crc8 [0; 1; 0; 0; 0; 0; 0] 7 = Some 55
  /\ a = 256 + 55 * 2 ^ 56
  /\ ~ (exists order search' s',
          search_all none_value 2 onewire_search_start 5 s
          = Some (order ++ [none_value], search', s')
          /\ Permutation order [a]).
Proof.
  cbv zeta.
  split; [repeat constructor; cbn; tauto|].
  split; [unfold is_addr; lia|].
  split; [apply bus_idle_attach, typical_timing_ok|].
  split; [reflexivity|]. split; [reflexivity|]. split; [reflexivity|].
  intros (order & search' & s' & E & P).
  apply Permutation_sym, Permutation_length_1_inv in P. subst order.
  vm_compute in E. discriminate.
Qed.

(** ** A reset state behaves like a fresh one *)

Lemma rom_ext (ra rb : list Z) :
  length ra = 8%nat -> length rb = 8%nat ->
  Forall is_byte ra -> Forall is_byte rb ->
  (forall i, (i < 64)%nat -> rom_bit ra i = rom_bit rb i) ->
  ra = rb.
Proof.
  intros La Lb Ba Bb Hbits.
  apply (nth_ext ra rb 0 0); [congruence|]. intros j Hj. rewrite La in Hj.
  assert (Hja : is_byte (nth j ra 0)).
  { rewrite Forall_forall in Ba. apply Ba, nth_In. lia. }
  assert (Hjb : is_byte (nth j rb 0)).
  { rewrite Forall_forall in Bb. apply Bb, nth_In. lia. }
  unfold is_byte in *.
  apply Z.bits_inj'. intros m Hm.
  destruct (Z.lt_ge_cases m 8) as [Hlt|Hge].
  - specialize (Hbits (8 * j + Z.to_nat m)%nat ltac:(lia)).
    unfold rom_bit, aget in Hbits.
    replace (Z.of_nat (8 * j + Z.to_nat m) / 8) with (Z.of_nat j) in Hbits
      by (Z.div_mod_to_equations; lia).
    replace (Z.of_nat (8 * j + Z.to_nat m) mod 8) with m in Hbits
      by (Z.div_mod_to_equations; lia).
    rewrite Nat2Z.id in Hbits. exact Hbits.
  - rewrite <- (Z.mod_small (nth j ra 0) (2 ^ 8)) by lia.
    rewrite <- (Z.mod_small (nth j rb 0) (2 ^ 8)) by lia.
    rewrite !Z.mod_pow2_bits_high by lia. reflexivity.
Qed.

Lemma chosen_fresh (k : nat) (id_bit cmp_id_bit : Z) (l : search_locals)
  (search : onewire_search_t) :
  counters_at k l -> last_discrepancy search = 0 ->
  chosen id_bit cmp_id_bit l search
  = if negb (id_bit =? cmp_id_bit) then (id_bit, last_zero l) else (0, id_bit_number l).
Proof.
  intros (Hid & _ & _) Hld. unfold chosen. rewrite Hld, Hid.
  destruct (Z.ltb_spec (Z.of_nat k + 1) 0) as [|_]; [lia|].
  destruct (Z.eqb_spec (Z.of_nat k + 1) 0) as [|_]; [lia|].
  reflexivity.
Qed.

Section FreshStates.
Context {hw : Type} `{Platform hw}.
Variable ONEWIRE_NONE : Z.

Lemma search_step_break (pin : Z) (l : search_locals) (search : onewire_search_t)
  (h h1 h2 : hw) (id_bit cmp_id_bit : Z) :
  onewire_read_bit pin h = (id_bit, h1) ->
  onewire_read_bit pin h1 = (cmp_id_bit, h2) ->
  (id_bit =? 1) && (cmp_id_bit =? 1) = true ->
  search_step pin l search h = (true, l, search, h2).
Proof.
  intros E1 E2 Hb. unfold search_step, bind. rewrite E1, E2, Hb. reflexivity.
Qed.

(** One pass from two states with [last_discrepancy] 0: the same bits go
    over the line and the same bit is stored. *)
Lemma search_step_fresh (pin : Z) (k : nat) (l : search_locals)
  (a b : onewire_search_t) (h : hw) :
  (k < 64)%nat -> counters_at k l ->
  last_discrepancy a = 0 -> last_discrepancy b = 0 ->
  exists (brk : bool) l' dir h',
    search_step pin l a h
    = (brk, l', if brk then a else set_rom_no a (rom_after k dir (rom_no a)), h')
    /\ search_step pin l b h
       = (brk, l', if brk then b else set_rom_no b (rom_after k dir (rom_no b)), h')
    /\ (brk = false -> counters_at (S k) l'
                       /\ (rom_byte_number l' <? 8) = (S k <? 64)%nat).
Proof.
  intros Hk Hc Ha Hb.
  destruct (onewire_read_bit pin h) as [id_bit h1] eqn:E1.
  destruct (onewire_read_bit pin h1) as [cmp_id_bit h2] eqn:E2.
  destruct ((id_bit =? 1) && (cmp_id_bit =? 1)) eqn:Hbrk.
  - exists true, l, false, h2.
    rewrite (search_step_break pin l a h h1 h2 _ _ E1 E2 Hbrk).
    rewrite (search_step_break pin l b h h1 h2 _ _ E1 E2 Hbrk).
    split; [reflexivity|]. split; [reflexivity|]. discriminate.
  - pose proof (chosen_fresh k id_bit cmp_id_bit l a Hc Ha) as Ca.
    pose proof (chosen_fresh k id_bit cmp_id_bit l b Hc Hb) as Cb.
    destruct (onewire_write_bit pin (fst (chosen id_bit cmp_id_bit l a)) h2)
      as [[] h3] eqn:Ew.
    assert (Ew' : onewire_write_bit pin (fst (chosen id_bit cmp_id_bit l b)) h2 = (tt, h3))
      by (rewrite Cb, <- Ca; exact Ew).
    rewrite (search_step_run pin l a h h1 h2 h3 _ _ E1 E2 Hbrk Ew).
    rewrite (search_step_run pin l b h h1 h2 h3 _ _ E1 E2 Hbrk Ew').
    rewrite Cb, <- Ca.
    destruct (chosen id_bit cmp_id_bit l a) as [sd lz]. cbn [fst snd].
    destruct Hc as (Hid & Hrbn & Hmask). rewrite Hid, Hrbn, Hmask.
    destruct (counters_advance k Hk) as (A1 & A2 & A3). cbv zeta in A2.
    exists false. eexists. exists (sd =? 1). eexists.
    split; [|split].
    + unfold rom_after. destruct (sd =? 1); reflexivity.
    + unfold rom_after. destruct (sd =? 1); reflexivity.
    + intros _. unfold counters_at.
      cbn [id_bit_number rom_byte_number rom_byte_mask].
      destruct (u8 (Z.shiftl (2 ^ (Z.of_nat k mod 8)) 1) =? 0);
        apply pair_equal_spec in A2; destruct A2 as [A2 A2'];
        rewrite A2; auto.
Qed.

Lemma search_loop_fresh (pin : Z) (fuel : nat) :
  forall (k : nat) (l : search_locals) (a b : onewire_search_t) (h : hw),
  (k < 64)%nat -> (64 - k <= fuel)%nat -> counters_at k l ->
  last_discrepancy a = 0 -> last_discrepancy b = 0 ->
  length (rom_no a) = 8%nat -> length (rom_no b) = 8%nat ->
  (forall i, (i < k)%nat -> rom_bit (rom_no a) i = rom_bit (rom_no b) i) ->
  exists brk l' a' b' h',
    search_loop fuel pin l a h = Some (brk, l', a', h')
    /\ search_loop fuel pin l b h = Some (brk, l', b', h')
    /\ (brk = false ->
        forall i, (i < 64)%nat -> rom_bit (rom_no a') i = rom_bit (rom_no b') i).
Proof.
  induction fuel as [|fuel IH]; intros k l a b h Hk Hf Hc Ha Hb La Lb Hbits; [lia|].
  destruct (search_step_fresh pin k l a b h Hk Hc Ha Hb)
    as (brk & l1 & dir & h1 & Ea & Eb & Hcont).
  cbn [search_loop]. rewrite Ea, Eb. destruct brk.
  - do 5 eexists. split; [reflexivity|]. split; [reflexivity|]. discriminate.
  - destruct (Hcont eq_refl) as (Hc1 & Hlt). rewrite Hlt.
    assert (Hbits1 : forall i, (i < S k)%nat ->
              rom_bit (rom_after k dir (rom_no a)) i
              = rom_bit (rom_after k dir (rom_no b)) i).
    { intros i Hi. rewrite !rom_bit_after by (auto; lia).
      destruct (Nat.eqb_spec i k); [reflexivity|]. apply Hbits. lia. }
    destruct (S k <? 64)%nat eqn:Hk1.
    + apply Nat.ltb_lt in Hk1.
      apply (IH (S k)); auto; try lia; cbn [rom_no set_rom_no];
        rewrite ?length_rom_after; auto.
    + apply Nat.ltb_ge in Hk1.
      do 5 eexists. split; [reflexivity|]. split; [reflexivity|].
      intros _ i Hi. cbn [rom_no set_rom_no]. apply Hbits1. lia.
Qed.

Lemma search_wf_reset (search : onewire_search_t) :
  search_wf search -> like_fresh (Search (rom_no search) 0 false).
Proof. intros W. repeat split; apply W. Qed.

(** One call from two states that are the same or both like a fresh one:
    the same value is returned, the board is left the same, and the states
    are again the same or both like a fresh one. *)
Lemma search_next_same (a b : onewire_search_t) (pin : Z) (h : hw) :
  same_search a b ->
  exists r a' b' h',
    onewire_search_next ONEWIRE_NONE a pin h = Some (r, a', h')
    /\ onewire_search_next ONEWIRE_NONE b pin h = Some (r, b', h')
    /\ same_search a' b'.
Proof.
  intros [<-|[(Hlda & Hfa & La & Ba) (Hldb & Hfb & Lb & Bb)]].
  - destruct (onewire_search_next_cases ONEWIRE_NONE a pin h) as (r & a' & h' & E & _).
    exists r, a', a', h'. split; [exact E|]. split; [exact E|]. left. reflexivity.
  - destruct (onewire_reset pin h) as [r h1] eqn:Hr.
    destruct (Z.eq_dec r 0) as [->|Hr0].
    + rewrite (onewire_search_next_no_presence ONEWIRE_NONE a pin h h1 Hfa Hr).
      rewrite (onewire_search_next_no_presence ONEWIRE_NONE b pin h h1 Hfb Hr).
      do 4 eexists. split; [reflexivity|]. split; [reflexivity|].
      right. split; apply search_wf_reset; split; assumption.
    + destruct (onewire_write pin 240 h1) as [[] h2] eqn:Hw.
      assert (Hc0 : counters_at 0 (Locals 1 0 0 1)) by (unfold counters_at; cbn; auto).
      destruct (search_loop_fresh pin 64 0 (Locals 1 0 0 1) a b h2 ltac:(lia) ltac:(lia)
                  Hc0 Hlda Hldb La Lb ltac:(intros; lia))
        as (brk & l & a1 & b1 & h3 & Ea & Eb & Hbits).
      destruct (search_loop_spec pin 64 0 (Locals 1 0 0 1) a h2 ltac:(lia) ltac:(lia)
                  Hc0 ltac:(cbn; lia))
        as (? & ? & ? & ? & Ea' & _ & _ & Ba1 & La1 & _).
      destruct (search_loop_spec pin 64 0 (Locals 1 0 0 1) b h2 ltac:(lia) ltac:(lia)
                  Hc0 ltac:(cbn; lia))
        as (? & ? & ? & ? & Eb' & _ & _ & Bb1 & Lb1 & _).
      rewrite Ea in Ea'. rewrite Eb in Eb'.
      injection Ea' as <- <- <- <-. injection Eb' as <- <- <- <-.
      change (search_loop 64 pin (Locals 1 0 0 1) a h2) with (search_walk pin a h2) in Ea.
      change (search_loop 64 pin (Locals 1 0 0 1) b h2) with (search_walk pin b h2) in Eb.
      rewrite (onewire_search_next_walk ONEWIRE_NONE a pin r h h1 h2 h3 brk l a1
                 Hfa Hr Hr0 Hw Ea).
      rewrite (onewire_search_next_walk ONEWIRE_NONE b pin r h h1 h2 h3 brk l b1
                 Hfb Hr Hr0 Hw Eb).
      destruct brk; cbn [orb].
      * do 4 eexists. split; [reflexivity|]. split; [reflexivity|].
        right. split; repeat split; cbn [rom_no]; auto; try congruence.
      * assert (Erom : rom_no a1 = rom_no b1).
        { apply rom_ext; auto; try congruence. }
        rewrite <- Erom.
        destruct (aget (rom_no a1) 0 =? 0); cbv zeta;
          do 4 eexists; (split; [reflexivity|]); (split; [reflexivity|]);
          left; reflexivity.
Qed.

(** Hence any number of calls. *)
Lemma search_all_same (n : nat) :
  forall (a b : onewire_search_t) (pin : Z) (h : hw),
  same_search a b ->
  exists rs a' b' h',
    search_all ONEWIRE_NONE n a pin h = Some (rs, a', h')
    /\ search_all ONEWIRE_NONE n b pin h = Some (rs, b', h').
Proof.
  induction n as [|n IH]; intros a b pin h S.
  - do 4 eexists. split; reflexivity.
  - destruct (search_next_same a b pin h S) as (r & a1 & b1 & h1 & Ea & Eb & S1).
    destruct (IH a1 b1 pin h1 S1) as (rs & a2 & b2 & h2 & Ea2 & Eb2).
    cbn [search_all]. rewrite Ea, Eb, Ea2, Eb2.
    do 4 eexists. split; reflexivity.
Qed.

End FreshStates.

Lemma like_fresh_start : like_fresh onewire_search_start.
Proof.
  repeat split; try reflexivity.
  repeat constructor; unfold is_byte; lia.
Qed.

(** C8: on any board, a call of [onewire_search_next] on a state whose ROM
    buffer holds eight bytes returns either [ONEWIRE_NONE], with
    [last_discrepancy] 0 and [last_device_found] false afterwards, or the
    address assembled from the ROM buffer, whose low byte (the family code) is
    then not zero.  The first is what happens when the walk ended in [break] or
    left a zero in byte 0 of the ROM buffer.  The state it leaves is as good as
    a fresh one: the ROM buffer keeps what the walk wrote, but any number of
    further calls return from it what they return from the state of
    [onewire_search_start]. *)
Theorem search_next_failure_resets
  {hw : Type} `{Platform hw} (ONEWIRE_NONE : Z)
  (search : onewire_search_t) (pin : Z) (h : hw) :
  search_wf search ->
  (exists r search' h',
     onewire_search_next ONEWIRE_NONE search pin h = Some (r, search', h')
     /\ ((r = ONEWIRE_NONE /\ last_discrepancy search' = 0
          /\ last_device_found search' = false
          /\ forall n pin' h1,
               exists rs a b h2,
                 search_all ONEWIRE_NONE n search' pin' h1 = Some (rs, a, h2)
                 /\ search_all ONEWIRE_NONE n onewire_search_start pin' h1
                    = Some (rs, b, h2))
         \/ (r = search_addr search' /\ Z.land r 255 = aget (rom_no search') 0
             /\ Z.land r 255 <> 0)))
  /\ (forall r h1 h2 brk l search' h3,
        last_device_found search = false ->
        onewire_reset pin h = (r, h1) -> r <> 0 ->
        onewire_write pin 240 h1 = (tt, h2) ->
        search_walk pin search h2 = Some (brk, l, search', h3) ->
        brk = true \/ aget (rom_no search') 0 = 0 ->
        onewire_search_next ONEWIRE_NONE search pin h
        = Some (ONEWIRE_NONE, Search (rom_no search') 0 false, h3)).
Proof.
  intros [Hlen Hb]. split.
  - destruct (onewire_search_next_cases ONEWIRE_NONE search pin h)
      as (r & s' & h' & E & Hby & Hlen' & [(Hr & Hld & Hldf)|(Hr & Hfam & _ & _)]);
      exists r, s', h'; (split; [exact E|]); [left|right].
    + split; [exact Hr|]. split; [exact Hld|]. split; [exact Hldf|].
      intros n pin' h1. apply search_all_same. right.
      split; [|exact like_fresh_start].
      split; [exact Hld|]. split; [exact Hldf|]. split; [congruence|auto].
    + assert (Z.land r 255 = aget (rom_no s') 0) as Hl
        by (rewrite Hr; apply search_addr_family, aget_is_byte, Hby, Hb).
      split; [exact Hr|]. split; [exact Hl|]. rewrite Hl. exact Hfam.
  - intros r h1 h2 brk l search' h3 Hf Hr Hr0 Hw Hwalk Hfail.
    rewrite (onewire_search_next_walk ONEWIRE_NONE search pin r h h1 h2 h3 brk l search'
               Hf Hr Hr0 Hw Hwalk).
    destruct Hfail as [->|Hz]; [reflexivity|].
    rewrite Hz. cbn [Z.eqb]. rewrite orb_true_r. reflexivity.
Qed.

Lemma search_next_failure_resets_witness :
  search_wf onewire_search_start /\
  onewire_search_next none_value onewire_search_start 5 ([true; false] : scripted)
  = Some (none_value, Search [0; 0; 0; 0; 0; 0; 0; 0] 0 false, []).
Proof.
  assert (Hw : search_wf onewire_search_start)
    by (split; [reflexivity|repeat constructor; unfold is_byte; lia]).
  split; [exact Hw|].
  refine (proj2 (search_next_failure_resets none_value onewire_search_start 5
                   ([true; false] : scripted) Hw)
            1 [] [] true (Locals 1 0 0 1) onewire_search_start []
            eq_refl eq_refl _ eq_refl eq_refl (or_introl eq_refl)).
  discriminate.
Defined.

(** C2, as the code has it: called on a state whose [last_device_found] is
    set, [onewire_search_next] returns [ONEWIRE_NONE] and leaves the board as
    it was (no call reaches it: on a recording board the trace is the same),
    and it clears the state: [last_discrepancy] is 0 and [last_device_found]
    is false afterwards.  The state no longer reads as exhausted: if its ROM
    buffer holds eight bytes, any number of further calls return from it what
    they return from the state of [onewire_search_start]. *)
Theorem search_next_exhausted_returns_none
  {hw : Type} `{Platform hw} (ONEWIRE_NONE : Z)
  (search : onewire_search_t) (pin : Z) (h : hw) :
  last_device_found search = true ->
  onewire_search_next ONEWIRE_NONE search pin h
  = Some (ONEWIRE_NONE, Search (rom_no search) 0 false, h)
  /\ (search_wf search ->
      forall n pin' h1,
      exists rs a b h2,
        search_all ONEWIRE_NONE n (Search (rom_no search) 0 false) pin' h1
        = Some (rs, a, h2)
        /\ search_all ONEWIRE_NONE n onewire_search_start pin' h1 = Some (rs, b, h2)).
Proof.
  intros Hf. split; [apply onewire_search_next_exhausted; exact Hf|].
  intros Hw n pin' h1. apply search_all_same. right.
  split; [apply search_wf_reset; exact Hw|exact like_fresh_start].
Qed.

Lemma search_next_exhausted_returns_none_witness :
  let search := Search [40; 1; 2; 3; 4; 5; 6; 7] 0 true in
  let h := Logged ([] : scripted) [] in
  last_device_found search = true /\ search_wf search
  /\ onewire_search_next none_value search 5 h
     = Some (none_value, Search [40; 1; 2; 3; 4; 5; 6; 7] 0 false, h)
  /\ forall n pin' (h1 : logged scripted),
     exists rs a b h2,
       search_all none_value n (Search [40; 1; 2; 3; 4; 5; 6; 7] 0 false) pin' h1
       = Some (rs, a, h2)
       /\ search_all none_value n onewire_search_start pin' h1 = Some (rs, b, h2).
Proof.
  cbv zeta.
  assert (Hw : search_wf (Search [40; 1; 2; 3; 4; 5; 6; 7] 0 true))
    by (split; [reflexivity|repeat constructor; unfold is_byte; lia]).
  pose proof (search_next_exhausted_returns_none none_value
                (Search [40; 1; 2; 3; 4; 5; 6; 7] 0 true) 5
                (Logged ([] : scripted) []) eq_refl) as [E F].
  split; [reflexivity|]. split; [exact Hw|]. split; [exact E|]. exact (F Hw).
Defined.

(** C2 as the specification words it does not hold: the call on an exhausted
    state does not leave [last_device_found] set. *)
Lemma search_next_exhausted_not_sticky :
  last_device_found (Search [40; 1; 2; 3; 4; 5; 6; 7] 0 true) = true /\
  ~ (exists r search' h',
       onewire_search_next none_value (Search [40; 1; 2; 3; 4; 5; 6; 7] 0 true) 5
         (Logged ([] : scripted) []) = Some (r, search', h')
       /\ last_device_found search' = true).
Proof.
  split; [reflexivity|].
  intros (r & s' & h' & E & Hf). vm_compute in E.
  injection E as <- <- <-. discriminate.
Qed.

(** ** Whole bytes on any board *)

Lemma land_pow2_eqb (v m : Z) :
  0 <= m -> (Z.land (2 ^ m) v =? 0) = negb (Z.testbit v m).
Proof.
  intros Hm. rewrite Z.land_comm.
  pose proof (land_pow2_gtb v m Hm) as G.
  assert (0 <= Z.land v (2 ^ m)) by (apply Z.land_nonneg; right; lia).
  destruct (Z.testbit v m); cbn [negb].
  - apply Z.eqb_neq. apply Z.gtb_lt in G. lia.
  - apply Z.eqb_eq. destruct (Z.gtb_spec (Z.land v (2 ^ m)) 0); [discriminate|lia].
Qed.

Section ByteTraces.
Context {hw : Type} `{Platform hw}.

Lemma onewire_write_loop_trace (pin v : Z) (n : nat) :
  forall (k : nat) (s : logged hw),
  trace (snd (onewire_write_loop (map (fun i => 2 ^ Z.of_nat i) (seq k n)) pin v s))
  = trace s ++ flat_map (fun b : bool => write_bit_trace pin (Z.b2z b))
                        (map (fun i => Z.testbit v (Z.of_nat i)) (seq k n)).
Proof.
  induction n as [|n IH]; intros k s; cbn [seq map onewire_write_loop flat_map].
  - cbn. rewrite app_nil_r. reflexivity.
  - unfold bind.
    destruct (onewire_write_bit pin _ s) as [[] s1] eqn:E.
    rewrite IH. apply (f_equal snd) in E. cbn [snd] in E. rewrite <- E.
    rewrite onewire_write_bit_trace, <- app_assoc.
    rewrite land_pow2_eqb by lia. rewrite negb_involutive.
    destruct (Z.testbit v (Z.of_nat k)); reflexivity.
Qed.

Lemma onewire_write_trace (pin v : Z) (s : logged hw) :
  trace (snd (onewire_write pin v s)) = trace s ++ write_byte_trace pin v.
Proof. exact (onewire_write_loop_trace pin v 8 0 s). Qed.

Lemma lor_pow2_add (r k : Z) :
  0 <= k -> 0 <= r < 2 ^ k -> Z.lor r (2 ^ k) = r + 2 ^ k.
Proof.
  intros Hk Hr.
  assert (L : Z.land r (2 ^ k) = 0).
  { apply Z.bits_inj'. intros n Hn. rewrite Z.land_spec, Z.bits_0.
    rewrite Z.pow2_bits_eqb by lia.
    destruct (Z.eqb_spec k n) as [<-|_]; [|apply andb_false_r].
    rewrite andb_true_r.
    destruct (Z.eq_dec r 0) as [->|Hnz]; [apply Z.bits_0|].
    apply Z.bits_above_log2; [lia|]. apply Z.log2_lt_pow2; lia. }
  rewrite <- Z.lxor_lor by exact L. symmetry. apply Z.add_nocarry_lxor. exact L.
Qed.

Lemma onewire_read_loop_trace (pin : Z) (n : nat) :
  forall (k : nat) (r : Z) (s : logged hw),
  0 <= r < 2 ^ Z.of_nat k ->
  exists lvls,
    length lvls = n
    /\ fst (onewire_read_loop (map (fun i => 2 ^ Z.of_nat i) (seq k n)) pin r s)
       = r + 2 ^ Z.of_nat k * bits_value lvls
    /\ trace (snd (onewire_read_loop (map (fun i => 2 ^ Z.of_nat i) (seq k n)) pin r s))
       = trace s ++ read_slots_trace pin lvls.
Proof.
  induction n as [|n IH]; intros k r s Hr; cbn [seq map onewire_read_loop].
  - exists []. cbn. rewrite app_nil_r. split; [reflexivity|]. split; [lia|reflexivity].
  - unfold bind.
    destruct (onewire_read_bit_trace pin s) as (lvl & E & T).
    rewrite E.
    set (s1 := snd (onewire_read_bit pin s)) in *.
    assert (Hr' : 0 <= (if negb (Z.b2z lvl =? 0) then Z.lor r (2 ^ Z.of_nat k) else r)
                  < 2 ^ Z.of_nat (S k)).
    { rewrite Nat2Z.inj_succ, Z.pow_succ_r by lia.
      destruct lvl; cbn [Z.b2z Z.eqb negb]; [|lia].
      rewrite lor_pow2_add by lia. lia. }
    destruct (IH (S k) _ s1 Hr') as (lvls & Hl & Hv & Ht).
    exists (lvl :: lvls). split; [cbn; lia|]. split.
    + rewrite Hv. cbn [bits_value].
      rewrite Nat2Z.inj_succ, Z.pow_succ_r by lia.
      destruct lvl; cbn [Z.b2z Z.eqb negb]; [|lia].
      rewrite lor_pow2_add by lia. lia.
    + rewrite Ht, T. unfold read_slots_trace. cbn [flat_map].
      rewrite <- app_assoc. reflexivity.
Qed.

Lemma onewire_read_trace (pin : Z) (s : logged hw) :
  exists lvls,
    length lvls = 8%nat
    /\ fst (onewire_read pin s) = bits_value lvls
    /\ trace (snd (onewire_read pin s)) = trace s ++ read_slots_trace pin lvls.
Proof.
  destruct (onewire_read_loop_trace pin 8 0 0 s ltac:(cbn; lia)) as (lvls & Hl & Hv & Ht).
  exists lvls. split; [exact Hl|]. split; [|exact Ht].
  unfold onewire_read. change (bit_masks 9 1) with (map (fun i => 2 ^ Z.of_nat i) (seq 0 8)).
  rewrite Hv. cbn [Z.of_nat]. lia.
Qed.

End ByteTraces.

Lemma delay_total_write_slots (pin : Z) (bits : list bool) :
  delay_total (flat_map (fun b : bool => write_bit_trace pin (Z.b2z b)) bits)
  = 70 * Z.of_nat (length bits) - 5 * count_ones bits.
Proof.
  unfold count_ones.
  induction bits as [|b bits IH]; [reflexivity|].
  cbn [flat_map]. rewrite delay_total_app, IH.
  destruct b; cbn [filter length Z.b2z]; rewrite ?Nat2Z.inj_succ.
  - change (delay_total (write_bit_trace pin 1)) with 65. lia.
  - change (delay_total (write_bit_trace pin 0)) with 70. lia.
Qed.

Lemma delay_total_read_slots (pin : Z) (lvls : list bool) :
  delay_total (read_slots_trace pin lvls) = 66 * Z.of_nat (length lvls).
Proof.
  unfold read_slots_trace.
  induction lvls as [|b lvls IH]; [reflexivity|].
  cbn [flat_map]. rewrite delay_total_app, IH.
  cbn [length]. rewrite Nat2Z.inj_succ.
  unfold read_bit_trace; cbn [delay_total]; lia.
Qed.

Lemma bits_value_range (p : list bool) : 0 <= bits_value p < 2 ^ Z.of_nat (length p).
Proof.
  induction p as [|b p IH]; cbn [bits_value length].
  - cbn. lia.
  - rewrite Nat2Z.inj_succ, Z.pow_succ_r by lia. destruct b; cbn [Z.b2z]; lia.
Qed.

(** X1: on every board, [onewire_write] makes eight write slots and nothing
    else, one for each of bits 0 to 7 of the value in that order; the delays
    of the call add up to 560 microseconds less 5 for every bit that is
    set. *)
Theorem onewire_write_sends_lsb_first
  {hw : Type} `{Platform hw} (pin v : Z) (s : logged hw) :
  trace (snd (onewire_write pin v s))
  = trace s ++ flat_map (fun b : bool => write_bit_trace pin (Z.b2z b)) (byte_bits v)
  /\ delay_total (trace (snd (onewire_write pin v s)))
     = delay_total (trace s) + 560 - 5 * count_ones (byte_bits v).
Proof.
  pose proof (onewire_write_trace pin v s) as T. unfold write_byte_trace in T.
  split; [exact T|].
  rewrite T, delay_total_app, delay_total_write_slots.
  unfold byte_bits. rewrite length_map, length_seq. lia.
Qed.

(** X2: on every board, [onewire_read] makes eight read slots and nothing
    else, and returns the byte whose bit [k] is the level sampled in slot
    [k]; the delays of the call add up to 528 microseconds. *)
Theorem onewire_read_assembles_lsb_first
  {hw : Type} `{Platform hw} (pin : Z) (s : logged hw) :
  exists lvls,
    length lvls = 8%nat
    /\ trace (snd (onewire_read pin s)) = trace s ++ flat_map (read_bit_trace pin) lvls
    /\ fst (onewire_read pin s) = bits_value lvls
    /\ is_byte (fst (onewire_read pin s))
    /\ delay_total (trace (snd (onewire_read pin s))) = delay_total (trace s) + 528.
Proof.
  destruct (onewire_read_trace pin s) as (lvls & Hl & Hv & Ht).
  exists lvls. split; [exact Hl|]. split; [exact Ht|]. split; [exact Hv|]. split.
  - rewrite Hv. pose proof (bits_value_range lvls) as R. rewrite Hl in R.
    unfold is_byte. change (2 ^ Z.of_nat 8) with 256 in R. exact R.
  - rewrite Ht, delay_total_app, delay_total_read_slots, Hl. lia.
Qed.

(** ** ROM commands *)

Lemma byte_bits_low (x : Z) :
  byte_bits (Z.land x 255) = map (fun i => Z.testbit x (Z.of_nat i)) (seq 0 8).
Proof.
  unfold byte_bits. apply map_ext_in. intros i Hi. apply in_seq in Hi.
  change 255 with (Z.ones 8). rewrite Z.land_ones by lia.
  apply Z.mod_pow2_bits_low. lia.
Qed.

Lemma seq_from (k n : nat) : seq k n = map (fun i => (k + i)%nat) (seq 0 n).
Proof.
  induction k as [|k IH].
  - symmetry. apply map_id.
  - rewrite <- seq_shift, IH, map_map. reflexivity.
Qed.

Lemma testbits_shiftr (x : Z) (k n : nat) :
  map (fun i => Z.testbit (Z.shiftr x (Z.of_nat k)) (Z.of_nat i)) (seq 0 n)
  = map (fun i => Z.testbit x (Z.of_nat i)) (seq k n).
Proof.
  rewrite (seq_from k n), map_map. apply map_ext. intros i.
  rewrite Z.shiftr_spec by lia. f_equal. lia.
Qed.

Section RomCommands.
Context {hw : Type} `{Platform hw}.

Lemma select_loop_trace (pin : Z) (n : nat) :
  forall (rom : Z) (s : logged hw),
  trace (snd (select_loop n pin rom s))
  = trace s ++ flat_map (fun b : bool => write_bit_trace pin (Z.b2z b))
                        (map (fun i => Z.testbit rom (Z.of_nat i)) (seq 0 (8 * n))).
Proof.
  induction n as [|n IH]; intros rom s.
  - cbn. rewrite app_nil_r. reflexivity.
  - cbn [select_loop]. unfold bind.
    destruct (onewire_write pin (Z.land rom 255) s) as [[] s1] eqn:E.
    apply (f_equal snd) in E. cbn [snd] in E.
    rewrite IH, <- E, onewire_write_trace, <- app_assoc. f_equal.
    unfold write_byte_trace. rewrite byte_bits_low.
    replace (8 * S n)%nat with (8 + 8 * n)%nat by lia.
    rewrite seq_app, map_app, flat_map_app. f_equal. f_equal.
    exact (testbits_shiftr rom 8 (8 * n)).
Qed.

Lemma onewire_select_sends_address_trace (pin rom : Z) (s : logged hw) :
  trace (snd (onewire_select pin rom s))
  = trace s
    ++ flat_map (fun b : bool => write_bit_trace pin (Z.b2z b))
                (byte_bits 85 ++ addr_bits rom).
Proof.
  unfold onewire_select, bind.
  destruct (onewire_write pin 85 s) as [[] s1] eqn:E.
  apply (f_equal snd) in E. cbn [snd] in E.
  rewrite select_loop_trace, <- E, onewire_write_trace, <- app_assoc.
  rewrite flat_map_app. reflexivity.
Qed.

End RomCommands.

(** X3: on every board, [onewire_select] makes 72 write slots and nothing
    else: the eight bits of the Match ROM command 0x55, bit 0 first, and
    then bits 0 to 63 of the address in that order, so byte 0 of the address
    goes first. *)
Theorem onewire_select_sends_address
  {hw : Type} `{Platform hw} (pin rom : Z) (s : logged hw) :
  trace (snd (onewire_select pin rom s))
  = trace s
    ++ flat_map (fun b : bool => write_bit_trace pin (Z.b2z b))
                (byte_bits 85 ++ addr_bits rom).
Proof. apply onewire_select_sends_address_trace. Qed.

(** ** Buffers *)

Lemma skipn_nth_error {X : Type} (l : list X) (i : nat) (x : X) :
  nth_error l i = Some x -> skipn i l = x :: skipn (S i) l.
Proof.
  revert i; induction l as [|y l IH]; intros [|i] E; cbn in E; try discriminate.
  - injection E as ->. reflexivity.
  - exact (IH i E).
Qed.

Lemma list_set_split (a : list Z) (i : nat) (v : Z) :
  (i < length a)%nat -> list_set a i v = firstn i a ++ v :: skipn (S i) a.
Proof.
  revert i; induction a as [|x a IH]; intros [|i] Hi; cbn in Hi; try lia.
  - reflexivity.
  - cbn [list_set firstn skipn app]. f_equal. apply IH. lia.
Qed.

Section Buffers.
Context {hw : Type} `{Platform hw}.

Lemma write_bytes_loop_trace (pin : Z) (buf : list Z) (n : nat) :
  forall (i : nat) (s : logged hw),
  (i + n <= length buf)%nat ->
  exists s',
    write_bytes_loop n i pin buf s = Some s'
    /\ trace s' = trace s ++ flat_map (write_byte_trace pin) (firstn n (skipn i buf)).
Proof.
  induction n as [|n IH]; intros i s Hl; cbn [write_bytes_loop].
  - exists s. split; [reflexivity|]. cbn. rewrite app_nil_r. reflexivity.
  - unfold load. destruct (nth_error buf i) as [v|] eqn:E.
    + destruct (IH (S i) (snd (onewire_write pin v s)) ltac:(lia)) as (s' & E' & T).
      exists s'. split; [exact E'|].
      rewrite T, onewire_write_trace, <- app_assoc.
      rewrite (skipn_nth_error buf i v E). reflexivity.
    + apply nth_error_None in E. lia.
Qed.

(** A count beyond the buffer leaves the call without an outcome. *)
Lemma write_bytes_loop_overrun (pin : Z) (buf : list Z) (n : nat) :
  forall (i : nat) (s s' : hw),
  (i <= length buf < i + n)%nat -> write_bytes_loop n i pin buf s = Some s' -> False.
Proof.
  induction n as [|n IH]; intros i s s' Hl E; [lia|].
  cbn [write_bytes_loop] in E. unfold load in E.
  destruct (nth_error buf i) as [v|] eqn:Ev; [|discriminate].
  assert (i < length buf)%nat by (apply nth_error_Some; congruence).
  apply (IH (S i) _ s' ltac:(lia) E).
Qed.

Lemma read_bytes_loop_overrun (pin : Z) (n : nat) :
  forall (i : nat) (buf : list Z) (s : hw) r,
  (i <= length buf < i + n)%nat -> read_bytes_loop n i pin buf s = Some r -> False.
Proof.
  induction n as [|n IH]; intros i buf s r Hl E; [lia|].
  cbn [read_bytes_loop] in E.
  destruct (onewire_read pin s) as [v s1].
  destruct (Nat.ltb_spec i (length buf)) as [Hi|]; [|discriminate].
  apply (IH (S i) (list_set buf i v) s1 r); [rewrite list_set_length; lia|exact E].
Qed.

Lemma read_bytes_loop_trace (pin : Z) (n : nat) :
  forall (i : nat) (buf : list Z) (s : logged hw),
  (i + n <= length buf)%nat ->
  exists (lvls : list (list bool)) s',
    read_bytes_loop n i pin buf s
    = Some (firstn i buf ++ map bits_value lvls ++ skipn (i + n) buf, s')
    /\ length lvls = n
    /\ Forall (fun l => length l = 8%nat) lvls
    /\ trace s' = trace s ++ flat_map (read_slots_trace pin) lvls.
Proof.
  induction n as [|n IH]; intros i buf s Hl; cbn [read_bytes_loop].
  - exists [], s. rewrite Nat.add_0_r. cbn [map app flat_map].
    rewrite firstn_skipn, app_nil_r. auto.
  - destruct (onewire_read_trace pin s) as (lvl & Hlen & Hv & Ht).
    destruct (onewire_read pin s) as [v s1]. cbn [fst snd] in Hv, Ht.
    destruct (Nat.ltb_spec i (length buf)) as [Hi|]; [|lia].
    destruct (IH (S i) (list_set buf i v) s1) as (lvls & s' & E & Hn & Hall & T).
    { rewrite list_set_length. lia. }
    exists (lvl :: lvls), s'. split; [|split; [cbn; lia|split]].
    + rewrite E. f_equal. f_equal.
      rewrite (list_set_split buf i v Hi).
      remember (skipn (S i) buf) as rest eqn:Er.
      assert (Hfi : length (firstn i buf) = i) by (apply firstn_length_le; lia).
      replace (S i) with (length (firstn i buf) + 1)%nat at 1 by lia.
      rewrite firstn_app_2. cbn [firstn map app].
      replace (S i + n)%nat with (length (firstn i buf) + S n)%nat at 1 by lia.
      rewrite skipn_app, skipn_all2 by lia.
      replace (length (firstn i buf) + S n - length (firstn i buf))%nat with (S n) by lia.
      cbn [skipn app]. subst rest. rewrite skipn_skipn.
      replace (n + S i)%nat with (i + S n)%nat by lia.
      rewrite <- app_assoc, Hv. reflexivity.
    + constructor; assumption.
    + rewrite T, Ht, <- app_assoc. reflexivity.
Qed.

End Buffers.





(** ** What the CRC-8 detects *)

Lemma crc8_distinct_all :
  forallb (fun a => forallb (crc8_distinct_at a) bytes256) bytes256 = true.
Proof. vm_compute. reflexivity. Qed.

Lemma crc8_distinct (a b : Z) :
  is_byte a -> is_byte b ->
  (Crc8Table.pgm_read_byte a = Crc8Table.pgm_read_byte b -> a = b)
  /\ is_byte (Z.lxor a b).
Proof.
  intros Ha Hb.
  pose proof crc8_distinct_all as A.
  rewrite forallb_forall in A. specialize (A a (in_bytes256 a Ha)).
  rewrite forallb_forall in A. specialize (A b (in_bytes256 b Hb)).
  unfold crc8_distinct_at in A.
  apply andb_prop in A. destruct A as [A1 A2].
  split.
  - intros E. rewrite E, Z.eqb_refl in A1. cbn [negb] in A1.
    rewrite orb_false_r in A1. apply Z.eqb_eq. exact A1.
  - unfold is_byte. split; [|lia].
    apply Z.lxor_nonneg. unfold is_byte in *. lia.
Qed.

Lemma lxor_cancel_l (c a b : Z) : Z.lxor c a = Z.lxor c b -> a = b.
Proof.
  intros E. apply (f_equal (Z.lxor c)) in E.
  rewrite <- !Z.lxor_assoc, Z.lxor_nilpotent, !Z.lxor_0_l in E. exact E.
Qed.

Lemma crc8_step_byte (crc b : Z) :
  is_byte crc -> is_byte b -> is_byte (Crc8Table.pgm_read_byte (Z.lxor crc b)).
Proof. intros Hc Hb. exact (proj2 (crc8_step_agree crc b Hc Hb)). Qed.

Lemma crc8_loop_app (data rest : list Z) (m : nat) (crc : Z) :
  Crc8Table.crc8_loop (length data + m) (data ++ rest) crc
  = match Crc8Table.crc8_loop (length data) data crc with
    | Some c => Crc8Table.crc8_loop m rest c
    | None => None
    end.
Proof.
  revert crc; induction data as [|b data IH]; intros crc; [reflexivity|].
  cbn [length Nat.add app Crc8Table.crc8_loop]. apply IH.
Qed.

Lemma crc8_loop_whole (data : list Z) (crc : Z) :
  Forall is_byte data -> is_byte crc ->
  exists c, Crc8Table.crc8_loop (length data) data crc = Some c /\ is_byte c.
Proof.
  intros Hd. revert crc; induction Hd as [|b data Hb Hd IH]; intros crc Hc.
  - exists crc. split; [reflexivity|exact Hc].
  - cbn [length Crc8Table.crc8_loop]. apply IH. apply crc8_step_byte; assumption.
Qed.

Lemma crc8_loop_distinct (data : list Z) (c1 c2 : Z) :
  Forall is_byte data -> is_byte c1 -> is_byte c2 -> c1 <> c2 ->
  exists r1 r2,
    Crc8Table.crc8_loop (length data) data c1 = Some r1
    /\ Crc8Table.crc8_loop (length data) data c2 = Some r2
    /\ r1 <> r2.
Proof.
  intros Hd. revert c1 c2; induction Hd as [|b data Hb Hd IH]; intros c1 c2 H1 H2 Hne.
  - exists c1, c2. auto.
  - cbn [length Crc8Table.crc8_loop].
    apply IH; try (apply crc8_step_byte; assumption).
    intros E.
    apply (proj1 (crc8_distinct _ _ (proj2 (crc8_distinct c1 b H1 Hb))
                                    (proj2 (crc8_distinct c2 b H2 Hb)))) in E.
    apply Hne. rewrite (Z.lxor_comm c1), (Z.lxor_comm c2) in E.
    exact (lxor_cancel_l b c1 c2 E).
Qed.

Lemma crc8_table_bitwise_whole (data : list Z) :
  Forall is_byte data ->
  Crc8Bitwise.onewire_crc8 data (Z.of_nat (length data))
  = Crc8Table.onewire_crc8 data (Z.of_nat (length data)).
Proof.
  intros Hd. unfold Crc8Bitwise.onewire_crc8, Crc8Table.onewire_crc8.
  symmetry. apply crc8_loop_agree; [exact Hd|]. unfold is_byte. lia.
Qed.





(** X8: a buffer of zero bytes of any length has CRC-8 zero, with either
    build of [onewire_crc8]: what a line that reads low all the time
    delivers, CRC byte included, passes the CRC-8 check. *)
Theorem onewire_crc8_accepts_all_zero (n : nat) :
  Crc8Table.onewire_crc8 (repeat 0 n) (Z.of_nat n) = Some 0
  /\ Crc8Bitwise.onewire_crc8 (repeat 0 n) (Z.of_nat n) = Some 0.
Proof.
  assert (T : Crc8Table.onewire_crc8 (repeat 0 n) (Z.of_nat n) = Some 0).
  { unfold Crc8Table.onewire_crc8. rewrite Nat2Z.id.
    induction n as [|n IH]; [reflexivity|exact IH]. }
  split; [exact T|].
  rewrite <- T. rewrite <- (repeat_length 0 n) at 2 4.
  apply crc8_table_bitwise_whole.
  apply Forall_forall. intros b Hb. apply repeat_spec in Hb. subst b.
  unfold is_byte. lia.
Qed.

(** ** What the CRC-16 detects *)

Lemma crc16_separates_all :
  forallb (fun x => forallb (crc16_separates_at x) bytes256) bytes256 = true.
Proof. vm_compute. reflexivity. Qed.

Lemma crc16_residue_all :
  forallb (fun hi => forallb (crc16_residue_at hi) bytes256) bytes256 = true.
Proof. vm_compute. reflexivity. Qed.

Lemma crc16_mix_spec (x y : Z) :
  is_byte x -> is_byte y ->
  (Z.lxor (crc16_mix x) (crc16_mix y) < 256 -> x = y) /\ is_u16 (crc16_mix x).
Proof.
  intros Hx Hy.
  pose proof crc16_separates_all as A.
  rewrite forallb_forall in A. specialize (A x (in_bytes256 x Hx)).
  rewrite forallb_forall in A. specialize (A y (in_bytes256 y Hy)).
  unfold crc16_separates_at in A.
  apply andb_prop in A. destruct A as [A A3].
  apply andb_prop in A. destruct A as [A1 A2].
  split; [|unfold is_u16; lia].
  intros Hlt. apply Z.ltb_lt in Hlt. rewrite Hlt in A1. cbn [negb] in A1.
  rewrite orb_false_r in A1. apply Z.eqb_eq. exact A1.
Qed.

Lemma land_255_byte (x : Z) : is_byte (Z.land x 255).
Proof.
  unfold is_byte. change 255 with (Z.ones 8). rewrite Z.land_ones by lia.
  apply Z.mod_pos_bound. lia.
Qed.

Lemma crc16_step_split (crc b : Z) :
  crc16_step crc b
  = Z.lxor (Z.shiftr crc 8) (crc16_mix (Z.land (Z.lxor b crc) 255)).
Proof.
  assert (I : Z.land (Z.land (Z.lxor b crc) 255) 255 = Z.land (Z.lxor b crc) 255).
  { rewrite <- Z.land_assoc. reflexivity. }
  unfold crc16_mix, crc16_step.
  rewrite Z.lxor_0_r, !I. change (Z.shiftr 0 8) with 0.
  destruct (negb (Z.lxor _ _ =? 0)); rewrite ?Z.lxor_0_l, ?Z.lxor_assoc; reflexivity.
Qed.

Lemma lxor_lt_pow2 (a b n : Z) :
  0 <= n -> 0 <= a < 2 ^ n -> 0 <= b < 2 ^ n -> 0 <= Z.lxor a b < 2 ^ n.
Proof.
  intros Hn Ha Hb.
  assert (H0 : 0 <= Z.lxor a b) by (apply Z.lxor_nonneg; lia).
  split; [exact H0|].
  destruct (Z.eq_dec (Z.lxor a b) 0) as [->|Hnz]; [lia|].
  apply Z.log2_lt_pow2; [lia|].
  pose proof (Z.log2_lxor a b ltac:(lia) ltac:(lia)) as L.
  assert (Hn0 : 0 < n).
  { destruct (Z.eq_dec n 0) as [->|]; [|lia].
    assert (a = 0) by (cbn in Ha; lia). assert (b = 0) by (cbn in Hb; lia).
    subst. contradiction. }
  assert (La : Z.log2 a < n).
  { destruct (Z.eq_dec a 0) as [->|]; [exact Hn0|apply Z.log2_lt_pow2; lia]. }
  assert (Lb : Z.log2 b < n).
  { destruct (Z.eq_dec b 0) as [->|]; [exact Hn0|apply Z.log2_lt_pow2; lia]. }
  lia.
Qed.

Lemma shiftr8_byte (c : Z) : is_u16 c -> is_byte (Z.shiftr c 8).
Proof.
  unfold is_u16, is_byte. intros Hc. rewrite Z.shiftr_div_pow2 by lia.
  change (2 ^ 8) with 256. Z.div_mod_to_equations. lia.
Qed.

Lemma crc16_step_u16 (crc b : Z) : is_u16 crc -> is_u16 (crc16_step crc b).
Proof.
  intros Hc. rewrite crc16_step_split.
  pose proof (shiftr8_byte crc Hc) as Hh.
  pose proof (proj2 (crc16_mix_spec _ _ (land_255_byte (Z.lxor b crc))
                       (land_255_byte (Z.lxor b crc)))) as Hm.
  unfold is_u16, is_byte in *.
  change 65536 with (2 ^ 16). apply lxor_lt_pow2; change (2 ^ 16) with 65536; lia.
Qed.

Lemma u16_split (c : Z) : is_u16 c -> c = 256 * Z.shiftr c 8 + Z.land c 255.
Proof.
  unfold is_u16. intros Hc. rewrite Z.shiftr_div_pow2 by lia.
  change 255 with (Z.ones 8). rewrite Z.land_ones by lia.
  change (2 ^ 8) with 256. Z.div_mod_to_equations. lia.
Qed.

Lemma land_lxor_distr (a b m : Z) :
  Z.land (Z.lxor a b) m = Z.lxor (Z.land a m) (Z.land b m).
Proof.
  apply Z.bits_inj'. intros n Hn. rewrite !Z.lxor_spec, !Z.land_spec, Z.lxor_spec.
  destruct (Z.testbit a n), (Z.testbit b n), (Z.testbit m n); reflexivity.
Qed.

Lemma lxor_swap (h1 m1 h2 m2 : Z) :
  Z.lxor h1 m1 = Z.lxor h2 m2 -> Z.lxor m1 m2 = Z.lxor h1 h2.
Proof.
  intros E. apply Z.bits_inj'. intros n Hn.
  apply (f_equal (fun z => Z.testbit z n)) in E. rewrite !Z.lxor_spec in *.
  destruct (Z.testbit h1 n), (Z.testbit m1 n), (Z.testbit h2 n), (Z.testbit m2 n);
    cbn in *; congruence.
Qed.

(** One pass is one-to-one in the running CRC ... *)
Lemma crc16_step_inj_crc (c1 c2 b : Z) :
  is_u16 c1 -> is_u16 c2 -> crc16_step c1 b = crc16_step c2 b -> c1 = c2.
Proof.
  intros H1 H2 E. rewrite !crc16_step_split in E.
  pose proof (shiftr8_byte c1 H1) as Hh1. pose proof (shiftr8_byte c2 H2) as Hh2.
  set (x1 := Z.land (Z.lxor b c1) 255) in *.
  set (x2 := Z.land (Z.lxor b c2) 255) in *.
  assert (Ex : Z.lxor (crc16_mix x1) (crc16_mix x2)
               = Z.lxor (Z.shiftr c1 8) (Z.shiftr c2 8)).
  { apply lxor_swap. exact E. }
  assert (Hx : x1 = x2).
  { apply (proj1 (crc16_mix_spec x1 x2 (land_255_byte _) (land_255_byte _))).
    rewrite Ex. unfold is_byte in *. change 256 with (2 ^ 8).
    apply lxor_lt_pow2; change (2 ^ 8) with 256; lia. }
  rewrite Hx in E. rewrite !(Z.lxor_comm _ (crc16_mix x2)) in E.
  apply lxor_cancel_l in E.
  assert (El : Z.land c1 255 = Z.land c2 255).
  { unfold x1, x2 in Hx. rewrite !land_lxor_distr in Hx.
    exact (lxor_cancel_l _ _ _ Hx). }
  rewrite (u16_split c1 H1), (u16_split c2 H2), E, El. reflexivity.
Qed.

(** ... and in the byte. *)
Lemma crc16_step_inj_byte (c x y : Z) :
  is_byte x -> is_byte y -> crc16_step c x = crc16_step c y -> x = y.
Proof.
  intros Hx Hy E. rewrite !crc16_step_split in E.
  apply lxor_cancel_l in E.
  assert (Ex : Z.land (Z.lxor x c) 255 = Z.land (Z.lxor y c) 255).
  { apply (proj1 (crc16_mix_spec _ _ (land_255_byte _) (land_255_byte _))).
    rewrite E, Z.lxor_nilpotent. lia. }
  rewrite !land_lxor_distr in Ex.
  rewrite !(Z.lxor_comm _ (Z.land c 255)) in Ex. apply lxor_cancel_l in Ex.
  unfold is_byte in *.
  change 255 with (Z.ones 8) in Ex. rewrite !Z.land_ones in Ex by lia.
  rewrite !Z.mod_small in Ex by (change (2 ^ 8) with 256; lia). exact Ex.
Qed.

(** The loop of [onewire_crc16] over a stretch of the buffer. *)
Lemma crc16_loop_fold (data pre post : list Z) (crc : Z) :
  crc16_loop (length data) (length pre) (pre ++ data ++ post) crc
  = Some (fold_left crc16_step data crc).
Proof.
  revert pre crc; induction data as [|b data IH]; intros pre crc; [reflexivity|].
  cbn [length crc16_loop fold_left]. unfold load.
  rewrite nth_error_app2 by lia. rewrite Nat.sub_diag. cbn [app nth_error].
  specialize (IH (pre ++ [b]) (crc16_step crc b)).
  rewrite length_app in IH. cbn [length] in IH.
  rewrite Nat.add_1_r in IH. rewrite <- app_assoc in IH. exact IH.
Qed.

Lemma onewire_crc16_fold (data post : list Z) (crc : Z) :
  onewire_crc16 (data ++ post) (Z.of_nat (length data)) crc
  = Some (fold_left crc16_step data crc).
Proof.
  unfold onewire_crc16. rewrite Nat2Z.id.
  exact (crc16_loop_fold data [] post crc).
Qed.

Lemma onewire_crc16_whole (data : list Z) (crc : Z) :
  onewire_crc16 data (Z.of_nat (length data)) crc
  = Some (fold_left crc16_step data crc).
Proof.
  pose proof (onewire_crc16_fold data [] crc) as F.
  rewrite app_nil_r in F. exact F.
Qed.

Lemma crc16_fold_u16 (data : list Z) (crc : Z) :
  is_u16 crc -> is_u16 (fold_left crc16_step data crc).
Proof.
  revert crc; induction data as [|b data IH]; intros crc Hc; [exact Hc|].
  cbn [fold_left]. apply IH. apply crc16_step_u16. exact Hc.
Qed.

Lemma crc16_fold_inj (data : list Z) (c1 c2 : Z) :
  is_u16 c1 -> is_u16 c2 ->
  fold_left crc16_step data c1 = fold_left crc16_step data c2 -> c1 = c2.
Proof.
  revert c1 c2; induction data as [|b data IH]; intros c1 c2 H1 H2 E; [exact E|].
  cbn [fold_left] in E.
  apply IH in E; try (apply crc16_step_u16; assumption).
  exact (crc16_step_inj_crc c1 c2 b H1 H2 E).
Qed.




Lemma u16_lnot (c : Z) : is_u16 c -> u16 (Z.lnot c) = 65535 - c.
Proof.
  unfold is_u16, u16, Z.lnot. intros Hc.
  symmetry. apply (Z.mod_unique _ _ (-1)); lia.
Qed.



(** X12: a buffer of zero bytes of any length, checked from seed 0 against
    two zero CRC bytes, is rejected by [onewire_check_crc16]: the CRC-16 of
    zero bytes is 0, and the check compares with its inverse.  A line that
    reads low all the time does not pass the CRC-16 check. *)
Theorem onewire_check_crc16_rejects_all_zero (n : nat) :
  onewire_crc16 (repeat 0 n) (Z.of_nat n) 0 = Some 0
  /\ onewire_check_crc16 (repeat 0 n) (Z.of_nat n) [0; 0] 0 = Some false.
Proof.
  assert (E : onewire_crc16 (repeat 0 n) (Z.of_nat n) 0 = Some 0).
  { rewrite <- (repeat_length 0 n) at 2. rewrite onewire_crc16_whole. f_equal.
    induction n as [|n IH]; [reflexivity|exact IH]. }
  split; [exact E|]. unfold onewire_check_crc16. rewrite E. reflexivity.
Qed.

(** ** A search aimed at a family *)

(** A walk ends at one of the addresses it started with. *)
Lemma awalk_in (n : nat) :
  forall (j ld : Z) (prev : list bool) (A : list (list bool)) (lz : Z),
  all_len n A -> A <> [] -> In (fst (awalk n j ld prev A lz)) A.
Proof.
  induction n as [|n IH]; intros j ld prev A lz HA Hne.
  - destruct A as [|a A]; [congruence|]. cbn [awalk fst].
    inversion HA as [|? ? Ha _]; subst. destruct a; [left; reflexivity|discriminate].
  - rewrite awalk_S. cbn [fst].
    set (dir := walk_dir j ld prev A).
    pose proof (walk_dir_nonempty n j ld prev A HA Hne) as N. fold dir in N.
    apply nonempty_true in N.
    assert (HA' : all_len n (if dir then ones A else zeros A))
      by (destruct dir; [apply all_len_ones|apply all_len_zeros]; exact HA).
    specialize (IH (j + 1) ld (tl prev) _ (walk_lz j A dir lz) HA' N).
    destruct dir; [apply in_ones|apply in_zeros]; exact IH.
Qed.

(** Below [last_discrepancy], a walk follows the ROM buffer for as long as
    some address does. *)
Lemma awalk_follows (m : nat) :
  forall (n : nat) (j ld : Z) (prev a : list bool) (A : list (list bool)) (lz : Z),
  (m <= n)%nat -> j + Z.of_nat m <= ld -> (m <= length prev)%nat ->
  In a A -> firstn m a = firstn m prev ->
  firstn m (fst (awalk n j ld prev A lz)) = firstn m prev.
Proof.
  induction m as [|m IH]; intros n j ld prev a A lz Hmn Hld Hlen Ha Hpre;
    [reflexivity|].
  destruct n as [|n]; [lia|].
  destruct prev as [|b prev]; [cbn in Hlen; lia|].
  destruct a as [|b' a]; [discriminate|].
  cbn [firstn] in Hpre. injection Hpre as -> Hpre.
  rewrite awalk_S. cbn [fst firstn tl].
  assert (Hdir : walk_dir j ld (b :: prev) A = b).
  { unfold walk_dir. cbn [hd].
    destruct (Z.ltb_spec j ld) as [_|]; [|lia].
    destruct b.
    - apply in_ones in Ha.
      assert (N : nonempty (ones A) = true)
        by (apply nonempty_true; intros E; rewrite E in Ha; contradiction).
      rewrite N. destruct (nonempty (zeros A)); reflexivity.
    - apply in_zeros in Ha.
      assert (N : nonempty (zeros A) = true)
        by (apply nonempty_true; intros E; rewrite E in Ha; contradiction).
      rewrite N. destruct (nonempty (ones A)); reflexivity. }
  rewrite Hdir. f_equal.
  apply (IH n (j + 1) ld prev a); try lia.
  - cbn in Hlen. lia.
  - destruct b; [apply in_ones|apply in_zeros]; exact Ha.
  - exact Hpre.
Qed.

Lemma firstn_addr_bits (a : Z) : firstn 8 (addr_bits a) = byte_bits (Z.land a 255).
Proof.
  rewrite byte_bits_low. unfold addr_bits, bits_from.
  change (seq 0 (64 - 0)) with (seq 0 8 ++ seq 8 56).
  rewrite map_app, firstn_app, firstn_all2 by (rewrite length_map, length_seq; lia).
  rewrite length_map, length_seq. cbn [Nat.sub firstn]. apply app_nil_r.
Qed.

Lemma byte_bits_inj (x y : Z) : is_byte x -> is_byte y -> byte_bits x = byte_bits y -> x = y.
Proof.
  intros Hx Hy E. apply (f_equal bits_value) in E.
  rewrite !bits_value_byte_bits in E by assumption. exact E.
Qed.

Lemma search_prefix_state (search : onewire_search_t) (family_code : Z) :
  length (rom_no search) = 8%nat ->
  onewire_search_prefix search family_code
  = Search [family_code; 0; 0; 0; 0; 0; 0; 0] 64 false.
Proof.
  intros Hlen. destruct search as [r ld f]. cbn [rom_no] in Hlen.
  do 8 (destruct r as [|? r]; [discriminate|]). destruct r; [|discriminate].
  reflexivity.
Qed.



(** ** From the search to the selection *)

Lemma bits_value_testbit (p : list bool) :
  forall i : nat, Z.testbit (bits_value p) (Z.of_nat i) = nth i p false.
Proof.
  induction p as [|b p IH]; intros i; cbn [bits_value].
  - rewrite Z.bits_0. destruct i; reflexivity.
  - rewrite Z.add_comm. destruct i as [|i]; cbn [nth].
    + apply Z.testbit_0_r.
    + rewrite Nat2Z.inj_succ. rewrite Z.testbit_succ_r by lia. apply IH.
Qed.

Lemma addr_bits_bits_value (p : list bool) :
  length p = 64%nat -> addr_bits (bits_value p) = p.
Proof.
  intros Hlen. unfold addr_bits, bits_from.
  apply (nth_ext _ _ false false).
  - rewrite length_map, length_seq. lia.
  - intros i Hi. rewrite length_map, length_seq in Hi.
    rewrite (nth_indep _ false (Z.testbit (bits_value p) (Z.of_nat 0)))
      by (rewrite length_map, length_seq; lia).
    rewrite (map_nth (fun i => Z.testbit (bits_value p) (Z.of_nat i))).
    rewrite seq_nth by lia. apply bits_value_testbit.
Qed.

Lemma rom_bits_bytes (r : list Z) :
  length r = 8%nat -> rom_bits_from 0 r = flat_map byte_bits r.
Proof.
  intros Hlen.
  do 8 (destruct r as [|? r]; [discriminate|]). destruct r; [|discriminate].
  cbn [flat_map]. rewrite app_nil_r. reflexivity.
Qed.

Lemma length_rom_bits_from (k : nat) (r : list Z) :
  length (rom_bits_from k r) = (64 - k)%nat.
Proof. unfold rom_bits_from. rewrite length_map, length_seq. reflexivity. Qed.

(** X14: for a search state with eight bytes in its ROM buffer, the address
    that [onewire_search_next] assembles from the buffer, given to
    [onewire_select], makes on every board the write slots of the Match ROM
    command 0x55 and then of bytes 0 to 7 of the ROM buffer, in that order,
    and nothing else: the bits go out in the order in which the search took
    them in. *)
Theorem onewire_select_of_search_addr
  {hw : Type} `{Platform hw} (pin : Z) (search : onewire_search_t) (s : logged hw) :
  search_wf search ->
  trace (snd (onewire_select pin (search_addr search) s))
  = trace s
    ++ flat_map (fun v => flat_map (fun b : bool => write_bit_trace pin (Z.b2z b))
                                   (byte_bits v))
                (85 :: rom_no search).
Proof.
  intros [Hlen Hby].
  unfold onewire_select, bind.
  destruct (onewire_write pin 85 s) as [[] s1] eqn:E.
  apply (f_equal snd) in E. cbn [snd] in E.
  rewrite select_loop_trace, <- E, onewire_write_trace, <- app_assoc.
  cbn [flat_map]. unfold write_byte_trace. f_equal. f_equal.
  change (map (fun i => Z.testbit (search_addr search) (Z.of_nat i)) (seq 0 (8 * 8)))
    with (addr_bits (search_addr search)).
  destruct search as [r ld f]. cbn [rom_no] in *.
  rewrite (search_addr_bits_value r ld f Hlen Hby).
  rewrite addr_bits_bits_value by apply length_rom_bits_from.
  rewrite (rom_bits_bytes r Hlen).
  clear. induction r as [|v r IH]; [reflexivity|].
  cbn [flat_map]. rewrite flat_map_app, IH. reflexivity.
Qed.

Lemma onewire_select_of_search_addr_witness :
  let search := Search [40; 255; 75; 70; 146; 22; 4; 120] 0 true in
  search_wf search
  /\ trace (snd (onewire_select 5 (search_addr search) (Logged ([] : scripted) [])))
     = [] ++ flat_map (fun v => flat_map (fun b : bool => write_bit_trace 5 (Z.b2z b))
                                         (byte_bits v))
                      (85 :: rom_no search).
Proof.
  cbv zeta.
  assert (Hwf : search_wf (Search [40; 255; 75; 70; 146; 22; 4; 120] 0 true)).
  { split; [reflexivity|]. cbn [rom_no].
    repeat (apply Forall_cons; [unfold is_byte; lia|]). apply Forall_nil. }
  split; [exact Hwf|].
  exact (onewire_select_of_search_addr 5 _ (Logged ([] : scripted) []) Hwf).
Defined.

(** ** The timing of the code against the timing of the slaves *)

(** X15: on a line at rest that carries any number of slaves, each timed
    anywhere within the data-sheet windows, [onewire_reset] returns 1 when
    there is a slave and 0 when there is none; it takes 962 microseconds and
    leaves the line at rest, with every slave waiting for a ROM command. *)
Theorem onewire_reset_detects_presence (pin : Z) (s : sim) :
  bus_idle s ->
  exists s',
    onewire_reset pin s = (match slaves s with [] => 0 | _ => 1 end, s')
    /\ bus_idle s'
    /\ now s' = now s + 962
    /\ map rom (slaves s') = map rom (slaves s)
    /\ Forall (fun d => sstate d = RomCommand 0 0) (slaves s').
Proof.
  intros [Hm Hds]. destruct s as [t ml fa ds]. cbn [master_low slaves now] in *.
  subst ml. unfold onewire_reset.
  change (Z.to_nat (u8 (125 - 1))) with (S 123). cbn [reset_wait_idle]. sim_run.
  rewrite (idle_line_reads_high t ds Hds (t + 2)) by lia. cbn [negb]. sim_run.
  assert (Htm : Forall (fun d => timing_ok (timing d)) ds)
    by (eapply Forall_impl; [|exact Hds]; intros d [? _]; assumption).
  destruct (line_through_reset (t + 2 + 480) (t + 2 + 480 - (t + 2)) (t + 2) ds Htm
              ltac:(lia)) as (V & I & R).
  rewrite R. eexists. split; [|split; [|split; [|split]]].
  - destruct ds; reflexivity.
  - split; [reflexivity|]. cbn [slaves now].
    eapply Forall_impl; [|exact I]. intros d Hd.
    eapply slave_idle_later; [exact Hd|lia].
  - cbn [now]. lia.
  - cbn [slaves].
    apply (f_equal (map fst)) in V. rewrite !map_map in V. rewrite !map_map.
    exact V.
  - cbn [slaves].
    apply (f_equal (map snd)) in V. rewrite !map_map in V. cbn [snd view_reset] in V.
    apply Forall_forall. intros d Hd.
    apply (in_map sstate) in Hd. rewrite !map_map in Hd. rewrite V in Hd.
    apply in_map_iff in Hd. destruct Hd as (d0 & E & _). symmetry. exact E.
Qed.

Lemma onewire_reset_detects_presence_witness :
  let s := attach typical_timing [1099511627816; 40] in
  bus_idle s
  /\ exists s',
       onewire_reset 5 s = (1, s')
       /\ bus_idle s'
       /\ now s' = now s + 962
       /\ map rom (slaves s') = map rom (slaves s)
       /\ Forall (fun d => sstate d = RomCommand 0 0) (slaves s').
Proof.
  cbv zeta.
  pose proof (bus_idle_attach typical_timing [1099511627816; 40] typical_timing_ok)
    as Hidle.
  split; [exact Hidle|]. exact (onewire_reset_detects_presence 5 _ Hidle).
Defined.

(** X16: on such a line, [onewire_write_bit] is taken by every slave as the
    bit it was asked to write, bit 0 of its argument, whatever the timing of
    the slave within the data-sheet windows; it leaves the line at rest. *)
Theorem onewire_write_bit_reaches_slaves (pin v : Z) (s : sim) :
  bus_idle s ->
  exists s',
    onewire_write_bit pin v s = (tt, s')
    /\ bus_idle s'
    /\ map (fun d => (rom d, sstate d)) (slaves s')
       = map (fun d => (rom d, slot_state (rom d) (Z.odd v) (sstate d))) (slaves s).
Proof.
  intros Hidle.
  destruct (sim_write_bit pin v s Hidle) as (s' & E & I & V).
  exists s'. split; [exact E|]. split; [exact I|].
  unfold bus_view in V. rewrite V, map_map. apply map_ext. intros d.
  unfold view_slot. cbn [fst snd]. f_equal. f_equal.
  rewrite <- Z.bit0_odd. change 1 with (2 ^ 0).
  rewrite Z.land_comm, land_pow2_eqb by lia. apply negb_involutive.
Qed.

Lemma onewire_write_bit_reaches_slaves_witness :
  let s := attach typical_timing [40] in
  bus_idle s
  /\ exists s',
       onewire_write_bit 5 1 s = (tt, s')
       /\ bus_idle s'
       /\ map (fun d => (rom d, sstate d)) (slaves s')
          = map (fun d => (rom d, slot_state (rom d) (Z.odd 1) (sstate d))) (slaves s).
Proof.
  cbv zeta.
  pose proof (bus_idle_attach typical_timing [40] typical_timing_ok) as Hidle.
  split; [exact Hidle|]. exact (onewire_write_bit_reaches_slaves 5 1 _ Hidle).
Defined.

(** X17: on such a line, [onewire_read_bit] returns 0 when at least one
    slave sends a 0 in the slot and 1 when none does, whatever the timing of
    the slaves within the data-sheet windows; every slave takes the slot as
    one in which a 1 was written, and the line is left at rest. *)
Theorem onewire_read_bit_wired_and (pin : Z) (s : sim) :
  bus_idle s ->
  exists s',
    onewire_read_bit pin s
    = (Z.b2z (forallb (fun d => out_bit (rom d) (sstate d)) (slaves s)), s')
    /\ bus_idle s'
    /\ map (fun d => (rom d, sstate d)) (slaves s')
       = map (fun d => (rom d, slot_state (rom d) true (sstate d))) (slaves s).
Proof.
  intros Hidle.
  destruct (sim_read_bit pin s Hidle) as (s' & E & I & V).
  exists s'. split; [|split; [exact I|]].
  - rewrite E. f_equal. f_equal. unfold bus_view.
    induction (slaves s) as [|d ds IH]; [reflexivity|].
    cbn [map forallb]. rewrite IH. reflexivity.
  - unfold bus_view in V. rewrite V, map_map. reflexivity.
Qed.

Lemma onewire_read_bit_wired_and_witness :
  let s := attach typical_timing [40; 16] in
  bus_idle s
  /\ exists s',
       onewire_read_bit 5 s
       = (Z.b2z (forallb (fun d => out_bit (rom d) (sstate d)) (slaves s)), s')
       /\ bus_idle s'
       /\ map (fun d => (rom d, sstate d)) (slaves s')
          = map (fun d => (rom d, slot_state (rom d) true (sstate d))) (slaves s).
Proof.
  cbv zeta.
  pose proof (bus_idle_attach typical_timing [40; 16] typical_timing_ok) as Hidle.
  split; [exact Hidle|]. exact (onewire_read_bit_wired_and 5 _ Hidle).
Defined.

(** ** The trace of a search on any board *)

Section SearchTrace.
Context {hw : Type} `{Platform hw}.

Lemma search_step_trace (pin : Z) (l : search_locals) (search : onewire_search_t)
  (s : logged hw) :
  exists p, trace (snd (search_step pin l search s)) = trace s ++ step_trace pin p.
Proof.
  unfold search_step, bind.
  destruct (onewire_read_bit_trace pin s) as (id & E1 & T1). rewrite E1.
  set (s1 := snd (onewire_read_bit pin s)) in *.
  destruct (onewire_read_bit_trace pin s1) as (cmp & E2 & T2). rewrite E2.
  set (s2 := snd (onewire_read_bit pin s1)) in *.
  destruct ((Z.b2z id =? 1) && (Z.b2z cmp =? 1)).
  - exists (id, cmp, None). cbn [ret snd step_trace].
    rewrite T2, T1, app_nil_r, <- app_assoc. reflexivity.
  - destruct (if negb (Z.b2z id =? Z.b2z cmp) then _ else _) as [sd lz].
    exists (id, cmp, Some sd).
    pose proof (onewire_write_bit_trace pin sd s2) as T3.
    destruct (onewire_write_bit pin sd s2) as [[] s3]. cbn [snd] in T3.
    destruct (u8 (Z.shiftl (rom_byte_mask l) 1) =? 0); cbn [ret snd step_trace];
      rewrite T3, T2, T1, <- !app_assoc; reflexivity.
Qed.

Lemma search_loop_trace (pin : Z) (fuel : nat) :
  forall (k : nat) (l : search_locals) (search : onewire_search_t) (s : logged hw)
         (brk : bool) (l' : search_locals) (search' : onewire_search_t) (s' : logged hw),
  (k < 64)%nat -> counters_at k l ->
  search_loop fuel pin l search s = Some (brk, l', search', s') ->
  exists steps,
    (length steps <= 64 - k)%nat
    /\ trace s' = trace s ++ flat_map (step_trace pin) steps.
Proof.
  induction fuel as [|fuel IH]; intros k l search s brk l' search' s' Hk Hc E;
    [discriminate|].
  cbn [search_loop] in E.
  destruct (search_step_trace pin l search s) as (p & T).
  destruct (search_step_spec pin k l search s Hk Hc)
    as (b1 & l1 & sr1 & s1 & E1 & _ & _ & _ & _ & _ & _ & Hcont).
  rewrite E1 in E, T. cbn [snd] in T.
  destruct b1.
  - injection E as <- <- <- <-. exists [p]. split; [cbn [length]; lia|].
    cbn [flat_map]. rewrite app_nil_r. exact T.
  - destruct (Hcont eq_refl) as (Hc1 & Hlt). rewrite Hlt in E.
    destruct (S k <? 64)%nat eqn:Hk1.
    + apply Nat.ltb_lt in Hk1.
      destruct (IH (S k) l1 sr1 s1 brk l' search' s' Hk1 Hc1 E) as (steps & Hn & T').
      exists (p :: steps). split; [cbn [length]; lia|].
      cbn [flat_map]. rewrite T', T, <- app_assoc. reflexivity.
    + injection E as <- <- <- <-. exists [p]. split; [cbn [length]; lia|].
      cbn [flat_map]. rewrite app_nil_r. exact T.
Qed.

Lemma onewire_reset_shape (pin : Z) (s : logged hw) :
  exists t, trace (snd (onewire_reset pin s)) = trace s ++ t /\ reset_shape pin t.
Proof.
  pose proof (onewire_reset_trace pin s) as R.
  destruct (onewire_reset pin s) as [r s']. cbn [snd].
  destruct R as [(k & lvl & Hk & _ & E)|[_ E]]; eexists; (split; [exact E|]).
  - left. exists k, lvl. auto.
  - right. reflexivity.
Qed.

(** The events of one call of [onewire_search_next], part by part; a part
    that the call did not reach is empty. *)
Lemma onewire_search_next_trace (ONEWIRE_NONE : Z) (search : onewire_search_t)
  (pin : Z) (s : logged hw) :
  exists r search' s' t_reset t_cmd steps t_end,
    onewire_search_next ONEWIRE_NONE search pin s = Some (r, search', s')
    /\ trace s' = trace s ++ t_reset ++ t_cmd ++ flat_map (step_trace pin) steps ++ t_end
    /\ (if last_device_found search then t_reset = [] else reset_shape pin t_reset)
    /\ (t_cmd = [] \/ t_cmd = write_byte_trace pin 240)
    /\ (length steps <= 64)%nat
    /\ (t_end = [] \/ exists hi lo, t_end = [EvPrintf hi lo]).
Proof.
  destruct (last_device_found search) eqn:Hf.
  - rewrite (onewire_search_next_exhausted ONEWIRE_NONE search pin s Hf).
    exists ONEWIRE_NONE, (Search (rom_no search) 0 false), s, [], [], [], [].
    split; [reflexivity|]. cbn [app flat_map length]. rewrite app_nil_r.
    repeat split; auto; try lia.
  - destruct (onewire_reset_shape pin s) as (tr & Tr & Sr).
    destruct (onewire_reset pin s) as [r s1] eqn:Hr. cbn [snd] in Tr.
    destruct (Z.eq_dec r 0) as [->|Hr0].
    + rewrite (onewire_search_next_no_presence ONEWIRE_NONE search pin s s1 Hf Hr).
      exists ONEWIRE_NONE, (Search (rom_no search) 0 false), s1, tr, [], [], [].
      split; [reflexivity|]. cbn [app flat_map length]. rewrite app_nil_r.
      repeat split; auto; try lia.
    + pose proof (onewire_write_trace pin 240 s1) as Tw.
      destruct (onewire_write pin 240 s1) as [[] s2] eqn:Hw. cbn [snd] in Tw.
      destruct (search_walk_spec pin search s2)
        as (brk & l & sr' & s3 & E & _).
      destruct (search_loop_trace pin 64 0 (Locals 1 0 0 1) search s2 brk l sr' s3
                  ltac:(lia) ltac:(unfold counters_at; cbn; auto) E)
        as (steps & Hn & Ts).
      rewrite (onewire_search_next_walk ONEWIRE_NONE search pin r s s1 s2 s3 brk l sr'
                 Hf Hr Hr0 Hw E).
      destruct (brk || (aget (rom_no sr') 0 =? 0)).
      * do 3 eexists. exists tr, (write_byte_trace pin 240), steps, [].
        split; [reflexivity|]. split.
        { rewrite Ts, Tw, Tr, app_nil_r, <- !app_assoc. reflexivity. }
        repeat split; auto; try lia.
      * cbv zeta.
        match goal with |- context [printf ?a ?b s3] =>
          set (hi := a); set (lo := b) end.
        do 3 eexists. exists tr, (write_byte_trace pin 240), steps, [EvPrintf hi lo].
        split; [reflexivity|]. split.
        { cbn [printf logged_platform]. unfold emit.
          destruct (printf hi lo (inner s3)) as [[] h4]. cbn [snd trace].
          rewrite Ts, Tw, Tr, <- !app_assoc. reflexivity. }
        repeat split; auto; try lia. right. exists hi, lo. reflexivity.
Qed.

End SearchTrace.

(** ** How long a search takes *)

Lemma delay_total_polls (pin : Z) (lvl : bool) (k : nat) :
  delay_total (concat (repeat (poll_trace pin lvl) k)) = 2 * Z.of_nat k.
Proof.
  induction k as [|k IH]; [reflexivity|].
  cbn [repeat concat]. rewrite delay_total_app, IH, Nat2Z.inj_succ.
  unfold poll_trace. cbn [delay_total]. lia.
Qed.

Lemma delay_total_reset_shape (pin : Z) (t : list event) :
  reset_shape pin t -> 0 <= delay_total t <= 1208.
Proof.
  intros [(k & lvl & Hk & ->)| ->]; rewrite !delay_total_app, delay_total_polls;
    cbn [reset_setup_trace poll_trace reset_pulse_trace delay_total]; lia.
Qed.

Lemma delay_total_step (pin : Z) (p : bool * bool * option Z) :
  0 <= delay_total (step_trace pin p) <= 202.
Proof.
  destruct p as [[id cmp] [d|]]; unfold step_trace; rewrite !delay_total_app.
  - unfold write_bit_trace.
    destruct (negb (Z.land d 1 =? 0)); cbn [read_bit_trace delay_total]; lia.
  - cbn [read_bit_trace delay_total]. lia.
Qed.

Lemma delay_total_steps (pin : Z) (steps : list (bool * bool * option Z)) :
  0 <= delay_total (flat_map (step_trace pin) steps) <= 202 * Z.of_nat (length steps).
Proof.
  induction steps as [|p steps IH]; [cbn; lia|].
  cbn [flat_map length]. rewrite delay_total_app, Nat2Z.inj_succ.
  pose proof (delay_total_step pin p). lia.
Qed.

(** X18: on every board, from every board state and every search state, a
    call of [onewire_search_next] returns, and the delays it has spent add up
    to at most 14676 microseconds: at most 1208 for the reset, 540 for the
    command and 202 for each of at most 64 passes of the loop. *)
Theorem onewire_search_next_duration
  {hw : Type} `{Platform hw} (ONEWIRE_NONE : Z) (search : onewire_search_t)
  (pin : Z) (s : logged hw) :
  exists r search' s',
    onewire_search_next ONEWIRE_NONE search pin s = Some (r, search', s')
    /\ delay_total (trace s) <= delay_total (trace s')
       <= delay_total (trace s) + 14676.
Proof.
  destruct (onewire_search_next_trace ONEWIRE_NONE search pin s)
    as (r & search' & s' & tr & tc & steps & te & E & T & Hr & Hc & Hn & He).
  exists r, search', s'. split; [exact E|].
  rewrite T, !delay_total_app.
  assert (Br : 0 <= delay_total tr <= 1208).
  { destruct (last_device_found search);
      [subst tr; cbn; lia|exact (delay_total_reset_shape pin tr Hr)]. }
  assert (Bc : 0 <= delay_total tc <= 540)
    by (destruct Hc as [->| ->]; vm_compute; split; discriminate).
  assert (Be : delay_total te = 0)
    by (destruct He as [->|(hi & lo & ->)]; reflexivity).
  pose proof (delay_total_steps pin steps) as Bs.
  lia.
Qed.

(** ** How long interrupts stay disabled *)

Lemma crit_scan_app (t1 t2 : list event) (c : crit) :
  crit_scan (t1 ++ t2) c = crit_scan t2 (crit_scan t1 c).
Proof. apply fold_left_app. Qed.

Lemma crit_ok_nil (limit : Z) : crit_ok limit [].
Proof. intros w. exists w. split; [reflexivity|lia]. Qed.

Lemma crit_ok_app (limit : Z) (t1 t2 : list event) :
  crit_ok limit t1 -> crit_ok limit t2 -> crit_ok limit (t1 ++ t2).
Proof.
  intros H1 H2 w. destruct (H1 w) as (w1 & E1 & B1). destruct (H2 w1) as (w2 & E2 & B2).
  exists w2. rewrite crit_scan_app, E1, E2. split; [reflexivity|lia].
Qed.

Lemma crit_ok_mono (limit limit' : Z) (t : list event) :
  limit <= limit' -> crit_ok limit t -> crit_ok limit' t.
Proof.
  intros Hl Ht w. destruct (Ht w) as (w' & E & B). exists w'. split; [exact E|lia].
Qed.

Lemma crit_ok_flat_map {X : Type} (limit : Z) (f : X -> list event) (l : list X) :
  (forall x, crit_ok limit (f x)) -> crit_ok limit (flat_map f l).
Proof.
  intros Hf. induction l as [|x l IH]; [apply crit_ok_nil|].
  cbn [flat_map]. apply crit_ok_app; auto.
Qed.

Lemma crit_ok_write_bit (pin v : Z) : crit_ok 65 (write_bit_trace pin v).
Proof.
  intros w. unfold write_bit_trace.
  destruct (negb (Z.land v 1 =? 0)).
  - exists (Z.max w 10). split; [reflexivity|lia].
  - exists (Z.max w 65). split; [reflexivity|lia].
Qed.

Lemma crit_ok_read_bit (pin : Z) (lvl : bool) : crit_ok 65 (read_bit_trace pin lvl).
Proof.
  intros w. exists (Z.max w 13). split; [reflexivity|lia].
Qed.

Lemma crit_ok_write_byte (pin v : Z) : crit_ok 65 (write_byte_trace pin v).
Proof. apply crit_ok_flat_map. intros b. apply crit_ok_write_bit. Qed.

Lemma crit_ok_read_slots (pin : Z) (lvls : list bool) :
  crit_ok 65 (read_slots_trace pin lvls).
Proof. apply crit_ok_flat_map. intros b. apply crit_ok_read_bit. Qed.

Lemma crit_ok_polls (pin : Z) (lvl : bool) (k : nat) :
  crit_ok 0 (concat (repeat (poll_trace pin lvl) k)).
Proof.
  induction k as [|k IH]; [apply crit_ok_nil|].
  cbn [repeat concat]. apply crit_ok_app; [|exact IH].
  intros w. exists w. split; [reflexivity|lia].
Qed.

Lemma crit_ok_reset_shape (pin : Z) (t : list event) :
  reset_shape pin t -> crit_ok 70 t.
Proof.
  assert (S0 : crit_ok 70 (reset_setup_trace pin))
    by (intros w; exists w; split; [reflexivity|lia]).
  assert (P0 : forall k, crit_ok 70 (concat (repeat (poll_trace pin false) k)))
    by (intros k; apply (crit_ok_mono 0); [lia|apply crit_ok_polls]).
  intros [(k & lvl & Hk & ->)| ->]; repeat apply crit_ok_app; auto.
  all: intros w;
    first [exists w; split; [reflexivity|lia]
          |exists (Z.max w 70); split; [reflexivity|lia]].
Qed.

Lemma crit_ok_step (pin : Z) (p : bool * bool * option Z) :
  crit_ok 65 (step_trace pin p).
Proof.
  destruct p as [[id cmp] [d|]]; unfold step_trace;
    repeat apply crit_ok_app; try apply crit_ok_read_bit.
  - apply crit_ok_write_bit.
  - apply crit_ok_nil.
Qed.

Lemma crit_ok_bounded (limit : Z) (t : list event) :
  0 <= limit -> crit_ok limit t -> critical_bounded limit t.
Proof.
  intros Hl Ht. destruct (Ht 0) as (m & E & B). exists m. split; [exact E|lia].
Qed.

(** X19: on every board, the critical sections that [onewire_write],
    [onewire_read], [onewire_select], [onewire_skip_rom],
    [onewire_write_bytes] and [onewire_read_bytes] enter have all been left
    when the call returns, and none of them lasts more than 65 microseconds
    of delay, however many bytes are moved.  (The last two have no outcome
    only when the count is beyond the buffer.) *)
Theorem byte_transfers_bound_critical_sections
  {hw : Type} `{Platform hw} (pin v rom count : Z) (buf : list Z) (s : logged hw) :
  (exists t, trace (snd (onewire_write pin v s)) = trace s ++ t
             /\ critical_bounded 65 t)
  /\ (exists t, trace (snd (onewire_read pin s)) = trace s ++ t
                /\ critical_bounded 65 t)
  /\ (exists t, trace (snd (onewire_select pin rom s)) = trace s ++ t
                /\ critical_bounded 65 t)
  /\ (exists t, trace (snd (onewire_skip_rom pin s)) = trace s ++ t
                /\ critical_bounded 65 t)
  /\ match onewire_write_bytes pin buf count s with
     | Some s' => exists t, trace s' = trace s ++ t /\ critical_bounded 65 t
     | None => Z.of_nat (length buf) < count
     end
  /\ match onewire_read_bytes pin buf count s with
     | Some (_, s') => exists t, trace s' = trace s ++ t /\ critical_bounded 65 t
     | None => Z.of_nat (length buf) < count
     end.
Proof.
  assert (L : 0 <= 65) by lia.
  split; [|split; [|split; [|split; [|split]]]].
  - eexists. split; [apply onewire_write_trace|].
    apply crit_ok_bounded, crit_ok_write_byte; exact L.
  - destruct (onewire_read_trace pin s) as (lvls & _ & _ & T).
    eexists. split; [exact T|]. apply crit_ok_bounded, crit_ok_read_slots; exact L.
  - eexists. split; [apply onewire_select_sends_address_trace|].
    apply crit_ok_bounded; [exact L|]. apply crit_ok_flat_map. intros b.
    apply crit_ok_write_bit.
  - eexists. split; [apply (onewire_write_trace pin 204)|].
    apply crit_ok_bounded, crit_ok_write_byte; exact L.
  - unfold onewire_write_bytes.
    destruct (Nat.le_gt_cases (Z.to_nat count) (length buf)) as [Hc|Hc].
    + destruct (write_bytes_loop_trace pin buf (Z.to_nat count) 0 s ltac:(lia))
        as (s1 & E1 & T).
      rewrite E1. eexists. split; [exact T|]. apply crit_ok_bounded; [exact L|].
      apply crit_ok_flat_map. intros b. apply crit_ok_write_byte.
    + destruct (write_bytes_loop _ _ _ _ _) as [s1|] eqn:E1; [|lia].
      destruct (write_bytes_loop_trace pin buf (length buf) 0 s ltac:(lia))
        as (s2 & _ & _).
      exfalso. revert E1. apply write_bytes_loop_overrun. lia.
  - unfold onewire_read_bytes.
    destruct (Nat.le_gt_cases (Z.to_nat count) (length buf)) as [Hc|Hc].
    + destruct (read_bytes_loop_trace pin (Z.to_nat count) 0 buf s ltac:(lia))
        as (lvls & s1 & E1 & _ & _ & T).
      rewrite E1. eexists. split; [exact T|]. apply crit_ok_bounded; [exact L|].
      apply crit_ok_flat_map. intros b. apply crit_ok_read_slots.
    + destruct (read_bytes_loop _ _ _ _ _) as [[b1 s1]|] eqn:E1; [|lia].
      exfalso. revert E1. apply read_bytes_loop_overrun. lia.
Qed.

(** X20: on every board, the critical sections that [onewire_reset] and
    [onewire_search_next] enter have all been left when the call returns,
    and none of them lasts more than 70 microseconds of delay. *)
Theorem search_bounds_critical_sections
  {hw : Type} `{Platform hw} (ONEWIRE_NONE : Z) (search : onewire_search_t)
  (pin : Z) (s : logged hw) :
  (exists t, trace (snd (onewire_reset pin s)) = trace s ++ t
             /\ critical_bounded 70 t)
  /\ (exists r search' s' t,
        onewire_search_next ONEWIRE_NONE search pin s = Some (r, search', s')
        /\ trace s' = trace s ++ t /\ critical_bounded 70 t).
Proof.
  assert (L : 0 <= 70) by lia.
  split.
  - destruct (onewire_reset_shape pin s) as (t & T & S).
    exists t. split; [exact T|].
    apply crit_ok_bounded; [exact L|]. apply (crit_ok_reset_shape pin). exact S.
  - destruct (onewire_search_next_trace ONEWIRE_NONE search pin s)
      as (r & search' & s' & tr & tc & steps & te & E & T & Hr & Hc & Hn & He).
    exists r, search', s'. eexists. split; [exact E|]. split; [exact T|].
    apply crit_ok_bounded; [exact L|].
    repeat apply crit_ok_app.
    + destruct (last_device_found search);
        [subst tr; apply crit_ok_nil|apply (crit_ok_reset_shape pin); exact Hr].
    + destruct Hc as [->| ->]; [apply crit_ok_nil|].
      apply (crit_ok_mono 65); [lia|apply crit_ok_write_byte].
    + apply crit_ok_flat_map. intros p.
      apply (crit_ok_mono 65); [lia|apply crit_ok_step].
    + destruct He as [->|(hi & lo & ->)]; [apply crit_ok_nil|].
      intros w. exists w. split; [reflexivity|lia].
Qed.

(** ** The pin between calls *)

Lemma pin_mode_app (pin : Z) (t1 t2 : list event) (d : option gpio_direction_t) :
  pin_mode pin (t1 ++ t2) d = pin_mode pin t2 (pin_mode pin t1 d).
Proof.
  revert d; induction t1 as [|e t1 IH]; intros d; [reflexivity|].
  destruct e; cbn [app pin_mode]; apply IH.
Qed.

Lemma pin_level_app (pin : Z) (t1 t2 : list event) (lvl : option bool) :
  pin_level pin (t1 ++ t2) lvl = pin_level pin t2 (pin_level pin t1 lvl).
Proof.
  revert lvl; induction t1 as [|e t1 IH]; intros lvl; [reflexivity|].
  destruct e; cbn [app pin_level]; apply IH.
Qed.

Lemma pin_kept_nil (pin : Z) : pin_kept pin [].
Proof. split; reflexivity. Qed.

Lemma pin_kept_app (pin : Z) (t1 t2 : list event) :
  pin_kept pin t1 -> pin_kept pin t2 -> pin_kept pin (t1 ++ t2).
Proof.
  intros [M1 L1] [M2 L2]. split.
  - intros d. rewrite pin_mode_app, M1, M2. reflexivity.
  - rewrite pin_level_app, L1, L2. reflexivity.
Qed.

Lemma pin_kept_flat_map {X : Type} (pin : Z) (f : X -> list event) (l : list X) :
  (forall x, pin_kept pin (f x)) -> pin_kept pin (flat_map f l).
Proof.
  intros Hf. induction l as [|x l IH]; [apply pin_kept_nil|].
  cbn [flat_map]. apply pin_kept_app; auto.
Qed.

Lemma pin_kept_write_bit (pin v : Z) : pin_kept pin (write_bit_trace pin v).
Proof.
  unfold write_bit_trace.
  destruct (negb (Z.land v 1 =? 0)); (split; [reflexivity|]);
    cbn [pin_level]; rewrite Z.eqb_refl; reflexivity.
Qed.

Lemma pin_kept_read_bit (pin : Z) (lvl : bool) : pin_kept pin (read_bit_trace pin lvl).
Proof.
  split; [reflexivity|]. cbn [read_bit_trace pin_level]. rewrite Z.eqb_refl.
  reflexivity.
Qed.

Lemma pin_kept_write_byte (pin v : Z) : pin_kept pin (write_byte_trace pin v).
Proof. apply pin_kept_flat_map. intros b. apply pin_kept_write_bit. Qed.

Lemma pin_kept_read_slots (pin : Z) (lvls : list bool) :
  pin_kept pin (read_slots_trace pin lvls).
Proof. apply pin_kept_flat_map. intros b. apply pin_kept_read_bit. Qed.

Lemma pin_kept_step (pin : Z) (p : bool * bool * option Z) :
  pin_kept pin (step_trace pin p).
Proof.
  destruct p as [[id cmp] [d|]]; unfold step_trace;
    repeat apply pin_kept_app; try apply pin_kept_read_bit.
  - apply pin_kept_write_bit.
  - apply pin_kept_nil.
Qed.

Lemma pin_kept_polls (pin : Z) (lvl : bool) (k : nat) :
  pin_kept pin (concat (repeat (poll_trace pin lvl) k)).
Proof.
  induction k as [|k IH]; [apply pin_kept_nil|].
  cbn [repeat concat]. apply pin_kept_app; [|exact IH]. split; reflexivity.
Qed.

(** After a reset the pin is an open-drain output and the line is released,
    whatever they were before. *)
Lemma pin_after_reset (pin : Z) (t : list event) (d : option gpio_direction_t)
  (lvl : option bool) :
  reset_shape pin t ->
  pin_mode pin t d = Some GPIO_OUT_OPEN_DRAIN /\ pin_level pin t lvl = Some true.
Proof.
  intros [(k & l & Hk & ->)| ->]; rewrite ?pin_mode_app, ?pin_level_app;
    cbn [reset_setup_trace pin_mode pin_level]; rewrite !Z.eqb_refl.
  - rewrite (proj1 (pin_kept_polls pin false k)), (proj2 (pin_kept_polls pin false k)).
    cbn [poll_trace reset_pulse_trace pin_mode pin_level]. rewrite !Z.eqb_refl.
    split; reflexivity.
  - rewrite (proj1 (pin_kept_polls pin false 124)),
            (proj2 (pin_kept_polls pin false 124)).
    split; reflexivity.
Qed.

(** X21: on every board, [onewire_power] leaves the pin a push-pull output
    driven high and [onewire_depower] leaves it an open-drain output;
    [onewire_reset] leaves it an open-drain output with the line released,
    whatever the mode and the level before; and [onewire_write],
    [onewire_read] and [onewire_select] never switch the mode: after
    [onewire_power] the pin stays push-pull until [onewire_depower] or
    [onewire_reset] is called. *)
Theorem pin_mode_after_calls
  {hw : Type} `{Platform hw} (pin v rom : Z) (d : option gpio_direction_t)
  (lvl : option bool) (s : logged hw) :
  (exists t, trace (snd (onewire_power pin s)) = trace s ++ t
             /\ pin_mode pin t d = Some GPIO_OUTPUT
             /\ pin_level pin t lvl = Some true)
  /\ (exists t, trace (snd (onewire_depower pin s)) = trace s ++ t
                /\ pin_mode pin t d = Some GPIO_OUT_OPEN_DRAIN
                /\ pin_level pin t lvl = lvl)
  /\ (exists t, trace (snd (onewire_reset pin s)) = trace s ++ t
                /\ pin_mode pin t d = Some GPIO_OUT_OPEN_DRAIN
                /\ pin_level pin t lvl = Some true)
  /\ (exists t, trace (snd (onewire_write pin v s)) = trace s ++ t
                /\ pin_mode pin t d = d)
  /\ (exists t, trace (snd (onewire_read pin s)) = trace s ++ t
                /\ pin_mode pin t d = d)
  /\ (exists t, trace (snd (onewire_select pin rom s)) = trace s ++ t
                /\ pin_mode pin t d = d).
Proof.
  split; [|split; [|split; [|split; [|split]]]].
  - exists [EvEnable pin GPIO_OUTPUT; EvWrite pin true]. split.
    + unfold onewire_power. board_run. rewrite <- app_assoc. reflexivity.
    + cbn [pin_mode pin_level]. rewrite !Z.eqb_refl. split; reflexivity.
  - exists [EvEnable pin GPIO_OUT_OPEN_DRAIN]. split.
    + unfold onewire_depower. board_run. reflexivity.
    + cbn [pin_mode pin_level]. rewrite !Z.eqb_refl. split; reflexivity.
  - destruct (onewire_reset_shape pin s) as (t & T & S).
    exists t. split; [exact T|]. exact (pin_after_reset pin t d lvl S).
  - eexists. split; [apply onewire_write_trace|]. apply pin_kept_write_byte.
  - destruct (onewire_read_trace pin s) as (lvls & _ & _ & T).
    eexists. split; [exact T|]. apply pin_kept_read_slots.
  - eexists. split; [apply onewire_select_sends_address_trace|].
    apply (pin_kept_flat_map pin). intros b. apply pin_kept_write_bit.
Qed.

(** X22: on every board, a call of [onewire_search_next] never leaves the
    line driven low: when the master had released the line before the call,
    or when the call has made a reset, the last level written to the pin at
    the return is high. *)
Theorem onewire_search_next_releases_line
  {hw : Type} `{Platform hw} (ONEWIRE_NONE : Z) (search : onewire_search_t)
  (pin : Z) (s : logged hw) :
  exists r search' s' t,
    onewire_search_next ONEWIRE_NONE search pin s = Some (r, search', s')
    /\ trace s' = trace s ++ t
    /\ pin_level pin t (Some true) = Some true
    /\ (last_device_found search = false ->
        forall lvl, pin_level pin t lvl = Some true).
Proof.
  destruct (onewire_search_next_trace ONEWIRE_NONE search pin s)
    as (r & search' & s' & tr & tc & steps & te & E & T & Hr & Hc & Hn & He).
  exists r, search', s'. eexists. split; [exact E|]. split; [exact T|].
  assert (K : pin_kept pin (tc ++ flat_map (step_trace pin) steps ++ te)).
  { repeat apply pin_kept_app.
    - destruct Hc as [->| ->]; [apply pin_kept_nil|apply pin_kept_write_byte].
    - apply pin_kept_flat_map. intros p. apply pin_kept_step.
    - destruct He as [->|(hi & lo & ->)]; [apply pin_kept_nil|split; reflexivity]. }
  split.
  - rewrite pin_level_app.
    destruct (last_device_found search); [subst tr; exact (proj2 K)|].
    rewrite (proj2 (pin_after_reset pin tr None (Some true) Hr)). exact (proj2 K).
  - intros Hf lvl. rewrite pin_level_app. rewrite Hf in Hr.
    rewrite (proj2 (pin_after_reset pin tr None lvl Hr)). exact (proj2 K).
Qed.

(** ** The order in which addresses are found *)

Lemma StronglySorted_app {X : Type} (R : X -> X -> Prop) (l1 l2 : list X) :
  StronglySorted R l1 -> StronglySorted R l2 ->
  (forall x y, In x l1 -> In y l2 -> R x y) ->
  StronglySorted R (l1 ++ l2).
Proof.
  intros H1 H2 Hc. induction H1 as [|x l1 H1 IH Hx]; [exact H2|].
  cbn [app]. constructor.
  - apply IH. intros a b Ha Hb. apply Hc; [right; exact Ha|exact Hb].
  - apply Forall_app. split; [exact Hx|].
    apply Forall_forall. intros y Hy. apply Hc; [left; reflexivity|exact Hy].
Qed.

Lemma StronglySorted_map {X Y : Type} (R : X -> X -> Prop) (R' : Y -> Y -> Prop)
  (f : X -> Y) (l : list X) :
  (forall x y, In x l -> In y l -> R x y -> R' (f x) (f y)) ->
  StronglySorted R l -> StronglySorted R' (map f l).
Proof.
  intros Hf Hl. induction Hl as [|x l Hl IH Hx]; [constructor|].
  cbn [map]. constructor.
  - apply IH. intros a b Ha Hb. apply Hf; right; assumption.
  - apply Forall_forall. intros y Hy. apply in_map_iff in Hy.
    destruct Hy as (b & <- & Hb). rewrite Forall_forall in Hx.
    apply Hf; [left; reflexivity|right; exact Hb|apply Hx; exact Hb].
Qed.

Lemma enum_sorted (n : nat) :
  forall A : list (list bool), StronglySorted bits_before (enum n A).
Proof.
  induction n as [|n IH]; intros A.
  - destruct A; cbn; repeat constructor.
  - destruct A as [|a A]; [rewrite enum_nil; constructor|].
    rewrite enum_S. apply StronglySorted_app.
    + apply (StronglySorted_map bits_before); [|apply IH].
      intros p q _ _ (pre & p' & q' & -> & ->).
      exists (false :: pre), p', q'. split; reflexivity.
    + apply (StronglySorted_map bits_before); [|apply IH].
      intros p q _ _ (pre & p' & q' & -> & ->).
      exists (true :: pre), p', q'. split; reflexivity.
    + intros x y Hx Hy. apply in_map_iff in Hx, Hy.
      destruct Hx as (p & <- & _). destruct Hy as (q & <- & _).
      exists [], p, q. split; reflexivity.
Qed.

Lemma enum_all_len (n : nat) :
  forall A : list (list bool), all_len n (enum n A).
Proof.
  induction n as [|n IH]; intros A.
  - destruct A; cbn; repeat constructor.
  - destruct A as [|a A]; [rewrite enum_nil; constructor|].
    rewrite enum_S. apply Forall_app. split; apply Forall_forall; intros p Hp;
      apply in_map_iff in Hp; destruct Hp as (q & <- & Hq); cbn [length]; f_equal;
      [specialize (IH (zeros (a :: A)))|specialize (IH (ones (a :: A)))];
      unfold all_len in IH; rewrite Forall_forall in IH; apply IH; exact Hq.
Qed.

Lemma found_before_bits (p q : list bool) :
  length p = 64%nat -> bits_before p q -> found_before (bits_value p) (bits_value q).
Proof.
  intros Hlen (pre & p' & q' & -> & ->).
  rewrite length_app in Hlen. cbn [length] in Hlen.
  exists (length pre). split; [lia|]. split; [|split].
  - intros i Hi. rewrite !bits_value_testbit, !app_nth1 by exact Hi. reflexivity.
  - rewrite bits_value_testbit, app_nth2, Nat.sub_diag by lia. reflexivity.
  - rewrite bits_value_testbit, app_nth2, Nat.sub_diag by lia. reflexivity.
Qed.

Lemma search_order_sorted (addrs : list Z) :
  StronglySorted found_before (search_order addrs).
Proof.
  unfold search_order.
  apply (StronglySorted_map bits_before); [|apply enum_sorted].
  intros p q Hp _ Hb. apply found_before_bits; [|exact Hb].
  pose proof (enum_all_len 64 (map addr_bits addrs)) as L.
  unfold all_len in L. rewrite Forall_forall in L. apply L. exact Hp.
Qed.

(** X23: on a line that carries slaves with distinct 64-bit addresses, none
    with a zero family code, each timed anywhere within the data-sheet
    windows, the calls of [onewire_search_next] from a fresh state return the
    addresses in a fixed order: of any two addresses, the one returned first
    has a 0, and the other a 1, in the lowest bit in which they differ. *)
Theorem search_finds_in_bit_order
  (ONEWIRE_NONE pin : Z) (addrs : list Z) (s : sim) :
  NoDup addrs -> Forall is_addr addrs -> Forall has_family addrs ->
  bus_idle s -> map rom (slaves s) = addrs ->
  exists order search' s',
    search_all ONEWIRE_NONE (S (length addrs)) onewire_search_start pin s
    = Some (order ++ [ONEWIRE_NONE], search', s')
    /\ StronglySorted found_before order.
Proof.
  intros Hnd Hrange Hfam Hidle Hroms.
  assert (Hroms' : map fst (bus_view s) = addrs)
    by (unfold bus_view; rewrite map_map; exact Hroms).
  destruct (search_all_from_start ONEWIRE_NONE pin addrs Hnd Hrange Hfam s Hidle Hroms')
    as (search' & s' & E).
  exists (search_order addrs), search', s'. split; [exact E|].
  apply search_order_sorted.
Qed.

Lemma search_finds_in_bit_order_witness :
  let addrs := [1099511627816; 40; 16] in
  let s := attach typical_timing addrs in
  NoDup addrs /\ Forall is_addr addrs /\ Forall has_family addrs
  /\ bus_idle s /\ map rom (slaves s) = addrs
  /\ exists order search' s',
       search_all none_value (S (length addrs)) onewire_search_start 5 s
       = Some (order ++ [none_value], search', s')
       /\ StronglySorted found_before order.
Proof.
  cbv zeta.
  assert (Hnd : NoDup [1099511627816; 40; 16]).
  { repeat constructor; cbn; intuition discriminate. }
  assert (Hrange : Forall is_addr [1099511627816; 40; 16]).
  { repeat constructor; unfold is_addr; lia. }
  assert (Hfam : Forall has_family [1099511627816; 40; 16]).
  { repeat constructor; unfold has_family; cbn; discriminate. }
  pose proof (bus_idle_attach typical_timing [1099511627816; 40; 16] typical_timing_ok)
    as Hidle.
  split; [exact Hnd|]. split; [exact Hrange|]. split; [exact Hfam|].
  split; [exact Hidle|]. split; [reflexivity|].
  exact (search_finds_in_bit_order none_value 5 _ _ Hnd Hrange Hfam Hidle eq_refl).
Defined.

(** ** A slave with family code 0 *)

(** Beyond [last_discrepancy], a walk keeps to 0 for as long as some address
    does. *)
Lemma awalk_zeros (m : nat) :
  forall (n : nat) (j ld : Z) (prev a : list bool) (A : list (list bool)) (lz : Z),
  (m <= n)%nat -> ld < j -> In a A -> firstn m a = repeat false m ->
  firstn m (fst (awalk n j ld prev A lz)) = repeat false m.
Proof.
  induction m as [|m IH]; intros n j ld prev a A lz Hmn Hld Ha Hpre; [reflexivity|].
  destruct n as [|n]; [lia|].
  destruct a as [|b a]; [discriminate|].
  cbn [firstn repeat] in Hpre. injection Hpre as -> Hpre.
  rewrite awalk_S. cbn [fst firstn repeat].
  assert (Hdir : walk_dir j ld prev A = false).
  { unfold walk_dir. apply in_zeros in Ha.
    assert (N : nonempty (zeros A) = true)
      by (apply nonempty_true; intros E; rewrite E in Ha; contradiction).
    rewrite N.
    destruct (Z.ltb_spec j ld) as [|_]; [lia|].
    destruct (Z.eqb_spec j ld) as [|_]; [lia|].
    destruct (nonempty (ones A)); reflexivity. }
  rewrite Hdir. f_equal.
  apply (IH n (j + 1) ld (tl prev) a); try lia; [|exact Hpre].
  apply in_zeros. exact Ha.
Qed.

Lemma firstn_rom_bits (r : list Z) :
  length r = 8%nat -> firstn 8 (rom_bits_from 0 r) = byte_bits (aget r 0).
Proof.
  intros Hlen. rewrite (rom_bits_bytes r Hlen).
  destruct r as [|b r]; [discriminate|]. cbn [flat_map].
  rewrite firstn_app, firstn_all2 by (unfold byte_bits; rewrite length_map, length_seq; lia).
  replace (8 - length (byte_bits b))%nat with 0%nat
    by (unfold byte_bits; rewrite length_map, length_seq; reflexivity).
  cbn [firstn]. rewrite app_nil_r. reflexivity.
Qed.

(** One call from a state like a fresh one, on a line with a slave of family
    code 0. *)
Lemma sim_search_next_family_zero (ONEWIRE_NONE pin : Z) (addrs : list Z) (z : Z)
  (search : onewire_search_t) (s : sim) :
  In z addrs -> Z.land z 255 = 0 -> like_fresh search ->
  bus_idle s -> map fst (bus_view s) = addrs ->
  exists search' s',
    onewire_search_next ONEWIRE_NONE search pin s = Some (ONEWIRE_NONE, search', s')
    /\ like_fresh search' /\ bus_idle s' /\ map fst (bus_view s') = addrs.
Proof.
  intros Hz Hfam (Hld & Hldf & Hlen & Hby) Hidle Hroms.
  assert (Hne : addrs <> []) by (destruct addrs; [contradiction|discriminate]).
  destruct (sim_search_next_found ONEWIRE_NONE pin addrs search s Hne Hldf Hlen Hby
              Hidle Hroms)
    as (r & lz & s' & W & Hlen' & Hby' & E & I & V).
  assert (P : firstn 8 (addr_bits z) = repeat false 8)
    by (rewrite firstn_addr_bits, Hfam; reflexivity).
  pose proof (awalk_zeros 8 64 1 (last_discrepancy search)
                (rom_bits_from 0 (rom_no search)) (addr_bits z) (map addr_bits addrs) 0
                ltac:(lia) ltac:(lia) (in_map addr_bits addrs z Hz) P) as F.
  rewrite W in F. cbn [fst] in F. rewrite (firstn_rom_bits r Hlen') in F.
  assert (E0 : aget r 0 = 0).
  { apply byte_bits_inj; [apply aget_is_byte; exact Hby'|unfold is_byte; lia|exact F]. }
  rewrite E0 in E. cbn [Z.eqb] in E.
  exists (Search r 0 false), s'. split; [exact E|].
  split; [|split; assumption]. repeat split; assumption.
Qed.

(** X24: on a line that carries slaves, each timed anywhere within the
    data-sheet windows, one of which has family code 0, every call of
    [onewire_search_next] from a fresh state returns [ONEWIRE_NONE], however
    many calls are made: the search walks to the slave with family code 0
    first, rejects it and starts over, so that no slave on the line is ever
    found. *)
Theorem family_zero_blocks_search
  (ONEWIRE_NONE pin : Z) (addrs : list Z) (z : Z) (n : nat) (s : sim) :
  In z addrs -> Z.land z 255 = 0 ->
  bus_idle s -> map rom (slaves s) = addrs ->
  exists search' s',
    search_all ONEWIRE_NONE n onewire_search_start pin s
    = Some (repeat ONEWIRE_NONE n, search', s')
    /\ bus_idle s' /\ map rom (slaves s') = addrs.
Proof.
  intros Hz Hfam Hidle Hroms.
  assert (V : forall s : sim,
            map rom (slaves s) = addrs <-> map fst (bus_view s) = addrs)
    by (intros s0; unfold bus_view; rewrite map_map; reflexivity).
  apply V in Hroms.
  pose proof like_fresh_start as Hfresh.
  revert Hfresh Hidle Hroms. generalize onewire_search_start as search. revert s.
  induction n as [|n IH]; intros s search Hfresh Hidle Hroms.
  - exists search, s. split; [reflexivity|]. split; [exact Hidle|apply V; exact Hroms].
  - destruct (sim_search_next_family_zero ONEWIRE_NONE pin addrs z search s
                Hz Hfam Hfresh Hidle Hroms) as (search1 & s1 & E & F1 & I1 & V1).
    destruct (IH s1 search1 F1 I1 V1) as (search2 & s2 & E2 & I2 & V2).
    exists search2, s2. cbn [search_all repeat]. rewrite E, E2. auto.
Qed.

Lemma family_zero_blocks_search_witness :
  let addrs := [40; 3963167672086036736; 16] in
  let s := attach typical_timing addrs in
  In 3963167672086036736 addrs /\ Z.land 3963167672086036736 255 = 0
  /\ bus_idle s /\ map rom (slaves s) = addrs
  /\ exists search' s',
       search_all none_value 5 onewire_search_start 7 s
       = Some (repeat none_value 5, search', s')
       /\ bus_idle s' /\ map rom (slaves s') = addrs.
Proof.
  cbv zeta.
  assert (Hz : In 3963167672086036736 [40; 3963167672086036736; 16])
    by (right; left; reflexivity).
  assert (Hfam : Z.land 3963167672086036736 255 = 0) by reflexivity.
  pose proof (bus_idle_attach typical_timing [40; 3963167672086036736; 16]
                typical_timing_ok) as Hidle.
  split; [exact Hz|]. split; [exact Hfam|]. split; [exact Hidle|].
  split; [reflexivity|].
  exact (family_zero_blocks_search none_value 7 _ _ 5 _ Hz Hfam Hidle eq_refl).
Defined.
